(** * Phoenix Nest service discovery: codec, registry and dispatch

    A shallow embedding of [pn_discovery.c]: the flat key-value codec
    ([json_add_string], [json_add_int], [json_get_string], [json_get_int],
    [build_helo_message], [build_bye_message]), the bounded peer registry
    and the dispatcher [parse_message], with the properties of the
    discovery engine proved about them.

    Conventions.
    - A C string is the list of its characters before the terminating NUL.
    - A [char] buffer handed to the encoder is a list of cells of fixed
      length; a store outside it is a fault ([None]).
    - [int] values are integers; conversions to a narrower C type are
      written out ([wrap_int], [wrap_u32]).
    - The user callback is an output: every invocation is recorded as an
      [event] in the trace returned by [parse_message].
    - Time is an input: [now] stands for the value of [time(NULL)].
    - Sockets, threads, the mutex and console output are left out; the
      registry is the state passed from one call to the next. *)

From Stdlib Require Import ZArith Lia Ascii String List Decimal DecimalPos DecimalZ.
From stdpp Require Import base numbers list strings.

Local Open Scope Z_scope.

(* ===================================================================== *)
(** ** Characters and C strings *)
(* ===================================================================== *)

Definition NUL : ascii := "000"%char.
Definition DQUOTE : ascii := "034"%char.
Definition COMMA : ascii := ","%char.
Definition COLON : ascii := ":"%char.
Definition LBRACE : ascii := "{"%char.
Definition RBRACE : ascii := "}"%char.
Definition MINUS : ascii := "-"%char.
Definition PLUS : ascii := "+"%char.

(** String literals of the source, as character lists. *)
Definition str (s : string) : list ascii := list_ascii_of_string s.

(** Length of a buffer or string as a C [int]. *)
Definition zlen (s : list ascii) : Z := Z.of_nat (length s).

(** [strcmp(a, b) == 0] *)
Definition streq (a b : list ascii) : bool := bool_decide (a = b).

(** The string held by a byte array: everything before the first NUL. *)
Fixpoint c_str (raw : list ascii) : list ascii :=
  match raw with
  | [] => []
  | c :: t => if Ascii.eqb c NUL then [] else c :: c_str t
  end.

(** [strncpy(dst, src, n)] into a zeroed array of more than [n] cells leaves
    the first [n] characters of [src] as the string of [dst]. *)
Definition strncpy (src : list ascii) (n : nat) : list ascii := take n src.

Fixpoint starts_with (p s : list ascii) : bool :=
  match p, s with
  | [], _ => true
  | a :: p', b :: s' => Ascii.eqb a b && starts_with p' s'
  | _ :: _, [] => false
  end.

(** [strstr(hay, needle)]: the suffix of [hay] at the first occurrence. *)
Fixpoint strstr (hay needle : list ascii) : option (list ascii) :=
  if starts_with needle hay then Some hay
  else match hay with
       | [] => None
       | _ :: t => strstr t needle
       end.

(** [strchr(s, c)] for a character [c] other than NUL. *)
Fixpoint strchr (s : list ascii) (c : ascii) : option (list ascii) :=
  match s with
  | [] => None
  | a :: t => if Ascii.eqb a c then Some s else strchr t c
  end.

(* ===================================================================== *)
(** ** Integers: [int], [uint32_t], [%d] and [atoi] *)
(* ===================================================================== *)

Definition INT_MIN : Z := - 2 ^ 31.
Definition INT_MAX : Z := 2 ^ 31 - 1.

(** Conversion to [int] (two's complement, 32 bits). *)
Definition wrap_int (z : Z) : Z := (z + 2 ^ 31) mod 2 ^ 32 - 2 ^ 31.

(** Conversion to [uint32_t]. *)
Definition wrap_u32 (z : Z) : Z := z mod 2 ^ 32.

(** Conversion of an [int] to [size_t] (64 bits). *)
Definition to_size_t (z : Z) : Z := z mod 2 ^ 64.

Definition digit_char (d : Z) : ascii := ascii_of_N (Z.to_N (48 + d)).

Fixpoint uint_chars (u : Decimal.uint) : list ascii :=
  match u with
  | Nil => []
  | D0 u => digit_char 0 :: uint_chars u
  | D1 u => digit_char 1 :: uint_chars u
  | D2 u => digit_char 2 :: uint_chars u
  | D3 u => digit_char 3 :: uint_chars u
  | D4 u => digit_char 4 :: uint_chars u
  | D5 u => digit_char 5 :: uint_chars u
  | D6 u => digit_char 6 :: uint_chars u
  | D7 u => digit_char 7 :: uint_chars u
  | D8 u => digit_char 8 :: uint_chars u
  | D9 u => digit_char 9 :: uint_chars u
  end.

(** The characters [%d] prints. *)
Definition print_int (z : Z) : list ascii :=
  match Z.to_int z with
  | Pos u => uint_chars u
  | Neg u => MINUS :: uint_chars u
  end.

Definition is_digit (c : ascii) : bool :=
  let n := Z.of_N (N_of_ascii c) in (48 <=? n) && (n <=? 57).

Definition digit_val (c : ascii) : Z := Z.of_N (N_of_ascii c) - 48.

(** [isspace] in the C locale: space, [\t], [\n], [\v], [\f], [\r]. *)
Definition is_space (c : ascii) : bool :=
  let n := Z.of_N (N_of_ascii c) in (n =? 32) || ((9 <=? n) && (n <=? 13)).

Fixpoint skip_spaces (s : list ascii) : list ascii :=
  match s with
  | c :: t => if is_space c then skip_spaces t else s
  | [] => []
  end.

Fixpoint atoi_digits (acc : Z) (s : list ascii) : Z :=
  match s with
  | c :: t => if is_digit c then atoi_digits (10 * acc + digit_val c) t else acc
  | [] => acc
  end.

Definition LONG_MIN : Z := - 2 ^ 63.
Definition LONG_MAX : Z := 2 ^ 63 - 1.

(** The result of [strtol] for the value read, with a [long] of 64 bits:
    the value itself, or [LONG_MAX] or [LONG_MIN] when it does not fit. *)
Definition strtol_result (z : Z) : Z := Z.max LONG_MIN (Z.min LONG_MAX z).

(** [atoi] as the C library of Linux has it, [(int) strtol(s, NULL, 10)]:
    optional white space, optional sign, decimal digits; the [long] is
    converted to [int]. (C itself leaves the result open for a value that
    does not fit.) *)
Definition atoi (s : list ascii) : Z :=
  match skip_spaces s with
  | c :: t =>
      if Ascii.eqb c MINUS then wrap_int (strtol_result (- atoi_digits 0 t))
      else if Ascii.eqb c PLUS then wrap_int (strtol_result (atoi_digits 0 t))
      else wrap_int (strtol_result (atoi_digits 0 (c :: t)))
  | [] => wrap_int (strtol_result 0)
  end.

(* ===================================================================== *)
(** ** Constants of [pn_discovery.h] and [pn_discovery.c] *)
(* ===================================================================== *)

Definition PN_MAX_ID_LEN : Z := 64.
Definition PN_MAX_SERVICE_LEN : Z := 32.
Definition PN_MAX_IP_LEN : Z := 64.
Definition PN_MAX_CAPS_LEN : Z := 128.
Definition PN_MAX_SERVICES : nat := 32.
Definition PN_MAX_MSG_LEN : Z := 1024.
Definition PN_MAGIC : list ascii := str "PNSD".
Definition PN_VERSION : Z := 1.

(* ===================================================================== *)
(** ** The JSON helpers *)
(* ===================================================================== *)

(** The text [snprintf] formats for ["%s\"%s\":\"%s\""]. *)
Definition fmt_string (key val : list ascii) (comma : bool) : list ascii :=
  (if comma then [COMMA] else []) ++ DQUOTE :: key ++ [DQUOTE; COLON; DQUOTE] ++ val ++ [DQUOTE].

(** The text [snprintf] formats for ["%s\"%s\":%d"]. *)
Definition fmt_int (key : list ascii) (val : Z) (comma : bool) : list ascii :=
  (if comma then [COMMA] else []) ++ DQUOTE :: key ++ [DQUOTE; COLON] ++ print_int val.

(** A store of [bytes] at offset [pos] of the buffer; [None] when a cell
    outside the buffer would be written. *)
Definition store_bytes (buf : list ascii) (pos : Z) (bytes : list ascii) : option (list ascii) :=
  if (0 <=? pos) && (pos + zlen bytes <=? zlen buf)
  then Some (take (Z.to_nat pos) buf ++ bytes ++ drop (Z.to_nat pos + length bytes) buf)
  else None.

(** [snprintf(buf + pos, size, ...)] for the formatted [text]: at most
    [size - 1] characters and a NUL are stored, nothing when [size] is 0;
    the length of the whole [text] is returned. *)
Definition snprintf (buf : list ascii) (pos size : Z) (text : list ascii)
  : option (list ascii * Z) :=
  let size := to_size_t size in
  if size =? 0 then Some (buf, zlen text)
  else
    let k := Z.min (zlen text) (size - 1) in
    match store_bytes buf pos (take (Z.to_nat k) text ++ [NUL]) with
    | Some buf' => Some (buf', zlen text)
    | None => None
    end.

Definition json_add_string (buf : list ascii) (pos maxlen : Z)
    (key val : list ascii) (comma : bool) : option (list ascii * Z) :=
  match snprintf buf pos (maxlen - pos) (fmt_string key val comma) with
  | Some (buf', n) => Some (buf', if (0 <? n) && (pos + n <? maxlen) then pos + n else -1)
  | None => None
  end.

Definition json_add_int (buf : list ascii) (pos maxlen : Z)
    (key : list ascii) (val : Z) (comma : bool) : option (list ascii * Z) :=
  match snprintf buf pos (maxlen - pos) (fmt_int key val comma) with
  | Some (buf', n) => Some (buf', if (0 <? n) && (pos + n <? maxlen) then pos + n else -1)
  | None => None
  end.

(** [json_get_string(json, key, out, maxlen)]: [None] is the NULL result
    (and [out] is left as it was); [Some v] is the string stored in [out]. *)
Definition json_get_string (json key : list ascii) (maxlen : Z) : option (list ascii) :=
  let search := DQUOTE :: key ++ [DQUOTE; COLON; DQUOTE] in
  match strstr json search with
  | None => None
  | Some start0 =>
      let start := drop (length search) start0 in
      match strchr start DQUOTE with
      | None => None
      | Some end_ =>
          let len := Z.of_nat (length start - length end_) in
          let len := if len >=? maxlen then maxlen - 1 else len in
          Some (take (Z.to_nat len) start)
      end
  end.

Definition json_get_int (json key : list ascii) : Z :=
  let search := DQUOTE :: key ++ [DQUOTE; COLON] in
  match strstr json search with
  | None => 0
  | Some start0 => atoi (drop (length search) start0)
  end.

(* ===================================================================== *)
(** ** Service records and the global state *)
(* ===================================================================== *)

(** [pn_service_t]; each string field is the string held by its array. *)
Record pn_service_t := mk_service {
  id : list ascii;
  service : list ascii;
  ip : list ascii;
  ctrl_port : Z;
  data_port : Z;
  caps : list ascii;
  last_seen : Z;
  active : bool
}.

(** The fields of [g_discovery] the codec and the dispatcher read or write.
    [callback] tells whether a callback is registered (non-NULL). *)
Record discovery := mk_discovery {
  announcing : bool;
  my_service : pn_service_t;
  callback : bool;
  services : list pn_service_t;
  local_ip : list ascii
}.

(** The all-zero record and the state after [memset(&g_discovery, 0, ...)]. *)
Definition zero_service : pn_service_t := mk_service [] [] [] 0 0 [] 0 false.

Definition g_zero : discovery :=
  mk_discovery false zero_service false (replicate PN_MAX_SERVICES zero_service) [].

Definition set_services (g : discovery) (l : list pn_service_t) : discovery :=
  mk_discovery (announcing g) (my_service g) (callback g) l (local_ip g).

(** [s->active = b] *)
Definition set_active (s : pn_service_t) (b : bool) : pn_service_t :=
  mk_service (id s) (service s) (ip s) (ctrl_port s) (data_port s) (caps s) (last_seen s) b.

(** One invocation of the user callback:
    [callback(id, service, ip, ctrl_port, data_port, caps, is_bye, userdata)]. *)
Record event := Callback {
  ev_id : list ascii;
  ev_service : list ascii;
  ev_ip : list ascii;
  ev_ctrl_port : Z;
  ev_data_port : Z;
  ev_caps : list ascii;
  ev_is_bye : bool
}.

(* ===================================================================== *)
(** ** The encoder *)
(* ===================================================================== *)

(** Result of an encoder step: [None] is a store outside the buffer,
    [Some (buf, r)] the buffer and the returned [int]. *)
Definition enc : Type := option (list ascii * Z).

(** [pos = step; if (pos < 0) return -1; rest] *)
Definition or_fail (step : enc) (rest : list ascii -> Z -> enc) : enc :=
  match step with
  | None => None
  | Some (buf, pos) => if pos <? 0 then Some (buf, -1) else rest buf pos
  end.

Notation "'do' ( b , p ) <- e ; k" := (or_fail e (fun b p => k))
  (at level 10, b name, p name, e at level 100, k at level 200).

(** The closing brace and the terminator. *)
Definition close_message (buf : list ascii) (pos maxlen : Z) : enc :=
  if pos + 1 >=? maxlen then Some (buf, -1)
  else
    match store_bytes buf pos [RBRACE] with
    | None => None
    | Some buf =>
        match store_bytes buf (pos + 1) [NUL] with
        | None => None
        | Some buf => Some (buf, pos + 1)
        end
    end.

(** [build_helo_message(buf, maxlen)] in state [g] at time [now]. *)
Definition build_helo_message (g : discovery) (now : Z) (buf : list ascii) (maxlen : Z) : enc :=
  match store_bytes buf 0 [LBRACE] with
  | None => None
  | Some buf =>
      let pos := 1 in
      do (buf, pos) <- json_add_string buf pos maxlen (str "m") PN_MAGIC false;
      do (buf, pos) <- json_add_int buf pos maxlen (str "v") PN_VERSION true;
      do (buf, pos) <- json_add_string buf pos maxlen (str "cmd") (str "helo") true;
      do (buf, pos) <- json_add_string buf pos maxlen (str "id") (id (my_service g)) true;
      do (buf, pos) <- json_add_string buf pos maxlen (str "svc") (service (my_service g)) true;
      do (buf, pos) <- json_add_string buf pos maxlen (str "ip") (local_ip g) true;
      do (buf, pos) <- json_add_int buf pos maxlen (str "port") (ctrl_port (my_service g)) true;
      do (buf, pos) <-
        (if data_port (my_service g) >? 0
         then json_add_int buf pos maxlen (str "data") (data_port (my_service g)) true
         else Some (buf, pos));
      do (buf, pos) <-
        (if negb (streq (caps (my_service g)) [])
         then json_add_string buf pos maxlen (str "caps") (caps (my_service g)) true
         else Some (buf, pos));
      do (buf, pos) <- json_add_int buf pos maxlen (str "ts") (wrap_int now) true;
      close_message buf pos maxlen
  end.

(** [build_bye_message(buf, maxlen)] in state [g] at time [now]. *)
Definition build_bye_message (g : discovery) (now : Z) (buf : list ascii) (maxlen : Z) : enc :=
  match store_bytes buf 0 [LBRACE] with
  | None => None
  | Some buf =>
      let pos := 1 in
      do (buf, pos) <- json_add_string buf pos maxlen (str "m") PN_MAGIC false;
      do (buf, pos) <- json_add_int buf pos maxlen (str "v") PN_VERSION true;
      do (buf, pos) <- json_add_string buf pos maxlen (str "cmd") (str "bye") true;
      do (buf, pos) <- json_add_string buf pos maxlen (str "id") (id (my_service g)) true;
      do (buf, pos) <- json_add_int buf pos maxlen (str "ts") (wrap_int now) true;
      close_message buf pos maxlen
  end.

(* ===================================================================== *)
(** ** The registry and the dispatcher *)
(* ===================================================================== *)

(** The scan [for (i = 0; i < PN_MAX_SERVICES; i++) if (active && strcmp(id) == 0)]:
    the first slot that holds an active record of identity [i]. *)
Definition find_active (l : list pn_service_t) (i : list ascii) : option (nat * pn_service_t) :=
  list_find (fun s => active s = true /\ id s = i) (take PN_MAX_SERVICES l).

(** The scan for the first slot that is not active. *)
Definition find_free (l : list pn_service_t) : option (nat * pn_service_t) :=
  list_find (fun s => active s = false) (take PN_MAX_SERVICES l).

(** [parse_message(buf, len, sender_ip)] in state [g] at time [now].
    [buf] is the string of the received datagram. [stack_caps] is what the
    automatic array [caps] holds on entry: the source leaves the array as
    it is when the message has no ["caps"] key. The result is the returned
    [int], the state afterwards and the callback invocations in order. *)
Definition parse_message (g : discovery) (now : Z) (stack_caps : list ascii)
    (buf sender_ip : list ascii) : Z * discovery * list event :=
  match json_get_string buf (str "m") 8 with
  | None => (-1, g, [])
  | Some magic =>
  if negb (streq magic PN_MAGIC) then (-1, g, []) else
  match json_get_string buf (str "cmd") 16 with
  | None => (-1, g, [])
  | Some cmd =>
  match json_get_string buf (str "id") PN_MAX_ID_LEN with
  | None => (-1, g, [])
  | Some id_ =>
  if announcing g && streq id_ (id (my_service g)) then (0, g, []) else
  if streq cmd (str "helo") then
    match json_get_string buf (str "svc") PN_MAX_SERVICE_LEN with
    | None => (-1, g, [])
    | Some svc =>
        let ip_ :=
          match json_get_string buf (str "ip") PN_MAX_IP_LEN with
          | Some v => v
          | None => strncpy sender_ip (Z.to_nat (PN_MAX_IP_LEN - 1))
          end in
        let port := json_get_int buf (str "port") in
        let data_port_ := json_get_int buf (str "data") in
        (* [json_get_string(buf, "caps", caps, ...)] leaves [caps] as it was
           when it fails, and [if (!caps[0]) caps[0] = 0] changes nothing. *)
        let caps_ :=
          match json_get_string buf (str "caps") PN_MAX_CAPS_LEN with
          | Some v => v
          | None => stack_caps
          end in
        let known := find_active (services g) id_ in
        let is_new := match known with Some _ => false | None => true end in
        let idx :=
          match known with
          | Some (i, _) => Some i
          | None => fst <$> find_free (services g)
          end in
        let services' :=
          match idx with
          | Some i =>
              <[ i := mk_service
                        (strncpy id_ (Z.to_nat (PN_MAX_ID_LEN - 1)))
                        (strncpy svc (Z.to_nat (PN_MAX_SERVICE_LEN - 1)))
                        (strncpy ip_ (Z.to_nat (PN_MAX_IP_LEN - 1)))
                        port data_port_
                        (strncpy caps_ (Z.to_nat (PN_MAX_CAPS_LEN - 1)))
                        (wrap_u32 now) true ]> (services g)
          | None => services g
          end in
        let events :=
          if is_new && callback g
          then [Callback id_ svc ip_ port data_port_ caps_ false]
          else [] in
        (0, set_services g services', events)
    end
  else if streq cmd (str "bye") then
    match find_active (services g) id_ with
    | Some (i, s) =>
        let svc_copy := strncpy (service s) (Z.to_nat (PN_MAX_SERVICE_LEN - 1)) in
        let ip_copy := strncpy (ip s) (Z.to_nat (PN_MAX_IP_LEN - 1)) in
        let port_copy := ctrl_port s in
        let services' := <[ i := set_active s false ]> (services g) in
        let events :=
          if callback g && negb (streq svc_copy [])
          then [Callback id_ svc_copy ip_copy port_copy 0 [] true]
          else [] in
        (0, set_services g services', events)
    | None => (0, g, [])
    end
  else (0, g, [])
  end end end.

(** [pn_find_service_by_id] *)
Definition pn_find_service_by_id (g : discovery) (i : list ascii) : option pn_service_t :=
  snd <$> find_active (services g) i.

(** [pn_find_service] *)
Definition pn_find_service (g : discovery) (service_type : list ascii) : option pn_service_t :=
  snd <$> list_find (fun s => active s = true /\ service s = service_type)
            (take PN_MAX_SERVICES (services g)).

(** The loop of [pn_get_services] from slot [i] on; [out] holds the
    [count] entries copied so far. *)
Fixpoint get_services_loop (slots : list pn_service_t) (out : list pn_service_t)
    (max_count : Z) : list pn_service_t :=
  match slots with
  | [] => out
  | s :: rest =>
      if Z.of_nat (length out) <? max_count
      then get_services_loop rest (if active s then out ++ [s] else out) max_count
      else out
  end.

(** [pn_get_services(out, max_count)]: the returned count and the entries
    [out[0 .. count)]. *)
Definition pn_get_services (g : discovery) (max_count : Z) : Z * list pn_service_t :=
  let out := get_services_loop (take PN_MAX_SERVICES (services g)) [] max_count in
  (Z.of_nat (length out), out).

(** [pn_get_service_count] *)
Definition pn_get_service_count (g : discovery) : Z :=
  Z.of_nat (length (filter (fun s => active s = true) (take PN_MAX_SERVICES (services g)))).

(* ===================================================================== *)
(** ** Reading a received message *)
(* ===================================================================== *)

(** The four extractions [parse_message] starts with, by name. *)
Definition msg_tag (buf : list ascii) : option (list ascii) :=
  json_get_string buf (str "m") 8.
Definition msg_cmd (buf : list ascii) : option (list ascii) :=
  json_get_string buf (str "cmd") 16.
Definition msg_id (buf : list ascii) : option (list ascii) :=
  json_get_string buf (str "id") PN_MAX_ID_LEN.
Definition msg_svc (buf : list ascii) : option (list ascii) :=
  json_get_string buf (str "svc") PN_MAX_SERVICE_LEN.

(** The remaining fields of a presence message as [parse_message] reads
    them; [msg_caps] is [None] when the message has no ["caps"] key. *)
Definition msg_ip (buf sender_ip : list ascii) : list ascii :=
  match json_get_string buf (str "ip") PN_MAX_IP_LEN with
  | Some v => v
  | None => strncpy sender_ip (Z.to_nat (PN_MAX_IP_LEN - 1))
  end.
Definition msg_port (buf : list ascii) : Z := json_get_int buf (str "port").
Definition msg_data (buf : list ascii) : Z := json_get_int buf (str "data").
Definition msg_caps (buf : list ascii) : option (list ascii) :=
  json_get_string buf (str "caps") PN_MAX_CAPS_LEN.

(** The text [needle] occurs nowhere in [hay]. *)
Definition occurs_nowhere (needle hay : list ascii) : Prop :=
  forall pre post, hay <> pre ++ needle ++ post.

(** The message has no protocol tag key: the text [json_get_string]
    searches for the key ["m"] occurs nowhere in it. *)
Definition tag_missing (buf : list ascii) : Prop :=
  occurs_nowhere (DQUOTE :: str "m" ++ [DQUOTE; COLON; DQUOTE]) buf.

(** A presence message of identity [i]: valid tag, command [helo],
    identity [i] and a service type. *)
Definition presence (buf i : list ascii) : Prop :=
  msg_tag buf = Some PN_MAGIC /\ msg_cmd buf = Some (str "helo") /\
  msg_id buf = Some i /\ is_Some (msg_svc buf).

(** A departure message of identity [i]. *)
Definition departure (buf i : list ascii) : Prop :=
  msg_tag buf = Some PN_MAGIC /\ msg_cmd buf = Some (str "bye") /\
  msg_id buf = Some i.

(** The message is from this instance: it announces and the identity is
    its own. *)
Definition is_self (g : discovery) (i : list ascii) : bool :=
  announcing g && streq i (id (my_service g)).

(** No active record of identity [i] in the registry. *)
Definition unknown_id (g : discovery) (i : list ascii) : Prop :=
  forall k s, services g !! k = Some s -> active s = true -> id s <> i.

(** Every slot of the registry holds an active record. *)
Definition registry_full (g : discovery) : Prop :=
  length (services g) = PN_MAX_SERVICES /\
  Forall (fun s => active s = true) (services g).

(** At most one active record per identity. *)
Definition unique_ids (l : list pn_service_t) : Prop :=
  forall j k s t, l !! j = Some s -> l !! k = Some t ->
    active s = true -> active t = true -> id s = id t -> j = k.

(** The strings of a record fit their arrays. *)
Definition service_fits (s : pn_service_t) : Prop :=
  zlen (id s) < PN_MAX_ID_LEN /\ zlen (service s) < PN_MAX_SERVICE_LEN /\
  zlen (ip s) < PN_MAX_IP_LEN /\ zlen (caps s) < PN_MAX_CAPS_LEN.


(** Sample messages for the concrete instances below. *)
Definition sample_helo (i svc : list ascii) : list ascii :=
  LBRACE :: fmt_string (str "m") PN_MAGIC false ++ fmt_string (str "cmd") (str "helo") true
    ++ fmt_string (str "id") i true ++ fmt_string (str "svc") svc true ++ [RBRACE].

Definition sample_helo_no_svc (i : list ascii) : list ascii :=
  LBRACE :: fmt_string (str "m") PN_MAGIC false ++ fmt_string (str "cmd") (str "helo") true
    ++ fmt_string (str "id") i true ++ [RBRACE].

Definition sample_bye (tag i : list ascii) : list ascii :=
  LBRACE :: fmt_string (str "m") tag false ++ fmt_string (str "cmd") (str "bye") true
    ++ fmt_string (str "id") i true ++ [RBRACE].

Definition sample_peer (i : list ascii) : pn_service_t :=
  mk_service i (str "sdr_server") (str "10.0.0.7") 4535 4536 (str "caps1") 7 true.

(** A listening instance with the given registry, announcing as [me] when
    [ann] is set. *)
Definition sample_state (ann : bool) (me : list ascii) (l : list pn_service_t) : discovery :=
  mk_discovery ann (mk_service me (str "waterfall") [] 0 0 [] 0 false) true l (str "10.0.0.2").

(** Thirty-two active peers of distinct identities ["p"], ["pp"], ... *)
Definition full_registry : list pn_service_t :=
  map (fun n => sample_peer (replicate (S n) "p"%char)) (seq 0 PN_MAX_SERVICES).


(** One registered peer ["A1"] in slot 0, the other slots unused. *)
Definition one_peer_registry : list pn_service_t :=
  sample_peer (str "A1") :: replicate (PN_MAX_SERVICES - 1) zero_service.

(* ===================================================================== *)
(** ** The listener *)
(* ===================================================================== *)

(** A datagram as [recvfrom] delivers it: its bytes, the sender's address
    as [inet_ntop] prints it, the time of arrival, and what the array
    [caps] of [parse_message] holds when the call is entered. *)
Record datagram := mk_datagram {
  dg_bytes : list ascii;
  dg_sender : list ascii;
  dg_time : Z;
  dg_stack_caps : list ascii
}.

(** The string [parse_message] is given: at most [sizeof(buf) - 1] bytes
    are received and a NUL is stored after them. *)
Definition dg_text (d : datagram) : list ascii :=
  c_str (take (Z.to_nat (PN_MAX_MSG_LEN - 1)) (dg_bytes d)).

(** One iteration of the loop of [listen_thread_func] that received [d]. *)
Definition listen_step (g : discovery) (d : datagram) : discovery * list event :=
  let len := Z.min (zlen (dg_bytes d)) (PN_MAX_MSG_LEN - 1) in
  if 0 <? len then
    let r := parse_message g (dg_time d) (dg_stack_caps d) (dg_text d) (dg_sender d) in
    (r.1.2, r.2)
  else (g, []).

(** The listener over the datagrams received, in order. *)
Fixpoint listen_run (g : discovery) (ds : list datagram) : discovery * list event :=
  match ds with
  | [] => (g, [])
  | d :: ds' =>
      let r := listen_step g d in
      let r' := listen_run r.1 ds' in
      (r'.1, r.2 ++ r'.2)
  end.

(** A slot that can take a record of identity [i]: it is not active, or it
    holds the active record of [i]. *)
Definition has_room (g : discovery) (i : list ascii) : Prop :=
  exists k s, services g !! k = Some s /\ (active s = true -> id s = i).

(** The record [parse_message] stores for a presence message. *)
Definition stored_record (now : Z) (stack_caps buf sender_ip i svc : list ascii) : pn_service_t :=
  mk_service i svc (msg_ip buf sender_ip) (msg_port buf) (msg_data buf)
    (strncpy (default stack_caps (msg_caps buf)) (Z.to_nat (PN_MAX_CAPS_LEN - 1)))
    (wrap_u32 now) true.

(* ===================================================================== *)
(** ** The text of a message *)
(* ===================================================================== *)

(** The body both [json_add_string] and [json_add_int] share: format
    [text] at [pos] with the capacity left, and advance or fail. *)
Definition append_text (buf : list ascii) (pos maxlen : Z) (text : list ascii) : enc :=
  match snprintf buf pos (maxlen - pos) text with
  | Some (buf', n) => Some (buf', if (0 <? n) && (pos + n <? maxlen) then pos + n else -1)
  | None => None
  end.

(** A run of appends, each followed by [if (pos < 0) return -1], then [k]. *)
Fixpoint append_all (buf : list ascii) (pos maxlen : Z) (texts : list (list ascii))
    (k : list ascii -> Z -> enc) : enc :=
  match texts with
  | [] => k buf pos
  | t :: ts => or_fail (append_text buf pos maxlen t) (fun b p => append_all b p maxlen ts k)
  end.

(** A value on the wire: a quoted string or a decimal integer. *)
Inductive jvalue := JString (v : list ascii) | JInt (n : Z).

Definition fmt_item (comma : bool) (it : list ascii * jvalue) : list ascii :=
  match it.2 with
  | JString v => fmt_string it.1 v comma
  | JInt n => fmt_int it.1 n comma
  end.

(** The first item is written without a comma, the others with one. *)
Definition fmt_items (items : list (list ascii * jvalue)) : list (list ascii) :=
  match items with
  | [] => []
  | it :: rest => fmt_item false it :: map (fmt_item true) rest
  end.

(** The complete message for a list of items. *)
Definition message_text (items : list (list ascii * jvalue)) : list ascii :=
  LBRACE :: concat (fmt_items items) ++ [RBRACE].

(** The keys and values [build_helo_message] writes, in order. *)
Definition helo_items (g : discovery) (now : Z) : list (list ascii * jvalue) :=
  [ (str "m", JString PN_MAGIC); (str "v", JInt PN_VERSION);
    (str "cmd", JString (str "helo")); (str "id", JString (id (my_service g)));
    (str "svc", JString (service (my_service g))); (str "ip", JString (local_ip g));
    (str "port", JInt (ctrl_port (my_service g))) ]
  ++ (if data_port (my_service g) >? 0 then [(str "data", JInt (data_port (my_service g)))] else [])
  ++ (if negb (streq (caps (my_service g)) []) then [(str "caps", JString (caps (my_service g)))] else [])
  ++ [ (str "ts", JInt (wrap_int now)) ].

(** The keys and values [build_bye_message] writes, in order. *)
Definition bye_items (g : discovery) (now : Z) : list (list ascii * jvalue) :=
  [ (str "m", JString PN_MAGIC); (str "v", JInt PN_VERSION);
    (str "cmd", JString (str "bye")); (str "id", JString (id (my_service g)));
    (str "ts", JInt (wrap_int now)) ].

Definition helo_text (g : discovery) (now : Z) : list ascii := message_text (helo_items g now).
Definition bye_text (g : discovery) (now : Z) : list ascii := message_text (bye_items g now).

(** What an encoder call may do with a buffer of [maxlen] cells, for the
    complete message [text]: it never stores outside the buffer, and it
    either fails with -1, when [text] and its NUL do not fit, or returns
    the length of [text] with [text] and a NUL at the start of the buffer. *)
Definition encodes (r : enc) (maxlen : Z) (text : list ascii) : Prop :=
  exists buf' n,
    r = Some (buf', n) /\ zlen buf' = maxlen /\
    ((n = -1 /\ maxlen <= zlen text) \/
     (n = zlen text /\ zlen text < maxlen /\
      take (length text) buf' = text /\ buf' !! length text = Some NUL)).

(* ===================================================================== *)
(** ** Well-formed items and self descriptors *)
(* ===================================================================== *)

(** The character [c] does not occur in [s]. *)
Definition no_char (c : ascii) (s : list ascii) : bool :=
  forallb (fun a => negb (Ascii.eqb a c)) s.

(** The characters of a value as [fmt_string] and [fmt_int] write them. *)
Definition value_text (v : jvalue) : list ascii :=
  match v with
  | JString s => DQUOTE :: s ++ [DQUOTE]
  | JInt n => print_int n
  end.

(** Neither the key nor a string value holds a double quote. *)
Definition item_clean (it : list ascii * jvalue) : bool :=
  no_char DQUOTE it.1 &&
  match it.2 with
  | JString v => no_char DQUOTE v
  | JInt _ => true
  end.

(** A key the decoder searches for: not empty, without a double quote, and
    not starting with a character of the message syntax. *)
Definition proper_key (k : list ascii) : bool :=
  match k with
  | c :: _ =>
      negb (Ascii.eqb c COLON) && negb (Ascii.eqb c COMMA) && negb (Ascii.eqb c RBRACE)
      && no_char DQUOTE k
  | [] => false
  end.

(** Text that follows a value: it starts with a comma or the closing brace. *)
Definition closes (r : list ascii) : bool :=
  match r with
  | c :: _ => Ascii.eqb c COMMA || Ascii.eqb c RBRACE
  | [] => false
  end.

(** The items one after the other, the first with the comma flag [comma]. *)
Fixpoint render (comma : bool) (items : list (list ascii * jvalue)) : list ascii :=
  match items with
  | [] => []
  | it :: rest => fmt_item comma it ++ render true rest
  end.

(** A self descriptor as [pn_announce] leaves it: the strings fit their
    arrays and hold no NUL, the ports are [int] values. *)
Definition self_fits (g : discovery) : Prop :=
  service_fits (my_service g) /\ zlen (local_ip g) < PN_MAX_IP_LEN /\
  no_char NUL (id (my_service g)) = true /\ no_char NUL (service (my_service g)) = true /\
  no_char NUL (local_ip g) = true /\ no_char NUL (caps (my_service g)) = true /\
  INT_MIN <= ctrl_port (my_service g) <= INT_MAX /\
  INT_MIN <= data_port (my_service g) <= INT_MAX.

(** No string of the self descriptor holds a double quote. *)
Definition self_quote_free (g : discovery) : Prop :=
  no_char DQUOTE (id (my_service g)) = true /\ no_char DQUOTE (service (my_service g)) = true /\
  no_char DQUOTE (local_ip g) = true /\ no_char DQUOTE (caps (my_service g)) = true.

(** The bytes [broadcast_message(msg, len)] sends. *)
Definition sent_bytes (msg : list ascii) (len : Z) : list ascii := take (Z.to_nat len) msg.

(** What the announcer broadcasts for the result of an encoder call:
    [if (len > 0) broadcast_message(msg, len)]. *)
Definition broadcast_of (r : enc) : list (list ascii) :=
  match r with
  | Some (msg, len) => if 0 <? len then [sent_bytes msg len] else []
  | None => []
  end.

(** The state after [pn_discovery_init] and [pn_listen]: the zeroed state
    with a callback registered. *)
Definition g_listening : discovery :=
  mk_discovery (announcing g_zero) (my_service g_zero) true (services g_zero) (local_ip g_zero).

(** An announcing server with data port and capabilities. *)
Definition sample_server : discovery :=
  mk_discovery true
    (mk_service (str "A1") (str "sdr_server") [] 4535 4536 (str "rsp2pro,2mhz") 0 false)
    false [] (str "10.0.0.5").

(** An announcing instance whose identity holds a double quote. *)
Definition quoted_sender : discovery :=
  mk_discovery true
    (mk_service (str "a" ++ DQUOTE :: str "b") (str "sdr_server") [] 4535 0 [] 0 false)
    false [] (str "10.0.0.5").

(** The text [json_get_string] searches for to find the value of the
    protocol tag: the quoted key ["m"], the colon and the opening quote of
    a string. *)
Definition tag_search : list ascii := DQUOTE :: str "m" ++ [DQUOTE; COLON; DQUOTE].

(** The protocol tag of the message has another value: what follows the
    first occurrence of [tag_search], up to the next double quote, is not
    [PNSD]; or no double quote follows it at all. [pre] is the text before
    that first occurrence: [tag_search] does not start anywhere in it. *)
Definition tag_differs (buf : list ascii) : Prop :=
  exists pre rest,
    buf = pre ++ tag_search ++ rest /\
    occurs_nowhere tag_search (pre ++ removelast tag_search) /\
    (no_char DQUOTE rest = true \/
     exists v post, rest = v ++ DQUOTE :: post /\ no_char DQUOTE v = true /\ v <> PN_MAGIC).

(** A presence message whose first field of key ["m"] is the number 7,
    with a second field of that key further on. *)
Definition disguised_tag_items : list (list ascii * jvalue) :=
  [ (str "m", JInt 7); (str "cmd", JString (str "helo")); (str "id", JString (str "Z9"));
    (str "svc", JString (str "waterfall")); (str "m", JString PN_MAGIC) ].
(* ===================================================================== *)
(** ** Further notions for the dispatcher and the listener *)
(* ===================================================================== *)

(** Slot [k] is the first one that is not active. *)
Definition first_free_slot (g : discovery) (k : nat) : Prop :=
  (exists s, services g !! k = Some s /\ active s = false) /\
  forall j s, (j < k)%nat -> services g !! j = Some s -> active s = true.

(** The callback invocation for the appearance of the peer of datagram [d]. *)
Definition presence_event (d : datagram) (i : list ascii) : event :=
  Callback i (default [] (msg_svc (dg_text d))) (msg_ip (dg_text d) (dg_sender d))
    (msg_port (dg_text d)) (msg_data (dg_text d))
    (default (dg_stack_caps d) (msg_caps (dg_text d))) false.

(** A message of the given command and identity, without further fields. *)
Definition sample_command (cmd i : list ascii) : list ascii :=
  LBRACE :: fmt_string (str "m") PN_MAGIC false ++ fmt_string (str "cmd") cmd true
    ++ fmt_string (str "id") i true ++ [RBRACE].

(** A message with the protocol tag and a command but no identity. *)
Definition sample_no_id : list ascii :=
  LBRACE :: fmt_string (str "m") PN_MAGIC false ++ fmt_string (str "cmd") (str "helo") true
    ++ [RBRACE].

(** Slot 0 is free and an older [sdr_server] sits in slot 1. *)
Definition gap_registry : list pn_service_t :=
  zero_service :: sample_peer (str "A1") :: replicate (PN_MAX_SERVICES - 2) zero_service.

(** A message whose first field is too long for the identity array and
    which names the key ["id"] twice. *)
Definition sample_long_items : list (list ascii * jvalue) :=
  [ (str "m", JString PN_MAGIC); (str "id", JString (replicate 70 "x"%char));
    (str "port", JString (str "4535")); (str "data", JInt 4536);
    (str "id", JString (str "second")) ].

(* ===================================================================== *)
(** ** Announce interval *)
(* ===================================================================== *)

Definition PN_ANNOUNCE_MIN_SEC : Z := 30.
Definition PN_ANNOUNCE_MAX_SEC : Z := 60.

(** [get_random_interval()], for the value [r] that [rand()] returns. *)
Definition get_random_interval (r : Z) : Z :=
  let range := PN_ANNOUNCE_MAX_SEC - PN_ANNOUNCE_MIN_SEC in
  PN_ANNOUNCE_MIN_SEC + Z.rem r (range + 1).

(* ===================================================================== *)
(** ** Addresses and [broadcast_message] *)
(* ===================================================================== *)

(** IPv4 addresses are 32-bit values in host byte order. *)
Definition PN_DISCOVERY_UDP_PORT : Z := 5400.
Definition INADDR_BROADCAST : Z := 0xFFFFFFFF.
Definition INADDR_LOOPBACK : Z := 0x7F000001.
Definition DOT : ascii := "."%char.

(** The port [htons] puts into [sin_port]: the low 16 bits. *)
Definition htons (port : Z) : Z := port mod 2 ^ 16.

(** One call [sendto(sock, msg, len, 0, dest, ...)]. *)
Record sendto_call := SendTo {
  to_addr : Z;
  to_port : Z;
  to_bytes : list ascii
}.

(** [0xFFFFFFFF << (32 - prefix)] as a 32-bit [ULONG]. C defines the shift
    for a prefix length from 1 to 32. *)
Definition subnet_mask (prefix : Z) : Z := wrap_u32 (Z.shiftl 0xFFFFFFFF (32 - prefix)).

(** [ip | ~mask] as a 32-bit [ULONG]. *)
Definition subnet_broadcast (ip prefix : Z) : Z :=
  Z.lor ip (wrap_u32 (Z.lnot (subnet_mask prefix))).

(** An entry of [FirstUnicastAddress]: whether the family is [AF_INET],
    the address and [OnLinkPrefixLength]. *)
Record unicast_address := mk_unicast {
  ua_inet : bool;
  ua_addr : Z;
  ua_prefix : Z
}.

(** An adapter of [GetAdaptersAddresses]: whether [OperStatus] is
    [IfOperStatusUp], and its unicast addresses. *)
Record adapter := mk_adapter {
  oper_up : bool;
  unicast : list unicast_address
}.

(** The prefix lengths for which C defines the shift of [subnet_mask]. *)
Definition prefix_defined (u : unicast_address) : bool :=
  (1 <=? ua_prefix u) && (ua_prefix u <=? 32).

(** The sends for the unicast addresses of one adapter that is up; [None]
    is a shift that C leaves undefined. *)
Fixpoint send_unicasts (port : Z) (bytes : list ascii) (us : list unicast_address)
  : option (list sendto_call) :=
  match us with
  | [] => Some []
  | u :: rest =>
      if ua_inet u then
        if prefix_defined u then
          match send_unicasts port bytes rest with
          | Some l =>
              Some (SendTo (subnet_broadcast (wrap_u32 (ua_addr u)) (ua_prefix u))
                      (htons port) bytes :: l)
          | None => None
          end
        else None
      else send_unicasts port bytes rest
  end.

Fixpoint send_adapters (port : Z) (bytes : list ascii) (adapters : list adapter)
  : option (list sendto_call) :=
  match adapters with
  | [] => Some []
  | a :: rest =>
      match (if oper_up a then send_unicasts port bytes (unicast a) else Some []) with
      | Some l1 =>
          match send_adapters port bytes rest with
          | Some l2 => Some (l1 ++ l2)
          | None => None
          end
      | None => None
      end
  end.

(** Every address the loops of [broadcast_message] compute a mask for has
    a prefix length from 1 to 32. *)
Definition shifts_defined (adapters : option (list adapter)) : bool :=
  match adapters with
  | Some l =>
      forallb (fun a => negb (oper_up a)
                        || forallb (fun u => negb (ua_inet u) || prefix_defined u) (unicast a)) l
  | None => true
  end.

(** [broadcast_message(msg, len)], the branch for Windows. [malloc_ok]
    tells whether the buffer for the adapters was allocated; [adapters] is
    [None] when [GetAdaptersAddresses] fails. The result is [None] for a
    shift that C leaves undefined. *)
Definition broadcast_message_win32 (port : Z) (malloc_ok : bool)
    (adapters : option (list adapter)) (msg : list ascii) (len : Z)
  : option (list sendto_call) :=
  if negb malloc_ok then Some []
  else
    match (match adapters with
           | Some l => send_adapters port (sent_bytes msg len) l
           | None => Some []
           end) with
    | Some l => Some (l ++ [SendTo INADDR_BROADCAST (htons port) (sent_bytes msg len)])
    | None => None
    end.

(** Two adapters: one down, one up with an IPv6 and an IPv4 address. *)
Definition sample_adapters : list adapter :=
  [mk_adapter false [mk_unicast true 0x0A000001 8];
   mk_adapter true [mk_unicast false 0 64; mk_unicast true 0xC0A80105 24]].

(** An entry of [getifaddrs]: [ifa_addr] (NULL, or whether the family is
    [AF_INET] and the address), the flag [IFF_BROADCAST], and
    [ifa_broadaddr] (NULL, or the address). *)
Record ifaddr := mk_ifaddr {
  ifa_addr : option (bool * Z);
  ifa_flag_broadcast : bool;
  ifa_broadaddr : option Z
}.

Fixpoint send_interfaces (port : Z) (bytes : list ascii) (ifs : list ifaddr)
  : list sendto_call :=
  match ifs with
  | [] => []
  | ifa :: rest =>
      match ifa_addr ifa with
      | None => send_interfaces port bytes rest
      | Some (inet, _) =>
          if negb inet then send_interfaces port bytes rest
          else if negb (ifa_flag_broadcast ifa) then send_interfaces port bytes rest
          else
            match ifa_broadaddr ifa with
            | None => send_interfaces port bytes rest
            | Some b => SendTo b (htons port) bytes :: send_interfaces port bytes rest
            end
      end
  end.

(** [broadcast_message(msg, len)], the branch for Linux. [ifs] is [None]
    when [getifaddrs] fails. *)
Definition broadcast_message_posix (port : Z) (ifs : option (list ifaddr))
    (msg : list ascii) (len : Z) : list sendto_call :=
  match ifs with
  | None => [SendTo INADDR_BROADCAST (htons port) (sent_bytes msg len)]
  | Some l => send_interfaces port (sent_bytes msg len) l
  end.

(* ===================================================================== *)
(** ** [pn_get_local_ip] *)
(* ===================================================================== *)

(** The text [inet_ntop(AF_INET, ...)] prints for an address. *)
Definition dotted_quad (a : Z) : list ascii :=
  print_int (a / 2 ^ 24 mod 256) ++ DOT :: print_int (a / 2 ^ 16 mod 256) ++
  DOT :: print_int (a / 2 ^ 8 mod 256) ++ DOT :: print_int (a mod 256).

(** [inet_ntop(AF_INET, &addr, out, size)]: the text and its NUL when
    they fit in [size] bytes; otherwise NULL is returned and [out] is left
    as it is. The flag tells whether the result is not NULL. *)
Definition inet_ntop (a : Z) (out : list ascii) (size : Z) : option (bool * list ascii) :=
  if wrap_u32 size <=? zlen (dotted_quad a) then Some (false, out)
  else
    match store_bytes out 0 (dotted_quad a ++ [NUL]) with
    | Some out' => Some (true, out')
    | None => None
    end.

(** [strncpy(out, src, n)] on the array itself: exactly [n] bytes are
    stored, the characters of [src] and then NULs. *)
Definition strncpy_mem (out src : list ascii) (n : Z) : option (list ascii) :=
  let n := to_size_t n in
  if n <=? zlen out
  then store_bytes out 0 (take (Z.to_nat n) src ++ replicate (Z.to_nat n - length src) NUL)
  else None.

(** The loop of [pn_get_local_ip]: the first interface with an [AF_INET]
    address other than [INADDR_LOOPBACK]. *)
Fixpoint first_local_addr (ifs : list ifaddr) : option Z :=
  match ifs with
  | [] => None
  | ifa :: rest =>
      match ifa_addr ifa with
      | None => first_local_addr rest
      | Some (inet, a) =>
          if negb inet then first_local_addr rest
          else if a =? INADDR_LOOPBACK then first_local_addr rest
          else Some a
      end
  end.

(** An entry that cannot give the local address: it has no address, an
    address of another family than [AF_INET], or the address 127.0.0.1. *)
Definition passed_over (ifa : ifaddr) : Prop :=
  match ifa_addr ifa with
  | None => True
  | Some (inet, a) => inet = false \/ a = INADDR_LOOPBACK
  end.

(** [pn_get_local_ip(out, maxlen)], the branch for Linux: the returned
    [int] and the array afterwards; [None] is a store outside the array. *)
Definition pn_get_local_ip (ifs : option (list ifaddr)) (out : list ascii) (maxlen : Z)
  : option (Z * list ascii) :=
  match ifs with
  | None =>
      match strncpy_mem out (str "127.0.0.1") (maxlen - 1) with
      | Some out' => Some (-1, out')
      | None => None
      end
  | Some l =>
      match first_local_addr l with
      | Some a =>
          match inet_ntop a out maxlen with
          | Some (_, out') => Some (0, out')
          | None => None
          end
      | None =>
          match strncpy_mem out (str "127.0.0.1") (maxlen - 1) with
          | Some out' => Some (0, out')
          | None => None
          end
      end
  end.

(** The address the interfaces resolve to, as a string. *)
Definition resolved_ip (ifs : option (list ifaddr)) : list ascii :=
  match ifs with
  | Some l =>
      match first_local_addr l with
      | Some a => dotted_quad a
      | None => str "127.0.0.1"
      end
  | None => str "127.0.0.1"
  end.

(* ===================================================================== *)
(** ** Start, stop and shutdown *)
(* ===================================================================== *)

Definition INVALID_SOCK : Z := -1.

(** [g_discovery] as a whole: the fields of [discovery] and the flags,
    the port and the socket around them. *)
Record instance := mk_instance {
  initialized : bool;
  udp_port : Z;
  sock : Z;
  announce_running : bool;
  listening : bool;
  listen_running : bool;
  core : discovery
}.

(** [memset(&g_discovery, 0, sizeof(g_discovery))] *)
Definition instance_zero : instance := mk_instance false 0 0 false false false g_zero.

(** What the system answers during [pn_discovery_init]: the descriptor
    [socket] returns, whether [setsockopt(SO_BROADCAST)] and [bind]
    succeed, and the interfaces [getifaddrs] lists. *)
Record init_env := mk_init_env {
  env_socket : Z;
  env_broadcast_ok : bool;
  env_bind_ok : bool;
  env_ifaddrs : option (list ifaddr)
}.

(** [pn_discovery_init(udp_port)]; [None] is a store outside [local_ip]. *)
Definition pn_discovery_init (st : instance) (env : init_env) (port : Z)
  : option (Z * instance) :=
  if initialized st then Some (0, st)
  else
    let port' := if port >? 0 then port else PN_DISCOVERY_UDP_PORT in
    let st1 := mk_instance false port' (env_socket env) false false false g_zero in
    if env_socket env =? INVALID_SOCK then Some (-1, st1)
    else if negb (env_broadcast_ok env) then Some (-1, st1)
    else if negb (env_bind_ok env) then Some (-1, st1)
    else
      match pn_get_local_ip (env_ifaddrs env)
              (replicate (Z.to_nat PN_MAX_IP_LEN) NUL) PN_MAX_IP_LEN with
      | None => None
      | Some (_, out) =>
          Some (0, mk_instance true port' (env_socket env) false false false
                     (mk_discovery false zero_service false
                        (replicate PN_MAX_SERVICES zero_service) (c_str out)))
      end.

(** [pn_announce_stop()] at time [now]; [stack_msg] is what the array
    [msg] holds on entry. The result is the state and the messages handed
    to [broadcast_message]. *)
Definition pn_announce_stop (st : instance) (now : Z) (stack_msg : list ascii)
  : instance * list (list ascii) :=
  if negb (announcing (core st)) then (st, [])
  else
    let sent := broadcast_of (build_bye_message (core st) now stack_msg PN_MAX_MSG_LEN) in
    let g := core st in
    (mk_instance (initialized st) (udp_port st) (sock st) false (listening st)
       (listen_running st)
       (mk_discovery false (my_service g) (callback g) (services g) (local_ip g)),
     sent).

(** [pn_announce(id, service, ctrl_port, data_port, caps)]; [caps_] is
    [None] for a NULL pointer, [thread_ok] tells whether the announce
    thread could be created. The result is the returned [int], the state
    and the messages this call hands to [broadcast_message]. *)
Definition pn_announce (st : instance) (now : Z) (stack_msg : list ascii)
    (thread_ok : bool) (id_ service_ : list ascii) (ctrl_port_ data_port_ : Z)
    (caps_ : option (list ascii)) : Z * instance * list (list ascii) :=
  if negb (initialized st) then (-1, st, [])
  else
    let stopped :=
      if announcing (core st) then pn_announce_stop st now stack_msg else (st, []) in
    let st1 := stopped.1 in
    let g := core st1 in
    let me :=
      mk_service (strncpy id_ (Z.to_nat (PN_MAX_ID_LEN - 1)))
        (strncpy service_ (Z.to_nat (PN_MAX_SERVICE_LEN - 1)))
        (strncpy (local_ip g) (Z.to_nat (PN_MAX_IP_LEN - 1)))
        ctrl_port_ data_port_
        (match caps_ with
         | Some c => strncpy c (Z.to_nat (PN_MAX_CAPS_LEN - 1))
         | None => caps (my_service g)
         end)
        (last_seen (my_service g)) (active (my_service g)) in
    let st2 (run : bool) :=
      mk_instance (initialized st1) (udp_port st1) (sock st1) run (listening st1)
        (listen_running st1)
        (mk_discovery run me (callback g) (services g) (local_ip g)) in
    if thread_ok then (0, st2 true, stopped.2) else (-1, st2 false, stopped.2).

(** [pn_listen(callback, userdata)]; [cb] tells whether the callback is
    not NULL, [thread_ok] whether the listen thread could be created. *)
Definition pn_listen (st : instance) (thread_ok : bool) (cb : bool) : Z * instance :=
  if negb (initialized st) then (-1, st)
  else if listening st then (0, st)
  else
    let g := core st in
    let g' := mk_discovery (announcing g) (my_service g) cb (services g) (local_ip g) in
    if thread_ok
    then (0, mk_instance (initialized st) (udp_port st) (sock st) (announce_running st)
               true true g')
    else (-1, mk_instance (initialized st) (udp_port st) (sock st) (announce_running st)
                false false g').

(** [pn_discovery_shutdown()] *)
Definition pn_discovery_shutdown (st : instance) (now : Z) (stack_msg : list ascii)
  : instance * list (list ascii) :=
  if negb (initialized st) then (st, [])
  else
    let stopped :=
      if announcing (core st) then pn_announce_stop st now stack_msg else (st, []) in
    let st1 := stopped.1 in
    let st2 :=
      if listening st1
      then mk_instance (initialized st1) (udp_port st1) (sock st1) (announce_running st1)
             false false (core st1)
      else st1 in
    (mk_instance false (udp_port st2) INVALID_SOCK (announce_running st2)
       (listening st2) (listen_running st2) (core st2),
     stopped.2).

(* ===================================================================== *)
(** ** The announce thread *)
(* ===================================================================== *)

(** What the announce thread does, in order: a call of
    [broadcast_message] with the bytes handed over, or [sleep_ms(1000)]. *)
Inductive thread_event :=
| Broadcast (bytes : list ascii)
| Sleep.

(** [for (i = 0; i < interval && g_discovery.announce_running; i++)
    sleep_ms(1000);] with [n] rounds to go. [flags] are the values the
    reads of [announce_running] find, in order. The result is the number
    of sleeps and the reads left, [None] when the reads end inside the
    loop. *)
Fixpoint sleep_loop (n : nat) (flags : list bool) : nat * option (list bool) :=
  match n with
  | O => (O, Some flags)
  | S n' =>
      match flags with
      | [] => (O, None)
      | f :: rest =>
          if f then let r := sleep_loop n' rest in (S r.1, r.2) else (O, Some rest)
      end
  end.

(** The [while] loop of [announce_thread_func], before round [S k].
    [rand k] is what the call of [rand()] in round [S k] returns, and
    [time k] what [time(NULL)] returns in the [k]-th call of
    [build_helo_message]. The trace ends where the reads end. *)
Fixpoint announce_loop (fuel : nat) (g : discovery) (rand time : nat -> Z) (k : nat)
    (msg : list ascii) (flags : list bool) : list thread_event :=
  match fuel with
  | O => []
  | S fuel' =>
      match flags with
      | [] => []
      | f :: flags1 =>
          if negb f then []
          else
            let interval := get_random_interval (rand k) in
            let s := sleep_loop (Z.to_nat interval) flags1 in
            replicate s.1 Sleep ++
            match s.2 with
            | None => []
            | Some [] => []
            | Some (f2 :: flags2) =>
                if negb f2 then []
                else
                  match build_helo_message g (time (S k)) msg PN_MAX_MSG_LEN with
                  | None => []
                  | Some (msg', len) =>
                      (if 0 <? len then [Broadcast (sent_bytes msg' len)] else [])
                      ++ announce_loop fuel' g rand time (S k) msg' flags2
                  end
            end
      end
  end.

(** [announce_thread_func]; [stack_msg] is what the array [msg] holds on
    entry. *)
Definition announce_thread_func (g : discovery) (rand time : nat -> Z)
    (stack_msg : list ascii) (flags : list bool) : list thread_event :=
  match build_helo_message g (time O) stack_msg PN_MAX_MSG_LEN with
  | None => []
  | Some (msg', len) =>
      (if 0 <? len then [Broadcast (sent_bytes msg' len)] else [])
      ++ announce_loop (length flags) g rand time O msg' flags
  end.

(** The number of calls of [broadcast_message] in a trace. *)
Fixpoint broadcasts (tr : list thread_event) : nat :=
  match tr with
  | [] => O
  | Broadcast _ :: rest => S (broadcasts rest)
  | Sleep :: rest => broadcasts rest
  end.

(** The trace of the loop from round [S k] on, when the flag is read [p]
    more times and reads true each time. A round takes one read at the
    [while], one read for each sleep of the interval drawn for it, and
    one read after the pause; then the presence message of that moment is
    broadcast. The trace ends inside a round only where the reads end. *)
Inductive rounds_ok (g : discovery) (rand time : nat -> Z)
  : nat -> nat -> list thread_event -> Prop :=
| rounds_end k p :
    (p <= Z.to_nat (get_random_interval (rand k)) + 1)%nat ->
    rounds_ok g rand time k p (replicate (p - 1) Sleep)
| rounds_more k p tr :
    (Z.to_nat (get_random_interval (rand k)) + 2 <= p)%nat ->
    rounds_ok g rand time (S k) (p - Z.to_nat (get_random_interval (rand k)) - 2) tr ->
    rounds_ok g rand time k p
      (replicate (Z.to_nat (get_random_interval (rand k))) Sleep
       ++ Broadcast (helo_text g (time (S k))) :: tr).

(* ===================================================================== *)
(** ** The interface as a whole *)
(* ===================================================================== *)

Definition set_core (st : instance) (g : discovery) : instance :=
  mk_instance (initialized st) (udp_port st) (sock st) (announce_running st)
    (listening st) (listen_running st) g.

(** What happens to [g_discovery] between its static initialisation and
    the end of the program: the calls of the application, and the
    datagrams the listen thread receives while it runs. Each carries what
    the call meets: the time, the stack array [msg], the answers of the
    system. *)
Inductive api_call :=
| Init (env : init_env) (port : Z)
| Announce (now : Z) (stack_msg : list ascii) (thread_ok : bool)
    (id_ service_ : list ascii) (ctrl_port_ data_port_ : Z) (caps_ : option (list ascii))
| AnnounceStop (now : Z) (stack_msg : list ascii)
| Listen (thread_ok cb : bool)
| Received (d : datagram)
| Shutdown (now : Z) (stack_msg : list ascii).

(** The arguments are what their C types say: strings without a NUL
    inside, [int] ports, and [msg] is an array of [PN_MAX_MSG_LEN] bytes. *)
Definition call_ok (c : api_call) : Prop :=
  match c with
  | Announce _ stack_msg _ id_ service_ ctrl_port_ data_port_ caps_ =>
      zlen stack_msg = PN_MAX_MSG_LEN /\
      no_char NUL id_ = true /\ no_char NUL service_ = true /\
      no_char NUL (default [] caps_) = true /\
      (INT_MIN <= ctrl_port_ <= INT_MAX) /\ (INT_MIN <= data_port_ <= INT_MAX)
  | AnnounceStop _ stack_msg => zlen stack_msg = PN_MAX_MSG_LEN
  | Shutdown _ stack_msg => zlen stack_msg = PN_MAX_MSG_LEN
  | _ => True
  end.

(** The state after one call and the messages it handed to
    [broadcast_message]; [None] is a store outside an array. *)
Definition api_step (st : instance) (c : api_call) : option (instance * list (list ascii)) :=
  match c with
  | Init env port =>
      match pn_discovery_init st env port with
      | Some (_, st') => Some (st', [])
      | None => None
      end
  | Announce now stack_msg thread_ok id_ service_ ctrl_port_ data_port_ caps_ =>
      let r := pn_announce st now stack_msg thread_ok id_ service_ ctrl_port_ data_port_ caps_ in
      Some (r.1.2, r.2)
  | AnnounceStop now stack_msg => Some (pn_announce_stop st now stack_msg)
  | Listen thread_ok cb => Some ((pn_listen st thread_ok cb).2, [])
  | Received d =>
      if listen_running st then Some (set_core st (listen_step (core st) d).1, [])
      else Some (st, [])
  | Shutdown now stack_msg => Some (pn_discovery_shutdown st now stack_msg)
  end.

Fixpoint api_run (st : instance) (calls : list api_call)
  : option (instance * list (list ascii)) :=
  match calls with
  | [] => Some (st, [])
  | c :: rest =>
      match api_step st c with
      | Some (st', sent) =>
          match api_run st' rest with
          | Some (st'', sent') => Some (st'', sent ++ sent')
          | None => None
          end
      | None => None
      end
  end.

(** What holds of [g_discovery] between the calls. *)
Definition lifecycle_inv (st : instance) : Prop :=
  self_fits (core st) /\
  length (services (core st)) = PN_MAX_SERVICES /\
  unique_ids (services (core st)) /\
  announce_running st = announcing (core st) /\
  listen_running st = listening st /\
  (initialized st = false -> announcing (core st) = false /\ listening st = false).

(** A message the interface hands to [broadcast_message]: the departure
    message of a well-formed descriptor. *)
Definition departure_text (m : list ascii) : Prop :=
  exists g now, self_fits g /\ m = bye_text g now.

(** A session: start, listen, announce, hear a peer, announce under
    another name, shut down. *)
Definition sample_env : init_env :=
  mk_init_env 3 true true
    (Some [mk_ifaddr (Some (true, INADDR_LOOPBACK)) false None;
           mk_ifaddr (Some (true, 0xC0A80105)) true (Some 0xC0A801FF)]).

Definition sample_stack_msg : list ascii := replicate (Z.to_nat PN_MAX_MSG_LEN) DQUOTE.

Definition sample_session : list api_call :=
  [ Init sample_env 0; Listen true true;
    Announce 1700000000 sample_stack_msg true (str "A1") (str "sdr_server") 4535 4536
      (Some (str "rsp2pro"));
    Received (mk_datagram (sample_helo (str "B2") (str "waterfall")) (str "10.0.0.7")
                1700000001 []);
    Announce 1700000002 sample_stack_msg true (str "A2") (str "sdr_server") 4535 0 None;
    Shutdown 1700000003 sample_stack_msg ].
(* ===================================================================== *)
(** ** Basic facts *)
(* ===================================================================== *)

Lemma streq_true a b : streq a b = true <-> a = b.
Proof. unfold streq. apply bool_decide_eq_true. Qed.

Lemma streq_false a b : streq a b = false <-> a <> b.
Proof. unfold streq. apply bool_decide_eq_false. Qed.

Lemma streq_refl a : streq a a = true.
Proof. by apply streq_true. Qed.

Lemma find_active_None l i :
  (length l <= PN_MAX_SERVICES)%nat ->
  (find_active l i = None <->
   forall k s, l !! k = Some s -> active s = true -> id s <> i).
Proof.
  intros Hl. unfold find_active. rewrite take_ge by done.
  rewrite list_find_None, Forall_lookup. split.
  - intros H k s Hk Ha Hi. apply (H k s Hk). done.
  - intros H k s Hk [Ha Hi]. by apply (H k s Hk).
Qed.

Lemma find_active_unknown g i : unknown_id g i -> find_active (services g) i = None.
Proof.
  intros H. unfold find_active. apply list_find_None, Forall_lookup.
  intros k s Hk [Ha Hi]. apply lookup_take_Some in Hk as [Hk _]. by apply (H k s).
Qed.

Lemma find_active_Some l i k s :
  find_active l i = Some (k, s) ->
  l !! k = Some s /\ active s = true /\ id s = i /\ (k < PN_MAX_SERVICES)%nat.
Proof.
  unfold find_active. intros H. apply list_find_Some in H as (Hk & [Ha Hi] & _).
  apply lookup_take_Some in Hk as [Hk Hlt]. done.
Qed.

Lemma find_free_full g : registry_full g -> find_free (services g) = None.
Proof.
  intros [_ H]. unfold find_free. apply list_find_None, Forall_lookup.
  intros k s Hk Ha. apply lookup_take_Some in Hk as [Hk _].
  rewrite Forall_lookup in H. specialize (H k s Hk). congruence.
Qed.

Lemma set_services_same g : set_services g (services g) = g.
Proof. by destruct g. Qed.

Lemma strncpy_fits s n : zlen s < n -> strncpy s (Z.to_nat (n - 1)) = s.
Proof. unfold zlen, strncpy. intros H. apply take_ge. lia. Qed.

Lemma json_get_string_fits json key maxlen v :
  0 < maxlen -> json_get_string json key maxlen = Some v -> zlen v < maxlen.
Proof.
  unfold json_get_string. intros Hm H.
  destruct (strstr _ _) as [start0|]; [|done].
  destruct (strchr _ _) as [end_|]; [|done].
  injection H as <-. unfold zlen. rewrite length_take.
  match goal with |- context [?a >=? ?b] => destruct (Z.geb_spec a b) end; lia.
Qed.

Lemma msg_ip_fits buf sender_ip : zlen (msg_ip buf sender_ip) < PN_MAX_IP_LEN.
Proof.
  unfold msg_ip. destruct (json_get_string _ _ _) as [v|] eqn:E.
  - by apply json_get_string_fits in E.
  - unfold strncpy, zlen. rewrite length_take. unfold PN_MAX_IP_LEN. lia.
Qed.


(** The record stored for a presence message: the strings read from the
    message fit their arrays, so [strncpy] copies them whole. *)
Lemma stored_record_eq now stack_caps buf sender_ip i svc :
  msg_id buf = Some i -> msg_svc buf = Some svc ->
  mk_service (strncpy i (Z.to_nat (PN_MAX_ID_LEN - 1)))
    (strncpy svc (Z.to_nat (PN_MAX_SERVICE_LEN - 1)))
    (strncpy (msg_ip buf sender_ip) (Z.to_nat (PN_MAX_IP_LEN - 1)))
    (msg_port buf) (msg_data buf)
    (strncpy (default stack_caps (msg_caps buf)) (Z.to_nat (PN_MAX_CAPS_LEN - 1)))
    (wrap_u32 now) true
  = stored_record now stack_caps buf sender_ip i svc.
Proof.
  intros Hi Hs. unfold stored_record.
  rewrite (strncpy_fits i), (strncpy_fits svc), (strncpy_fits (msg_ip buf sender_ip));
    [done|..].
  - apply msg_ip_fits.
  - by apply json_get_string_fits in Hs.
  - by apply json_get_string_fits in Hi.
Qed.

(** What [parse_message] does with a presence message that is not from
    this instance, in terms of the fields it reads. *)
Lemma parse_message_presence g now stack_caps buf sender_ip i svc :
  msg_tag buf = Some PN_MAGIC -> msg_cmd buf = Some (str "helo") ->
  msg_id buf = Some i -> msg_svc buf = Some svc -> is_self g i = false ->
  parse_message g now stack_caps buf sender_ip =
    let r := stored_record now stack_caps buf sender_ip i svc in
    let ev := Callback i svc (msg_ip buf sender_ip) (msg_port buf) (msg_data buf)
                (default stack_caps (msg_caps buf)) false in
    match find_active (services g) i with
    | Some (k, _) => (0, set_services g (<[k := r]> (services g)), [])
    | None =>
        match find_free (services g) with
        | Some (k, _) =>
            (0, set_services g (<[k := r]> (services g)), if callback g then [ev] else [])
        | None => (0, g, if callback g then [ev] else [])
        end
    end.
Proof.
  intros Ht Hc Hi Hs Hself. cbv zeta.
  rewrite <- (stored_record_eq now stack_caps buf sender_ip i svc Hi Hs).
  unfold msg_tag, msg_cmd, msg_id, msg_svc, is_self in *.
  unfold parse_message. rewrite Ht, Hc, Hi, Hs, Hself. rewrite !streq_refl. cbn [negb].
  unfold msg_caps, msg_ip, msg_port, msg_data.
  destruct (json_get_string buf (str "caps") PN_MAX_CAPS_LEN) as [c|];
    destruct (find_active (services g) i) as [[k s]|]; cbn [default]; try done;
    destruct (find_free (services g)) as [[k s]|]; cbn; try done;
    by rewrite set_services_same.
Qed.

(** What [parse_message] does with a departure message that is not from
    this instance. *)
Lemma parse_message_departure g now stack_caps buf sender_ip i :
  departure buf i -> is_self g i = false ->
  parse_message g now stack_caps buf sender_ip =
    match find_active (services g) i with
    | Some (k, s) =>
        (0,
         set_services g (<[k := set_active s false]> (services g)),
         if callback g && negb (streq (strncpy (service s) (Z.to_nat (PN_MAX_SERVICE_LEN - 1))) [])
         then [Callback i (strncpy (service s) (Z.to_nat (PN_MAX_SERVICE_LEN - 1)))
                 (strncpy (ip s) (Z.to_nat (PN_MAX_IP_LEN - 1))) (ctrl_port s) 0 [] true]
         else [])
    | None => (0, g, [])
    end.
Proof.
  unfold departure, msg_tag, msg_cmd, msg_id, is_self. intros (Ht & Hc & Hi) Hself.
  unfold parse_message. rewrite Ht, Hc, Hi, Hself. rewrite !streq_refl. cbn [negb].
  replace (streq (str "bye") (str "helo")) with false by reflexivity.
  by destruct (find_active (services g) i) as [[k s]|].
Qed.

(* ===================================================================== *)
(** ** Rejected and suppressed messages *)
(* ===================================================================== *)

Lemma starts_with_split n s :
  starts_with n s = true -> exists post, s = n ++ post.
Proof.
  revert s. induction n as [|a n IH]; intros s H; [by exists s|].
  destruct s as [|b s]; [done|]. cbn [starts_with] in H.
  apply andb_true_iff in H as [Hab H]. apply Ascii.eqb_eq in Hab as ->.
  destruct (IH s H) as [post ->]. by exists post.
Qed.

(** [strstr] returns a suffix of the text that starts with the needle. *)
Lemma strstr_Some hay needle s :
  strstr hay needle = Some s -> exists pre post, hay = pre ++ needle ++ post /\ s = needle ++ post.
Proof.
  induction hay as [|c hay IH]; cbn [strstr].
  - destruct (starts_with needle []) eqn:E; [|done]. intros [= <-].
    destruct (starts_with_split _ _ E) as [post Hp]. by exists [], post.
  - destruct (starts_with needle (c :: hay)) eqn:E.
    + intros [= <-]. destruct (starts_with_split _ _ E) as [post Hp]. by exists [], post.
    + intros H. destruct (IH H) as (pre & post & -> & ->). by exists (c :: pre), post.
Qed.

(** [strstr] fails only on a text without the needle. *)
Lemma strstr_nowhere hay needle :
  occurs_nowhere needle hay -> strstr hay needle = None.
Proof.
  intros H. destruct (strstr hay needle) as [s|] eqn:E; [|done].
  destruct (strstr_Some _ _ _ E) as (pre & post & Hh & _). by destruct (H pre post).
Qed.

Lemma msg_tag_missing buf : tag_missing buf -> msg_tag buf = None.
Proof.
  intros H. unfold msg_tag, json_get_string. by rewrite (strstr_nowhere _ _ H).
Qed.

(** C6. A presence message that carries this instance's own identity
    while it announces changes nothing: the state is the same and the
    callback is not invoked, whatever service type, ports and capabilities
    the message carries. *)
Theorem parse_message_self_suppressed g now stack_caps buf sender_ip :
  announcing g = true -> presence buf (id (my_service g)) ->
  parse_message g now stack_caps buf sender_ip = (0, g, []).
Proof.
  unfold presence, msg_tag, msg_cmd, msg_id. intros Ha (Ht & Hc & Hi & _).
  unfold parse_message. by rewrite Ht, Hc, Hi, Ha, !streq_refl.
Qed.

Lemma parse_message_self_suppressed_witness :
  let g := sample_state true (str "A1") (replicate PN_MAX_SERVICES zero_service) in
  let m := sample_helo (str "A1") (str "sdr_server") in
  announcing g = true /\ presence m (id (my_service g)) /\
  parse_message g 100 [] m (str "10.0.0.2") = (0, g, []).
Proof.
  cbv zeta. split; [reflexivity|].
  assert (H : presence (sample_helo (str "A1") (str "sdr_server")) (str "A1")).
  { repeat split; try (vm_compute; reflexivity). by eexists. }
  split; [exact H|].
  apply parse_message_self_suppressed; [reflexivity | exact H].
Defined.

(** C8. A departure message whose identity matches no active record
    changes no record and invokes no callback. *)
Theorem parse_message_bye_unknown g now stack_caps buf sender_ip i :
  departure buf i -> unknown_id g i ->
  parse_message g now stack_caps buf sender_ip = (0, g, []).
Proof.
  intros Hd Hu. destruct (is_self g i) eqn:Hself.
  - destruct Hd as (Ht & Hc & Hi). unfold msg_tag, msg_cmd, msg_id, is_self in *.
    unfold parse_message. by rewrite Ht, Hc, Hi, Hself, !streq_refl.
  - rewrite (parse_message_departure _ _ _ _ _ i) by done.
    by rewrite find_active_unknown.
Qed.

Lemma parse_message_bye_unknown_witness :
  let g := sample_state false [] one_peer_registry in
  let m := sample_bye PN_MAGIC (str "B2") in
  departure m (str "B2") /\ unknown_id g (str "B2") /\
  parse_message g 100 [] m (str "10.0.0.8") = (0, g, []).
Proof.
  cbv zeta.
  assert (Hd : departure (sample_bye PN_MAGIC (str "B2")) (str "B2")).
  { repeat split; vm_compute; reflexivity. }
  assert (Hu : unknown_id (sample_state false [] one_peer_registry) (str "B2")).
  { refine (proj1 (find_active_None _ _ _) _); [vm_compute; lia | vm_compute; reflexivity]. }
  split; [exact Hd|]. split; [exact Hu|].
  exact (parse_message_bye_unknown _ _ _ _ _ _ Hd Hu).
Defined.

(** C10 (as the code has it). A presence message with a valid tag, command
    and identity but no ["svc"] key never reaches the registry: the state
    is unchanged and the callback is not invoked. [parse_message] returns
    -1, except for a message from this instance itself, which the
    self-suppression check placed before the ["svc"] extraction answers
    with 0. *)
Theorem parse_message_helo_without_svc g now stack_caps buf sender_ip i :
  msg_tag buf = Some PN_MAGIC -> msg_cmd buf = Some (str "helo") ->
  msg_id buf = Some i -> msg_svc buf = None ->
  parse_message g now stack_caps buf sender_ip =
    (if is_self g i then 0 else -1, g, []).
Proof.
  unfold msg_tag, msg_cmd, msg_id, msg_svc, is_self. intros Ht Hc Hi Hs.
  unfold parse_message. rewrite Ht, Hc, Hi, Hs, !streq_refl. cbn [negb].
  by destruct (announcing g && streq i (id (my_service g))).
Qed.

Lemma parse_message_helo_without_svc_witness :
  let g := sample_state false [] one_peer_registry in
  let m := sample_helo_no_svc (str "B2") in
  msg_tag m = Some PN_MAGIC /\ msg_cmd m = Some (str "helo") /\
  msg_id m = Some (str "B2") /\ msg_svc m = None /\
  parse_message g 100 [] m (str "10.0.0.8") = (-1, g, []).
Proof.
  cbv zeta. do 4 (split; [vm_compute; reflexivity|]).
  rewrite (parse_message_helo_without_svc _ _ _ _ _ (str "B2")) by (vm_compute; reflexivity).
  reflexivity.
Defined.

(** C10, counterexample to the claim as stated: while announcing as
    ["A1"], a presence message of identity ["A1"] without a service type
    is answered with 0, not with an error. *)
Lemma helo_without_svc_from_self_is_not_an_error :
  let g := sample_state true (str "A1") one_peer_registry in
  let m := sample_helo_no_svc (str "A1") in
  msg_tag m = Some PN_MAGIC /\ msg_cmd m = Some (str "helo") /\
  msg_id m = Some (str "A1") /\ msg_svc m = None /\
  (parse_message g 100 [] m (str "10.0.0.2")).1.1 <> -1.
Proof.
  cbv zeta. repeat split; try (vm_compute; reflexivity).
  vm_compute. discriminate.
Qed.

(* ===================================================================== *)
(** ** Presence at capacity, departure of a known peer *)
(* ===================================================================== *)

(** A presence message of an unknown identity that finds every slot
    active: the registry is left as it is and 0 is returned, but [is_new]
    was set before the search for a free slot, so a registered callback
    is invoked all the same. *)
Lemma parse_message_registry_full g now stack_caps buf sender_ip i svc :
  registry_full g -> msg_tag buf = Some PN_MAGIC -> msg_cmd buf = Some (str "helo") ->
  msg_id buf = Some i -> msg_svc buf = Some svc -> is_self g i = false ->
  unknown_id g i ->
  parse_message g now stack_caps buf sender_ip =
    (0, g,
     if callback g
     then [Callback i svc (msg_ip buf sender_ip) (msg_port buf) (msg_data buf)
             (default stack_caps (msg_caps buf)) false]
     else []).
Proof.
  intros Hfull Ht Hc Hi Hs Hself Hu.
  rewrite (parse_message_presence _ _ _ _ _ i svc) by done. cbv zeta.
  by rewrite find_active_unknown, find_free_full.
Qed.

(** C1, the code at a registry at capacity. With all 32 slots active and
    a callback registered, a presence message of the new identity ["Z9"]
    leaves the registry and the count of 32 as they are and returns 0, and
    the callback is invoked although no record was stored. *)
Theorem registry_at_capacity_still_invokes_callback :
  let g := sample_state false [] full_registry in
  let m := sample_helo (str "Z9") (str "waterfall") in
  registry_full g /\ presence m (str "Z9") /\ unknown_id g (str "Z9") /\
  pn_get_service_count g = 32 /\
  parse_message g 100 [] m (str "10.0.0.9") =
    (0, g, [Callback (str "Z9") (str "waterfall") (str "10.0.0.9") 0 0 [] false]).
Proof.
  cbv zeta. split; [|split; [|split; [|split]]].
  - split; [reflexivity|]. vm_compute. repeat constructor.
  - repeat split; try (vm_compute; reflexivity). by eexists.
  - refine (proj1 (find_active_None _ _ _) _); [vm_compute; lia | vm_compute; reflexivity].
  - vm_compute. reflexivity.
  - vm_compute. reflexivity.
Qed.





(* ===================================================================== *)
(** ** Snapshot of the registry *)
(* ===================================================================== *)

Lemma get_services_loop_spec slots out max_count :
  get_services_loop slots out max_count =
    out ++ take (Z.to_nat max_count - length out)
             (filter (fun s => active s = true) slots).
Proof.
  revert out. induction slots as [|s rest IH]; intros out; cbn [get_services_loop].
  - by rewrite filter_nil, take_nil, app_nil_r.
  - destruct (Z.ltb_spec (Z.of_nat (length out)) max_count) as [Hlt|Hge].
    + rewrite IH. destruct (active s) eqn:Ha.
      * rewrite filter_cons_True by done. rewrite length_app. cbn [length].
        replace (Z.to_nat max_count - length out)%nat
          with (S (Z.to_nat max_count - (length out + 1)))%nat by lia.
        cbn [take]. by rewrite <- app_assoc.
      * rewrite filter_cons_False; [done|]. congruence.
    + replace (Z.to_nat max_count - length out)%nat with 0%nat by lia.
      by rewrite take_0, app_nil_r.
Qed.

(** C9. For a non-negative [max_count], [pn_get_services] returns at most
    [max_count] entries; the entries are the first active records of the
    registry, copied in slot order, so each of them is active. *)
Theorem pn_get_services_spec g max_count :
  0 <= max_count ->
  let count := (pn_get_services g max_count).1 in
  let out := (pn_get_services g max_count).2 in
  count <= max_count /\ count = Z.of_nat (length out) /\
  out = take (Z.to_nat max_count)
          (filter (fun s => active s = true) (take PN_MAX_SERVICES (services g))) /\
  Forall (fun s => active s = true) out /\
  out `sublist_of` services g.
Proof.
  intros Hm. cbv zeta. unfold pn_get_services. cbn [fst snd].
  rewrite get_services_loop_spec. cbn [app length]. rewrite Nat.sub_0_r.
  split; [|split; [done|split; [done|split]]].
  - rewrite length_take. lia.
  - apply Forall_forall. intros s Hs.
    apply elem_of_take in Hs as (k & Hk & _).
    apply list_elem_of_lookup_2 in Hk. by apply list_elem_of_filter in Hk as [? _].
  - etrans; [apply sublist_take|]. etrans; [apply sublist_filter|]. apply sublist_take.
Qed.

Lemma pn_get_services_spec_witness :
  let g := sample_state false [] (zero_service :: full_registry) in
  0 <= 2 /\
  (pn_get_services g 2).1 <= 2 /\
  (pn_get_services g 2).1 = Z.of_nat (length (pn_get_services g 2).2) /\
  (pn_get_services g 2).2 =
    take (Z.to_nat 2)
      (filter (fun s => active s = true) (take PN_MAX_SERVICES (services g))) /\
  Forall (fun s => active s = true) (pn_get_services g 2).2 /\
  (pn_get_services g 2).2 `sublist_of` services g.
Proof.
  cbv zeta. split; [lia|].
  apply (pn_get_services_spec (sample_state false [] (zero_service :: full_registry)) 2).
  lia.
Defined.

(* ===================================================================== *)
(** ** One record per identity *)
(* ===================================================================== *)

Lemma unique_ids_insert_same l k s0 r :
  l !! k = Some s0 -> active s0 = true -> id r = id s0 ->
  unique_ids l -> unique_ids (<[k := r]> l).
Proof.
  intros Hk Ha Hid Hu j k' s t Hj Hk' Has Hat Hst.
  assert (Hlt : (k < length l)%nat) by by eapply lookup_lt_Some.
  destruct (decide (j = k)) as [->|Hjk], (decide (k' = k)) as [->|Hkk]; [done|..].
  - rewrite list_lookup_insert_eq in Hj by done. injection Hj as <-.
    rewrite list_lookup_insert_ne in Hk' by done.
    apply (Hu k k' s0 t); congruence.
  - rewrite list_lookup_insert_eq in Hk' by done. injection Hk' as <-.
    rewrite list_lookup_insert_ne in Hj by done.
    apply (Hu j k s s0); congruence.
  - rewrite list_lookup_insert_ne in Hj, Hk' by done. by apply (Hu j k' s t).
Qed.

Lemma unique_ids_insert_fresh l k r :
  (forall j s, l !! j = Some s -> active s = true -> id s <> id r) ->
  unique_ids l -> unique_ids (<[k := r]> l).
Proof.
  intros Hfresh Hu j k' s t Hj Hk' Has Hat Hst.
  destruct (decide (j = k')) as [|Hne]; [done|]. exfalso.
  apply list_lookup_insert_Some in Hj as [(-> & <- & _)|[Hjk Hj]];
    apply list_lookup_insert_Some in Hk' as [(-> & <- & _)|[Hkk Hk']].
  - done.
  - by apply (Hfresh k' t).
  - by apply (Hfresh j s).
  - apply Hne. by apply (Hu j k' s t).
Qed.

Lemma unique_ids_insert_inactive l k r :
  active r = false -> unique_ids l -> unique_ids (<[k := r]> l).
Proof.
  intros Hr Hu j k' s t Hj Hk' Has Hat Hst.
  apply list_lookup_insert_Some in Hj as [(-> & <- & _)|[Hjk Hj]]; [congruence|].
  apply list_lookup_insert_Some in Hk' as [(-> & <- & _)|[Hkk Hk']]; [congruence|].
  by apply (Hu j k' s t).
Qed.

(** Every effect [parse_message] can have on the state: none, a record
    refreshed in place, a record stored in a free slot, or a record
    marked inactive. *)
Lemma parse_message_effect g now stack_caps buf sender_ip :
  let g' := (parse_message g now stack_caps buf sender_ip).1.2 in
  g' = g \/
  (exists i svc k s0,
      msg_id buf = Some i /\ msg_svc buf = Some svc /\ is_self g i = false /\
      msg_cmd buf = Some (str "helo") /\
      (find_active (services g) i = Some (k, s0) \/
       find_active (services g) i = None /\ find_free (services g) = Some (k, s0)) /\
      g' = set_services g
             (<[k := stored_record now stack_caps buf sender_ip i svc]> (services g))) \/
  (exists i k s0,
      find_active (services g) i = Some (k, s0) /\
      g' = set_services g (<[k := set_active s0 false]> (services g))).
Proof.
  cbv zeta. unfold parse_message.
  destruct (json_get_string buf (str "m") 8) as [magic|] eqn:Ht; [|by left].
  destruct (streq magic PN_MAGIC) eqn:Hm; [|by left]. cbn [negb].
  destruct (json_get_string buf (str "cmd") 16) as [cmd|] eqn:Hc; [|by left].
  destruct (json_get_string buf (str "id") PN_MAX_ID_LEN) as [i|] eqn:Hi; [|by left].
  destruct (announcing g && streq i (id (my_service g))) eqn:Hself; [by left|].
  destruct (streq cmd (str "helo")) eqn:Hhelo.
  - apply streq_true in Hhelo as ->.
    destruct (json_get_string buf (str "svc") PN_MAX_SERVICE_LEN) as [svc|] eqn:Hs; [|by left].
    fold (msg_ip buf sender_ip) (msg_port buf) (msg_data buf).
    change (match json_get_string buf (str "caps") PN_MAX_CAPS_LEN with
            | Some v => v | None => stack_caps end)
      with (default stack_caps (msg_caps buf)).
    cbn [fst snd]. rewrite (stored_record_eq now stack_caps buf sender_ip i svc Hi Hs).
    destruct (find_active (services g) i) as [[k s0]|] eqn:Hf.
    + right; left. exists i, svc, k, s0. repeat split; try done. by left.
    + destruct (find_free (services g)) as [[k s0]|] eqn:Hfree; cbn [fmap option_fmap option_map fst].
      * right; left. exists i, svc, k, s0. repeat split; try done. by right.
      * left. apply set_services_same.
  - destruct (streq cmd (str "bye")); [|by left].
    destruct (find_active (services g) i) as [[k s0]|] eqn:Hf; [|by left].
    right; right. by exists i, k, s0.
Qed.

Lemma parse_message_length g now stack_caps buf sender_ip :
  length (services (parse_message g now stack_caps buf sender_ip).1.2) = length (services g).
Proof.
  destruct (parse_message_effect g now stack_caps buf sender_ip)
    as [->|[(i & svc & k & s0 & _ & _ & _ & _ & _ & ->)|(i & k & s0 & _ & ->)]];
    [done|..]; cbn; apply length_insert.
Qed.

Lemma parse_message_is_self g now stack_caps buf sender_ip j :
  is_self (parse_message g now stack_caps buf sender_ip).1.2 j = is_self g j.
Proof.
  destruct (parse_message_effect g now stack_caps buf sender_ip)
    as [->|[(i & svc & k & s0 & _ & _ & _ & _ & _ & ->)|(i & k & s0 & _ & ->)]]; done.
Qed.

(** [parse_message] keeps the identities of the active records distinct,
    whatever the message. *)
Lemma parse_message_unique_ids g now stack_caps buf sender_ip :
  length (services g) = PN_MAX_SERVICES -> unique_ids (services g) ->
  unique_ids (services (parse_message g now stack_caps buf sender_ip).1.2).
Proof.
  intros Hlen Hu.
  destruct (parse_message_effect g now stack_caps buf sender_ip)
    as [->|[(i & svc & k & s0 & _ & _ & _ & _ & Hcase & ->)|(i & k & s0 & Hf & ->)]];
    [done|..]; cbn [services set_services].
  - destruct Hcase as [Hf|[Hf Hfree]].
    + apply find_active_Some in Hf as (Hk & Ha & Hid & _).
      by apply (unique_ids_insert_same _ _ s0).
    + apply unique_ids_insert_fresh; [|done].
      apply find_active_None; [lia|done].
  - by apply unique_ids_insert_inactive.
Qed.

Lemma find_free_Some l k s :
  find_free l = Some (k, s) ->
  l !! k = Some s /\ active s = false /\ (k < PN_MAX_SERVICES)%nat.
Proof.
  unfold find_free. intros H. apply list_find_Some in H as (Hk & Ha & _).
  apply lookup_take_Some in Hk as [Hk Hlt]. done.
Qed.

Lemma find_free_None l :
  (length l <= PN_MAX_SERVICES)%nat -> find_free l = None ->
  forall k s, l !! k = Some s -> active s = true.
Proof.
  unfold find_free. intros Hl H k s Hk. rewrite take_ge in H by done.
  rewrite list_find_None, Forall_lookup in H. specialize (H k s Hk).
  by destruct (active s).
Qed.

(** A presence message that finds room leaves its record in the registry. *)
Lemma parse_message_presence_stored g now stack_caps buf sender_ip i svc :
  length (services g) = PN_MAX_SERVICES ->
  msg_tag buf = Some PN_MAGIC -> msg_cmd buf = Some (str "helo") ->
  msg_id buf = Some i -> msg_svc buf = Some svc -> is_self g i = false ->
  has_room g i ->
  exists k, services (parse_message g now stack_caps buf sender_ip).1.2 !! k
            = Some (stored_record now stack_caps buf sender_ip i svc).
Proof.
  intros Hlen Ht Hc Hi Hs Hself (k0 & s0 & Hk0 & Hroom).
  rewrite (parse_message_presence _ _ _ _ _ i svc) by done. cbv zeta.
  destruct (find_active (services g) i) as [[k s1]|] eqn:Hf.
  - apply find_active_Some in Hf as (Hk & _). exists k. cbn.
    apply list_lookup_insert_eq. by eapply lookup_lt_Some.
  - destruct (find_free (services g)) as [[k s1]|] eqn:Hfree.
    + apply find_free_Some in Hfree as (Hk & _). exists k. cbn.
      apply list_lookup_insert_eq. by eapply lookup_lt_Some.
    + exfalso. assert (Ha : active s0 = true).
      { apply (find_free_None (services g)) with k0; [lia|done..]. }
      refine (proj1 (find_active_None (services g) i _) Hf k0 s0 Hk0 Ha (Hroom Ha)). lia.
Qed.

Lemma listen_step_presence g d i :
  presence (dg_text d) i ->
  listen_step g d =
    ((parse_message g (dg_time d) (dg_stack_caps d) (dg_text d) (dg_sender d)).1.2,
     (parse_message g (dg_time d) (dg_stack_caps d) (dg_text d) (dg_sender d)).2).
Proof.
  intros (Ht & _). unfold listen_step.
  destruct (Z.ltb_spec 0 (Z.min (zlen (dg_bytes d)) (PN_MAX_MSG_LEN - 1))) as [|Hle]; [done|].
  exfalso. unfold dg_text in Ht. destruct (dg_bytes d) as [|c t].
  - by rewrite take_nil in Ht.
  - unfold zlen, PN_MAX_MSG_LEN in Hle. cbn [length] in Hle. lia.
Qed.

Lemma listen_step_inv g d :
  length (services g) = PN_MAX_SERVICES -> unique_ids (services g) ->
  length (services (listen_step g d).1) = PN_MAX_SERVICES /\
  unique_ids (services (listen_step g d).1) /\
  forall j, is_self (listen_step g d).1 j = is_self g j.
Proof.
  intros Hlen Hu. unfold listen_step.
  destruct (0 <? Z.min (zlen (dg_bytes d)) (PN_MAX_MSG_LEN - 1)); cbn [fst]; [|done].
  split; [by rewrite parse_message_length|].
  split; [by apply parse_message_unique_ids|].
  intros j. apply parse_message_is_self.
Qed.

Lemma listen_run_inv g ds :
  length (services g) = PN_MAX_SERVICES -> unique_ids (services g) ->
  length (services (listen_run g ds).1) = PN_MAX_SERVICES /\
  unique_ids (services (listen_run g ds).1) /\
  forall j, is_self (listen_run g ds).1 j = is_self g j.
Proof.
  revert g. induction ds as [|d ds IH]; intros g Hlen Hu; [done|].
  cbn [listen_run fst].
  destruct (listen_step_inv g d Hlen Hu) as (Hlen' & Hu' & Hself').
  destruct (IH _ Hlen' Hu') as (Hlen'' & Hu'' & Hself'').
  repeat split; try done. intros j. by rewrite Hself''.
Qed.

Lemma unique_ids_zero n : unique_ids (replicate n zero_service).
Proof.
  intros j k s t Hj _ Hs. apply lookup_replicate in Hj as [-> _]. done.
Qed.

(** Whatever a listener that started with the zeroed registry receives,
    its registry has [PN_MAX_SERVICES] slots and distinct active
    identities. *)
Lemma listen_from_start g ds :
  services g = replicate PN_MAX_SERVICES zero_service ->
  length (services (listen_run g ds).1) = PN_MAX_SERVICES /\
  unique_ids (services (listen_run g ds).1).
Proof.
  intros Hg. destruct (listen_run_inv g ds) as (Hlen & Hu & _).
  - rewrite Hg. apply length_replicate.
  - rewrite Hg. apply unique_ids_zero.
  - done.
Qed.

Lemma listen_run_app g ds1 ds2 :
  (listen_run g (ds1 ++ ds2)).1 = (listen_run (listen_run g ds1).1 ds2).1.
Proof.
  revert g. induction ds1 as [|d ds1 IH]; intros g; [done|].
  cbn [listen_run app fst]. apply IH.
Qed.

(** A presence message that finds room is in the registry after the step,
    and the identity still has room afterwards. *)
Lemma listen_step_presence_stored g d i :
  length (services g) = PN_MAX_SERVICES -> is_self g i = false -> has_room g i ->
  presence (dg_text d) i ->
  exists k svc,
    msg_svc (dg_text d) = Some svc /\
    services (listen_step g d).1 !! k
      = Some (stored_record (dg_time d) (dg_stack_caps d) (dg_text d) (dg_sender d) i svc).
Proof.
  intros Hlen Hself Hroom Hp. rewrite (listen_step_presence g d i Hp). cbn [fst].
  destruct Hp as (Ht & Hc & Hi & [svc Hs]).
  destruct (parse_message_presence_stored g (dg_time d) (dg_stack_caps d) (dg_text d)
              (dg_sender d) i svc) as [k Hk]; try done.
  exists k, svc. done.
Qed.

Lemma has_room_stored g k now stack_caps buf sender_ip i svc :
  services g !! k = Some (stored_record now stack_caps buf sender_ip i svc) ->
  has_room g i.
Proof. intros Hk. by exists k, (stored_record now stack_caps buf sender_ip i svc). Qed.

Lemma listen_run_has_room g ds i :
  length (services g) = PN_MAX_SERVICES -> unique_ids (services g) ->
  is_self g i = false -> has_room g i ->
  Forall (fun d => presence (dg_text d) i) ds ->
  has_room (listen_run g ds).1 i.
Proof.
  revert g. induction ds as [|d ds IH]; intros g Hlen Hu Hself Hroom Hall; [done|].
  apply Forall_cons in Hall as [Hp Hall]. cbn [listen_run fst].
  destruct (listen_step_inv g d Hlen Hu) as (Hlen' & Hu' & Hself').
  destruct (listen_step_presence_stored g d i) as (k & svc & _ & Hk); try done.
  apply IH; try done.
  - by rewrite Hself'.
  - by eapply has_room_stored.
Qed.

(* ===================================================================== *)
(** ** A sequence of presence messages of one identity *)
(* ===================================================================== *)

(** C3 (as the code has it). Let the registry hold distinct active
    identities, and let identity [i], which is not this instance's own
    announced identity, have room: a free slot or its own active record.
    After a non-empty sequence of presence messages of identity [i] the
    registry holds exactly one active record of [i], whose service type,
    address and ports are those read from the last message, and whose
    capabilities are those of the last message when it carries any. After
    every prefix of the sequence the active identities are distinct. *)
Theorem same_identity_presence_sequence g ds d i :
  length (services g) = PN_MAX_SERVICES -> unique_ids (services g) ->
  is_self g i = false -> has_room g i ->
  Forall (fun d => presence (dg_text d) i) (ds ++ [d]) ->
  let g' := (listen_run g (ds ++ [d])).1 in
  (exists k s,
     services g' !! k = Some s /\ active s = true /\ id s = i /\
     (forall k' s', services g' !! k' = Some s' -> active s' = true -> id s' = i -> k' = k) /\
     msg_svc (dg_text d) = Some (service s) /\
     ip s = msg_ip (dg_text d) (dg_sender d) /\
     ctrl_port s = msg_port (dg_text d) /\
     data_port s = msg_data (dg_text d) /\
     (forall c, msg_caps (dg_text d) = Some c -> caps s = c)) /\
  (forall n, unique_ids (services (listen_run g (take n (ds ++ [d]))).1)).
Proof.
  intros Hlen Hu Hself Hroom Hall. cbv zeta. split.
  - apply Forall_app in Hall as [Hds Hd]. rewrite Forall_singleton in Hd.
    destruct (listen_run_inv g ds Hlen Hu) as (Hlen1 & Hu1 & Hself1).
    pose proof (listen_run_has_room g ds i Hlen Hu Hself Hroom Hds) as Hroom1.
    rewrite listen_run_app. set (g1 := (listen_run g ds).1) in *.
    cbn [listen_run fst].
    destruct (listen_step_inv g1 d Hlen1 Hu1) as (_ & Hu2 & _).
    assert (Hself2 : is_self g1 i = false) by by rewrite Hself1.
    destruct (listen_step_presence_stored g1 d i Hlen1 Hself2 Hroom1 Hd) as (k & svc & Hs & Hk).
    exists k, (stored_record (dg_time d) (dg_stack_caps d) (dg_text d) (dg_sender d) i svc).
    repeat split; try done.
    + intros k' s' Hk' Ha' Hi'. by apply (Hu2 _ _ _ _ Hk' Hk).
    + intros c Hc. cbn. rewrite Hc. cbn. apply strncpy_fits.
      by apply json_get_string_fits in Hc.
  - intros n. by apply listen_run_inv.
Qed.

Lemma unique_ids_one_peer s n : unique_ids (s :: replicate n zero_service).
Proof.
  intros j k a b Hj Hk Ha Hb _.
  destruct j as [|j].
  - destruct k as [|k]; [done|]. cbn in Hk. apply lookup_replicate in Hk as [-> _]. done.
  - cbn in Hj. apply lookup_replicate in Hj as [-> _]. done.
Qed.

Lemma same_identity_presence_sequence_witness :
  let g := sample_state false [] one_peer_registry in
  let d1 := mk_datagram (sample_helo (str "A1") (str "waterfall")) (str "10.0.0.7") 100 [] in
  let d2 := mk_datagram (sample_helo (str "A1") (str "detector")) (str "10.0.0.8") 101 [] in
  let i := str "A1" in
  let g' := (listen_run g ([d1] ++ [d2])).1 in
  length (services g) = PN_MAX_SERVICES /\ unique_ids (services g) /\
  is_self g i = false /\ has_room g i /\
  Forall (fun d => presence (dg_text d) i) ([d1] ++ [d2]) /\
  (exists k s,
     services g' !! k = Some s /\ active s = true /\ id s = i /\
     (forall k' s', services g' !! k' = Some s' -> active s' = true -> id s' = i -> k' = k) /\
     msg_svc (dg_text d2) = Some (service s) /\
     ip s = msg_ip (dg_text d2) (dg_sender d2) /\
     ctrl_port s = msg_port (dg_text d2) /\
     data_port s = msg_data (dg_text d2) /\
     (forall c, msg_caps (dg_text d2) = Some c -> caps s = c)) /\
  (forall n, unique_ids (services (listen_run g (take n ([d1] ++ [d2]))).1)).
Proof.
  cbv zeta.
  assert (H1 : length (services (sample_state false [] one_peer_registry)) = PN_MAX_SERVICES)
    by reflexivity.
  assert (H2 : unique_ids (services (sample_state false [] one_peer_registry)))
    by apply unique_ids_one_peer.
  assert (H3 : has_room (sample_state false [] one_peer_registry) (str "A1")).
  { exists 0%nat, (sample_peer (str "A1")). split; reflexivity. }
  assert (H4 : Forall (fun d => presence (dg_text d) (str "A1"))
                 ([mk_datagram (sample_helo (str "A1") (str "waterfall")) (str "10.0.0.7") 100 []]
                  ++ [mk_datagram (sample_helo (str "A1") (str "detector")) (str "10.0.0.8") 101 []])).
  { repeat constructor; try (vm_compute; reflexivity); by eexists. }
  split; [exact H1|]. split; [exact H2|]. split; [reflexivity|].
  split; [exact H3|]. split; [exact H4|].
  exact (same_identity_presence_sequence _ _ _ _ H1 H2 eq_refl H3 H4).
Defined.

(** C3, counterexample to the claim as stated: with all 32 slots held by
    other identities, a presence message of identity ["Z9"] leaves no
    active record of ["Z9"]. *)
Lemma presence_at_capacity_leaves_no_record :
  let g := sample_state false [] full_registry in
  let d := mk_datagram (sample_helo (str "Z9") (str "waterfall")) (str "10.0.0.9") 100 [] in
  presence (dg_text d) (str "Z9") /\ is_self g (str "Z9") = false /\
  unique_ids (services g) /\
  pn_find_service_by_id (listen_run g [d]).1 (str "Z9") = None.
Proof.
  cbv zeta. split; [|split; [reflexivity|split]].
  - repeat split; try (vm_compute; reflexivity). by eexists.
  - intros j k s t Hj Hk _ _ Hid.
    unfold sample_state, services, full_registry in Hj, Hk.
    apply list_lookup_fmap_Some in Hj as (a & -> & Ha).
    apply list_lookup_fmap_Some in Hk as (b & -> & Hb).
    apply lookup_seq in Ha as [-> _]. apply lookup_seq in Hb as [-> _].
    cbn in Hid. injection Hid as Hid. apply (f_equal length) in Hid.
    rewrite !length_replicate in Hid. lia.
  - vm_compute. reflexivity.
Qed.

(* ===================================================================== *)
(** ** The encoder stays inside its buffer *)
(* ===================================================================== *)

Lemma or_fail_ext (a : enc) (k k' : list ascii -> Z -> enc) :
  (forall b p, 0 <= p -> k b p = k' b p) -> or_fail a k = or_fail a k'.
Proof.
  intros H. destruct a as [[b p]|]; [|done]. cbn.
  destruct (Z.ltb_spec p 0); [done|]. by apply H.
Qed.

Lemma or_fail_ret b p (k : list ascii -> Z -> enc) :
  0 <= p -> or_fail (Some (b, p)) k = k b p.
Proof. intros H. cbn. destruct (Z.ltb_spec p 0); [lia|done]. Qed.

Lemma build_helo_message_chain g now buf maxlen :
  build_helo_message g now buf maxlen =
    match store_bytes buf 0 [LBRACE] with
    | None => None
    | Some b =>
        append_all b 1 maxlen (fmt_items (helo_items g now))
          (fun b p => close_message b p maxlen)
    end.
Proof.
  unfold build_helo_message. destruct (store_bytes buf 0 [LBRACE]) as [b|]; [|done].
  unfold helo_items.
  destruct (data_port (my_service g) >? 0), (negb (streq (caps (my_service g)) []));
    cbn [app fmt_items map append_all];
    do 7 (apply or_fail_ext; intros ? ? ?);
    rewrite ?or_fail_ret by done; try reflexivity;
    apply or_fail_ext; intros ? ? ?; rewrite ?or_fail_ret by done; reflexivity.
Qed.

Lemma build_bye_message_chain g now buf maxlen :
  build_bye_message g now buf maxlen =
    match store_bytes buf 0 [LBRACE] with
    | None => None
    | Some b =>
        append_all b 1 maxlen (fmt_items (bye_items g now))
          (fun b p => close_message b p maxlen)
    end.
Proof. reflexivity. Qed.

Lemma store_bytes_ok buf pos bytes :
  0 <= pos -> pos + zlen bytes <= zlen buf ->
  store_bytes buf pos bytes =
    Some (take (Z.to_nat pos) buf ++ bytes ++ drop (Z.to_nat pos + length bytes) buf).
Proof.
  intros H0 H1. unfold store_bytes.
  destruct (Z.leb_spec 0 pos); [|lia].
  destruct (Z.leb_spec (pos + zlen bytes) (zlen buf)); [done|lia].
Qed.

Lemma stored_length (buf : list ascii) p bytes :
  (p + length bytes <= length buf)%nat ->
  length (take p buf ++ bytes ++ drop (p + length bytes) buf) = length buf.
Proof. intros H. rewrite !length_app, length_take, length_drop. lia. Qed.

Lemma stored_prefix (buf : list ascii) p bytes rest :
  (p <= length buf)%nat ->
  take (p + length bytes) (take p buf ++ bytes ++ rest) = take p buf ++ bytes.
Proof.
  intros H. rewrite take_app_add' by (rewrite length_take; lia).
  by rewrite take_app_length.
Qed.

(** One append: no store outside the buffer; the position advances by the
    length of the text when the text and its NUL fit, and is -1 otherwise. *)
Lemma append_text_spec buf pos maxlen text :
  zlen buf = maxlen -> maxlen <= INT_MAX -> 0 <= pos <= maxlen -> text <> [] ->
  exists buf',
    append_text buf pos maxlen text
      = Some (buf', if pos + zlen text <? maxlen then pos + zlen text else -1) /\
    zlen buf' = maxlen /\
    (pos + zlen text < maxlen ->
     take (Z.to_nat pos + length text) buf' = take (Z.to_nat pos) buf ++ text).
Proof.
  intros Hlen Hmax Hpos Hne. unfold append_text, snprintf, to_size_t.
  assert (Htext : 0 < zlen text).
  { unfold zlen. destruct text; [done|]. cbn [length]. lia. }
  rewrite Z.mod_small by (unfold INT_MAX in Hmax; lia).
  destruct (Z.eqb_spec (maxlen - pos) 0) as [E|E].
  - exists buf. split; [|split; [done|lia]].
    destruct (Z.ltb_spec 0 (zlen text)); [|lia].
    destruct (Z.ltb_spec (pos + zlen text) maxlen); [lia|done].
  - set (k := Z.min (zlen text) (maxlen - pos - 1)).
    assert (Hk : 0 <= k <= zlen text) by lia.
    assert (Hlk : length (take (Z.to_nat k) text ++ [NUL]) = S (Z.to_nat k)).
    { rewrite length_app, length_take. unfold zlen in Hk. cbn [length]. lia. }
    rewrite store_bytes_ok; [|lia|unfold zlen in *; rewrite Hlk; lia].
    eexists. split; [|split].
    + destruct (Z.ltb_spec 0 (zlen text)); [|lia]. reflexivity.
    + unfold zlen in *. rewrite stored_length; [exact Hlen|]. rewrite Hlk. lia.
    + intros Hfit. replace (Z.to_nat k) with (length text) by (unfold zlen in *; lia).
      rewrite (take_ge text) by lia. rewrite <- (app_assoc text [NUL]).
      apply stored_prefix. unfold zlen in *. lia.
Qed.

Lemma append_all_spec maxlen texts : forall buf pos k,
  zlen buf = maxlen -> maxlen <= INT_MAX -> 0 <= pos <= maxlen ->
  (pos < maxlen \/ texts <> []) ->
  Forall (fun t => t <> []) texts ->
  exists buf',
    zlen buf' = maxlen /\
    append_all buf pos maxlen texts k =
      (if pos + zlen (concat texts) <? maxlen
       then k buf' (pos + zlen (concat texts))
       else Some (buf', -1)) /\
    (pos + zlen (concat texts) < maxlen ->
     take (Z.to_nat pos + length (concat texts)) buf' = take (Z.to_nat pos) buf ++ concat texts).
Proof.
  induction texts as [|t ts IH]; intros buf pos k Hlen Hmax Hpos Hroom Hne.
  - exists buf. cbn [concat append_all]. unfold zlen at 2 3. cbn [length].
    rewrite Z.add_0_r, Nat.add_0_r, app_nil_r.
    destruct Hroom as [Hlt|]; [|done].
    destruct (Z.ltb_spec pos maxlen); [done|lia].
  - apply Forall_cons in Hne as [Ht Hts]. cbn [concat append_all].
    destruct (append_text_spec buf pos maxlen t Hlen Hmax Hpos Ht) as (b1 & E1 & Hl1 & Hp1).
    rewrite E1. unfold zlen in *. rewrite length_app.
    assert (Htpos : (0 < length t)%nat) by (destruct t; [done|cbn; lia]).
    destruct (Z.ltb_spec (pos + Z.of_nat (length t)) maxlen) as [Hfit|Hno].
    + rewrite or_fail_ret by lia.
      destruct (IH b1 (pos + Z.of_nat (length t)) k Hl1 Hmax) as (b2 & Hl2 & E2 & Hp2);
        [lia|by left|done|].
      exists b2. split; [done|]. split.
      * rewrite E2. by replace (pos + Z.of_nat (length t) + Z.of_nat (length (concat ts)))
          with (pos + Z.of_nat (length t + length (concat ts))) by lia.
      * intros Hall. rewrite ?length_app. rewrite (app_assoc _ t), <- Hp1 by done.
        replace (Z.to_nat pos + (length t + length (concat ts)))%nat
          with (Z.to_nat (pos + Z.of_nat (length t)) + length (concat ts))%nat by lia.
        rewrite Hp2 by lia. f_equal. f_equal. lia.
    + exists b1. split; [done|]. split; [|lia]. cbn.
      destruct (Z.ltb_spec (pos + Z.of_nat (length t + length (concat ts))) maxlen); [lia|done].
Qed.

Lemma close_message_spec buf pos maxlen :
  zlen buf = maxlen -> 0 <= pos < maxlen ->
  exists buf',
    zlen buf' = maxlen /\
    close_message buf pos maxlen = Some (buf', if pos + 1 <? maxlen then pos + 1 else -1) /\
    (pos + 1 < maxlen ->
     take (Z.to_nat pos + 1) buf' = take (Z.to_nat pos) buf ++ [RBRACE] /\
     buf' !! (Z.to_nat pos + 1)%nat = Some NUL).
Proof.
  intros Hlen Hpos. unfold close_message.
  destruct (Z.geb_spec (pos + 1) maxlen) as [Hge|Hlt].
  - exists buf. split; [done|]. split; [|lia].
    destruct (Z.ltb_spec (pos + 1) maxlen); [lia|done].
  - unfold zlen in *.
    rewrite store_bytes_ok by (unfold zlen; cbn [length]; lia).
    set (b1 := take (Z.to_nat pos) buf ++ [RBRACE] ++ drop (Z.to_nat pos + length [RBRACE]) buf).
    assert (Hl1 : length b1 = length buf) by (apply stored_length; cbn [length]; lia).
    assert (Hp1 : take (Z.to_nat pos + 1) b1 = take (Z.to_nat pos) buf ++ [RBRACE]).
    { apply (stored_prefix buf (Z.to_nat pos) [RBRACE]). lia. }
    rewrite store_bytes_ok by (unfold zlen; cbn [length]; lia).
    exists (take (Z.to_nat (pos + 1)) b1 ++ [NUL] ++ drop (Z.to_nat (pos + 1) + length [NUL]) b1).
    split; [|split].
    + rewrite stored_length; [lia|]. cbn [length]. lia.
    + destruct (Z.ltb_spec (pos + 1) maxlen); [done|lia].
    + intros _. replace (Z.to_nat (pos + 1)) with (Z.to_nat pos + 1)%nat by lia. split.
      * rewrite take_app_length' by (rewrite length_take; lia). done.
      * rewrite lookup_app_r by (rewrite length_take; lia).
        rewrite length_take. by replace (Z.to_nat pos + 1 - _)%nat with 0%nat by lia.
Qed.

Lemma fmt_item_nonempty comma it : fmt_item comma it <> [].
Proof.
  unfold fmt_item, fmt_string, fmt_int. destruct it as [key [v|n]], comma; discriminate.
Qed.

Lemma fmt_items_nonempty items : Forall (fun t => t <> []) (fmt_items items).
Proof.
  destruct items as [|it rest]; [constructor|]. cbn [fmt_items].
  constructor; [apply fmt_item_nonempty|].
  apply Forall_fmap, Forall_forall. intros x _. apply fmt_item_nonempty.
Qed.

(** The opening brace, the items and the closing brace: the whole message
    or a failure, and no store outside the buffer. *)
Lemma message_encodes items buf maxlen :
  items <> [] -> 1 <= maxlen <= INT_MAX -> zlen buf = maxlen ->
  encodes
    (match store_bytes buf 0 [LBRACE] with
     | None => None
     | Some b =>
         append_all b 1 maxlen (fmt_items items) (fun b p => close_message b p maxlen)
     end) maxlen (message_text items).
Proof.
  intros Hitems Hmax Hlen. unfold encodes, message_text.
  rewrite store_bytes_ok by (unfold zlen in *; cbn [length]; lia).
  set (b0 := take (Z.to_nat 0) buf ++ [LBRACE] ++ drop (Z.to_nat 0 + length [LBRACE]) buf).
  assert (Hl0 : zlen b0 = maxlen).
  { unfold zlen in *. unfold b0. rewrite stored_length; [done|]. cbn [length]. lia. }
  assert (Hp0 : take 1 b0 = [LBRACE]).
  { apply (stored_prefix buf 0 [LBRACE]). lia. }
  set (body := concat (fmt_items items)).
  assert (Htext : length (LBRACE :: body ++ [RBRACE]) = (1 + length body + 1)%nat).
  { cbn [length]. rewrite length_app. cbn [length]. lia. }
  destruct (append_all_spec maxlen (fmt_items items) b0 1
              (fun b p => close_message b p maxlen)) as (b1 & Hl1 & E1 & Hp1);
    [done|lia|lia| |apply fmt_items_nonempty|].
  { right. by destruct items. }
  rewrite E1. fold body in E1, Hp1 |- *. unfold zlen in Hp1 |- *. rewrite Htext.
  destruct (Z.ltb_spec (1 + Z.of_nat (length body)) maxlen) as [Hfit|Hno].
  - destruct (close_message_spec b1 (1 + Z.of_nat (length body)) maxlen Hl1)
      as (b2 & Hl2 & E2 & Hp2); [lia|].
    exists b2. eexists. split; [exact E2|]. split; [exact Hl2|].
    destruct (Z.ltb_spec (1 + Z.of_nat (length body) + 1) maxlen) as [Hfit2|Hno2].
    + right. destruct (Hp2 Hfit2) as [Htake Hnul].
      replace (Z.to_nat (1 + Z.of_nat (length body))) with (1 + length body)%nat
        in Htake, Hnul by lia.
      split; [lia|]. split; [lia|]. split; [|done].
      rewrite Htake. change (Z.to_nat 1) with 1%nat in Hp1. rewrite Hp1 by lia.
      by rewrite Hp0.
    + left. split; [done|lia].
  - exists b1. eexists. split; [reflexivity|]. split; [exact Hl1|]. left. split; [done|lia].
Qed.

(** C7. For every self descriptor and every buffer of at least one cell,
    [build_helo_message] and [build_bye_message] store nothing outside the
    buffer; each returns -1 when the message and its NUL do not fit, and
    otherwise leaves the complete message, NUL-terminated, in the buffer
    and returns its length: no truncated message is returned as a success. *)
Theorem encoder_stays_in_buffer g now buf maxlen :
  1 <= maxlen <= INT_MAX -> zlen buf = maxlen ->
  encodes (build_helo_message g now buf maxlen) maxlen (helo_text g now) /\
  encodes (build_bye_message g now buf maxlen) maxlen (bye_text g now).
Proof.
  intros Hmax Hlen. split.
  - rewrite build_helo_message_chain. apply message_encodes; [|done..].
    unfold helo_items. discriminate.
  - rewrite build_bye_message_chain. apply message_encodes; [|done..].
    unfold bye_items. discriminate.
Qed.

(** Without a first cell the opening brace itself is stored outside the
    buffer. *)
Example encoder_needs_one_cell :
  build_helo_message sample_server 1700000000 [] 0 = None /\
  build_bye_message sample_server 1700000000 [] 0 = None.
Proof. split; reflexivity. Qed.

Lemma encoder_stays_in_buffer_witness :
  let g := sample_state true (str "A1") [] in
  1 <= 20 <= INT_MAX /\ zlen (replicate 20 NUL) = 20 /\
  encodes (build_helo_message g 1700000000 (replicate 20 NUL) 20) 20 (helo_text g 1700000000) /\
  encodes (build_bye_message g 1700000000 (replicate 20 NUL) 20) 20 (bye_text g 1700000000).
Proof.
  cbv zeta. split; [unfold INT_MAX; lia|]. split; [reflexivity|].
  apply encoder_stays_in_buffer; [unfold INT_MAX; lia | reflexivity].
Defined.

(* ===================================================================== *)
(** ** Searching the text of a message *)
(* ===================================================================== *)

Lemma no_char_cons c a s :
  no_char c (a :: s) = true <-> a <> c /\ no_char c s = true.
Proof.
  unfold no_char. cbn [forallb]. rewrite andb_true_iff, negb_true_iff.
  by rewrite Ascii.eqb_neq.
Qed.

Lemma no_char_app c s t :
  no_char c (s ++ t) = true <-> no_char c s = true /\ no_char c t = true.
Proof. unfold no_char. rewrite forallb_app. apply andb_true_iff. Qed.

Lemma starts_with_refl_app k x y : starts_with (k ++ x) (k ++ y) = starts_with x y.
Proof.
  induction k as [|a k IH]; [done|]. cbn [app starts_with]. by rewrite Ascii.eqb_refl.
Qed.

(** Two quote-free words, each followed by a double quote, agree only
    when they are equal. *)
Lemma starts_with_word k f x y :
  no_char DQUOTE k = true -> no_char DQUOTE f = true -> k <> f ->
  starts_with (k ++ DQUOTE :: x) (f ++ DQUOTE :: y) = false.
Proof.
  revert f. induction k as [|a k IH]; intros [|c f] Hk Hf Hne; try done;
    cbn [app starts_with].
  - apply no_char_cons in Hf as [Hc _]. apply andb_false_intro1.
    apply Ascii.eqb_neq. congruence.
  - apply no_char_cons in Hk as [Ha _]. apply andb_false_intro1. by apply Ascii.eqb_neq.
  - apply no_char_cons in Hk as [_ Hk]. apply no_char_cons in Hf as [_ Hf].
    destruct (Ascii.eqb_spec a c) as [->|]; [|done]. cbn [andb].
    apply IH; [done..|]. congruence.
Qed.

Lemma starts_with_proper k x c y :
  proper_key k = true -> Ascii.eqb c COLON || Ascii.eqb c COMMA || Ascii.eqb c RBRACE = true ->
  starts_with (k ++ x) (c :: y) = false.
Proof.
  destruct k as [|a k]; [done|]. cbn [app starts_with proper_key]. intros Hk Hc.
  apply andb_false_intro1. apply Ascii.eqb_neq. intros ->.
  rewrite !andb_true_iff, !negb_true_iff in Hk. destruct Hk as [[[H1 H2] H3] _].
  rewrite H1, H2, H3 in Hc. done.
Qed.

Lemma strstr_quote r p :
  strstr (DQUOTE :: r) (DQUOTE :: p) =
    if starts_with p r then Some (DQUOTE :: r) else strstr r (DQUOTE :: p).
Proof. cbn [strstr starts_with]. by rewrite Ascii.eqb_refl. Qed.

Lemma strstr_skip f r p :
  no_char DQUOTE f = true -> strstr (f ++ r) (DQUOTE :: p) = strstr r (DQUOTE :: p).
Proof.
  induction f as [|c f IH]; [done|]. intros Hf. apply no_char_cons in Hf as [Hc Hf].
  cbn [app strstr starts_with].
  replace (Ascii.eqb DQUOTE c) with false; [by apply IH|].
  symmetry. apply Ascii.eqb_neq. congruence.
Qed.

Lemma strstr_skip1 c r p :
  c <> DQUOTE -> strstr (c :: r) (DQUOTE :: p) = strstr r (DQUOTE :: p).
Proof.
  intros Hc. apply (strstr_skip [c]). apply no_char_cons. by split.
Qed.

Lemma fmt_item_eq comma k v :
  fmt_item comma (k, v) =
    (if comma then [COMMA] else []) ++ DQUOTE :: k ++ DQUOTE :: COLON :: value_text v.
Proof.
  unfold fmt_item, fmt_string, fmt_int. by destruct v as [s|n].
Qed.

Lemma closes_head r :
  closes r = true ->
  exists c r', r = c :: r' /\ (Ascii.eqb c COLON || Ascii.eqb c COMMA || Ascii.eqb c RBRACE = true)
               /\ c <> DQUOTE /\ c <> COLON /\ is_digit c = false.
Proof.
  destruct r as [|c r']; [done|]. cbn [closes]. intros H. exists c, r'. split; [done|].
  apply orb_true_iff in H as [H|H]; apply Ascii.eqb_eq in H; subst c; by vm_compute.
Qed.

Lemma closes_render rest : closes (render true rest ++ [RBRACE]) = true.
Proof. destruct rest as [|[k v] rest]; [done|]. cbn [render]. by rewrite fmt_item_eq. Qed.

Lemma no_char_digits c u :
  is_digit c = false -> no_char c (uint_chars u) = true.
Proof.
  intros Hc. induction u; cbn [uint_chars]; [done|..];
    (apply no_char_cons; split; [intros E; subst c; by vm_compute in Hc | done]).
Qed.

Lemma no_char_print_int c n :
  is_digit c = false -> c <> MINUS -> no_char c (print_int n) = true.
Proof.
  intros Hc Hm. unfold print_int. destruct (Z.to_int n).
  - by apply no_char_digits.
  - apply no_char_cons. split; [done|]. by apply no_char_digits.
Qed.

(** An item of another key does not match the search pattern of [k]. *)
Lemma strstr_item_miss k ptail comma it r :
  proper_key k = true -> item_clean it = true -> closes r = true -> it.1 <> k ->
  strstr (fmt_item comma it ++ r) (DQUOTE :: k ++ DQUOTE :: COLON :: ptail)
  = strstr r (DQUOTE :: k ++ DQUOTE :: COLON :: ptail).
Proof.
  intros Hk Hit Hr Hne. destruct it as [k' v]. cbn [fst snd] in *.
  apply andb_true_iff in Hit as [Hk' Hv].
  assert (Hkq : no_char DQUOTE k = true).
  { destruct k; [done|]. unfold proper_key in Hk. by apply andb_true_iff in Hk as [_ ?]. }
  destruct (closes_head r Hr) as (c & r' & -> & Hc & Hcq & Hcc & Hcd).
  rewrite fmt_item_eq, <- app_assoc.
  rewrite strstr_skip by by destruct comma.
  cbn [app]. rewrite strstr_quote.
  rewrite <- app_assoc. cbn [app].
  rewrite starts_with_word by (done || congruence).
  rewrite strstr_skip by done. rewrite strstr_quote.
  rewrite starts_with_proper by done.
  rewrite strstr_skip1 by done.
  destruct v as [s|n]; cbn [value_text].
  - cbn [app]. rewrite strstr_quote. rewrite <- app_assoc. cbn [app].
    destruct (decide (k = s)) as [->|Hks].
    + rewrite starts_with_refl_app. cbn [starts_with].
      replace (Ascii.eqb COLON c) with false
        by (symmetry; apply Ascii.eqb_neq; congruence).
      cbn [andb]. rewrite strstr_skip by done. rewrite strstr_quote.
      by rewrite starts_with_proper.
    + rewrite starts_with_word by done.
      rewrite strstr_skip by done. rewrite strstr_quote.
      by rewrite starts_with_proper.
  - rewrite strstr_skip; [done|]. by apply no_char_print_int.
Qed.

(** The item of key [k] matches when its value starts as the pattern ends. *)
Lemma strstr_item_hit k ptail comma v r :
  starts_with ptail (value_text v ++ r) = true ->
  strstr (fmt_item comma (k, v) ++ r) (DQUOTE :: k ++ DQUOTE :: COLON :: ptail)
  = Some (DQUOTE :: k ++ DQUOTE :: COLON :: value_text v ++ r).
Proof.
  intros Hp. rewrite fmt_item_eq, <- app_assoc.
  rewrite strstr_skip by by destruct comma.
  cbn [app]. rewrite strstr_quote. rewrite <- app_assoc. cbn [app].
  rewrite (starts_with_refl_app k). cbn [starts_with].
  by rewrite !Ascii.eqb_refl, Hp.
Qed.

Lemma strstr_render_hit k ptail v post pre : forall comma,
  proper_key k = true ->
  Forall (fun it => item_clean it = true /\ it.1 <> k) pre ->
  starts_with ptail (value_text v ++ render true post ++ [RBRACE]) = true ->
  strstr (render comma (pre ++ (k, v) :: post) ++ [RBRACE])
    (DQUOTE :: k ++ DQUOTE :: COLON :: ptail)
  = Some (DQUOTE :: k ++ DQUOTE :: COLON :: value_text v ++ render true post ++ [RBRACE]).
Proof.
  induction pre as [|it pre IH]; intros comma Hk Hpre Hp; cbn [app render];
    rewrite <- app_assoc.
  - by apply strstr_item_hit.
  - apply Forall_cons in Hpre as [[Hit Hne] Hpre].
    rewrite strstr_item_miss by (done || apply closes_render). by apply IH.
Qed.

Lemma strstr_render_miss k ptail items : forall comma,
  proper_key k = true ->
  Forall (fun it => item_clean it = true /\ it.1 <> k) items ->
  strstr (render comma items ++ [RBRACE]) (DQUOTE :: k ++ DQUOTE :: COLON :: ptail) = None.
Proof.
  induction items as [|it items IH]; intros comma Hk Hall; cbn [app render].
  - by rewrite strstr_skip1.
  - apply Forall_cons in Hall as [[Hit Hne] Hall]. rewrite <- app_assoc.
    rewrite strstr_item_miss by (done || apply closes_render). by apply IH.
Qed.

Lemma concat_fmt_true rest : concat (map (fmt_item true) rest) = render true rest.
Proof. induction rest as [|it rest IH]; [done|]. cbn. by rewrite IH. Qed.

Lemma message_text_render items :
  message_text items = LBRACE :: render false items ++ [RBRACE].
Proof.
  unfold message_text. destruct items as [|it rest]; [done|].
  cbn [fmt_items concat render]. by rewrite concat_fmt_true.
Qed.

Lemma strchr_word v r :
  no_char DQUOTE v = true -> strchr (v ++ DQUOTE :: r) DQUOTE = Some (DQUOTE :: r).
Proof.
  induction v as [|c v IH]; intros Hv; cbn [app strchr].
  - by rewrite Ascii.eqb_refl.
  - apply no_char_cons in Hv as [Hc Hv].
    replace (Ascii.eqb c DQUOTE) with false by (symmetry; by apply Ascii.eqb_neq).
    by apply IH.
Qed.

(** The decoder finds the string value of the first item of key [k]. *)
Lemma json_get_string_hit pre k v post maxlen :
  proper_key k = true ->
  Forall (fun it => item_clean it = true /\ it.1 <> k) pre ->
  no_char DQUOTE v = true -> zlen v < maxlen ->
  json_get_string (message_text (pre ++ (k, JString v) :: post)) k maxlen = Some v.
Proof.
  intros Hk Hpre Hv Hlen. unfold json_get_string. rewrite message_text_render.
  rewrite strstr_skip1 by done.
  rewrite (strstr_render_hit k [DQUOTE] (JString v) post pre false Hk Hpre)
    by (cbn [value_text app starts_with]; by rewrite Ascii.eqb_refl).
  cbn [value_text].
  replace (DQUOTE :: k ++ DQUOTE :: COLON :: (DQUOTE :: v ++ [DQUOTE]) ++ render true post ++ [RBRACE])
    with ((DQUOTE :: k ++ [DQUOTE; COLON; DQUOTE]) ++ v ++ DQUOTE :: render true post ++ [RBRACE])
    by (cbn [app]; by rewrite <- !app_assoc).
  rewrite drop_app_length. rewrite strchr_word by done.
  rewrite length_app. cbn [length].
  replace (length v + S (length (render true post ++ [RBRACE]))
           - S (length (render true post ++ [RBRACE])))%nat with (length v) by lia.
  unfold zlen in Hlen. destruct (Z.geb_spec (Z.of_nat (length v)) maxlen); [lia|].
  by rewrite Nat2Z.id, take_app_length.
Qed.

(** The decoder finds nothing for a key no item has. *)
Lemma json_get_string_miss items k maxlen :
  proper_key k = true ->
  Forall (fun it => item_clean it = true /\ it.1 <> k) items ->
  json_get_string (message_text items) k maxlen = None.
Proof.
  intros Hk Hall. unfold json_get_string. rewrite message_text_render.
  rewrite strstr_skip1 by done.
  by rewrite (strstr_render_miss k [DQUOTE] items false Hk Hall).
Qed.

(* ===================================================================== *)
(** ** [%d] and [atoi] *)
(* ===================================================================== *)

Lemma atoi_digits_stop acc r : closes r = true -> atoi_digits acc r = acc.
Proof.
  intros Hr. destruct (closes_head r Hr) as (c & r' & -> & _ & _ & _ & Hd).
  cbn [atoi_digits]. by rewrite Hd.
Qed.

Lemma atoi_digits_acc u r : forall acc,
  closes r = true ->
  atoi_digits (Z.pos acc) (uint_chars u ++ r) = Z.pos (Pos.of_uint_acc u acc).
Proof.
  induction u; intros acc Hr; cbn [uint_chars app Pos.of_uint_acc];
    [by apply atoi_digits_stop|..];
    cbn [atoi_digits];
    match goal with
    | |- context [is_digit (digit_char ?d)] =>
        change (is_digit (digit_char d)) with true;
        change (digit_val (digit_char d)) with d
    end; cbn iota;
    match goal with
    | |- atoi_digits ?a _ = Z.pos (Pos.of_uint_acc _ ?b) =>
        replace a with (Z.pos b) by lia
    end; by apply IHu.
Qed.

Lemma atoi_digits_uint u r :
  closes r = true -> atoi_digits 0 (uint_chars u ++ r) = Z.of_N (Pos.of_uint u).
Proof.
  intros Hr. induction u; cbn [uint_chars app Pos.of_uint];
    [by apply atoi_digits_stop|..];
    cbn [atoi_digits];
    match goal with
    | |- context [is_digit (digit_char ?d)] =>
        change (is_digit (digit_char d)) with true;
        change (digit_val (digit_char d)) with d
    end; cbn iota; [exact IHu|..];
    match goal with
    | |- atoi_digits ?a _ = Z.of_N (N.pos (Pos.of_uint_acc _ ?b)) =>
        change a with (Z.pos b)
    end; by apply atoi_digits_acc.
Qed.

Lemma wrap_int_small n : INT_MIN <= n <= INT_MAX -> wrap_int n = n.
Proof. unfold INT_MIN, INT_MAX, wrap_int. intros H. rewrite Z.mod_small; lia. Qed.

Lemma wrap_int_range n : INT_MIN <= wrap_int n <= INT_MAX.
Proof.
  unfold INT_MIN, INT_MAX, wrap_int.
  pose proof (Z.mod_pos_bound (n + 2 ^ 31) (2 ^ 32)). lia.
Qed.

(** [atoi] reads back what [%d] printed, when a comma or the closing brace
    follows. *)
Lemma atoi_print_int n r :
  closes r = true -> INT_MIN <= n <= INT_MAX -> atoi (print_int n ++ r) = n.
Proof.
  intros Hr Hn.
  assert (Hv : wrap_int (strtol_result n) = n).
  { unfold strtol_result, LONG_MIN, LONG_MAX. unfold INT_MIN, INT_MAX in Hn.
    rewrite Z.min_r, Z.max_r by lia. by apply wrap_int_small. }
  rewrite <- Hv at 2.
  rewrite <- (DecimalZ.of_to n) at 2.
  unfold print_int. destruct (Z.to_int n) as [u|u]; cbn [Z.of_int].
  - unfold Z.of_uint. rewrite <- (atoi_digits_uint u r Hr). unfold atoi.
    destruct u; cbn [uint_chars app skip_spaces];
      [destruct (closes_head r Hr) as (c & r' & -> & Hc & _); cbn [skip_spaces];
       apply orb_true_iff in Hc as [Hc|Hc];
       [apply orb_true_iff in Hc as [Hc|Hc]|]; apply Ascii.eqb_eq in Hc; subst c; reflexivity
      |reflexivity..].
  - unfold Z.of_uint. rewrite <- (atoi_digits_uint u r Hr). unfold atoi.
    cbn [app skip_spaces]. reflexivity.
Qed.

(** The decoder reads back the integer value of the first item of key [k]. *)
Lemma json_get_int_hit pre k n post :
  proper_key k = true ->
  Forall (fun it => item_clean it = true /\ it.1 <> k) pre ->
  INT_MIN <= n <= INT_MAX ->
  json_get_int (message_text (pre ++ (k, JInt n) :: post)) k = n.
Proof.
  intros Hk Hpre Hn. unfold json_get_int. rewrite message_text_render.
  rewrite strstr_skip1 by done.
  rewrite (strstr_render_hit k [] (JInt n) post pre false Hk Hpre) by done.
  cbn [value_text].
  replace (DQUOTE :: k ++ DQUOTE :: COLON :: print_int n ++ render true post ++ [RBRACE])
    with ((DQUOTE :: k ++ [DQUOTE; COLON]) ++ print_int n ++ render true post ++ [RBRACE])
    by (cbn [app]; by rewrite <- !app_assoc).
  rewrite drop_app_length. apply atoi_print_int; [apply closes_render|done].
Qed.

Lemma json_get_int_miss items k :
  proper_key k = true ->
  Forall (fun it => item_clean it = true /\ it.1 <> k) items ->
  json_get_int (message_text items) k = 0.
Proof.
  intros Hk Hall. unfold json_get_int. rewrite message_text_render.
  rewrite strstr_skip1 by done.
  by rewrite (strstr_render_miss k [] items false Hk Hall).
Qed.

Lemma double_digits d :
  (nb_digits (Little.double d) <= S (nb_digits d) /\
   nb_digits (Little.succ_double d) <= S (nb_digits d))%nat.
Proof. induction d; cbn [Little.double Little.succ_double nb_digits]; lia. Qed.

Lemma little_digits p : (nb_digits (Pos.to_little_uint p) <= Pos.size_nat p)%nat.
Proof.
  induction p as [p IH|p IH|]; cbn [Pos.to_little_uint Pos.size_nat]; [| |done].
  - pose proof (double_digits (Pos.to_little_uint p)). lia.
  - pose proof (double_digits (Pos.to_little_uint p)). lia.
Qed.

Lemma uint_chars_length u : length (uint_chars u) = nb_digits u.
Proof. induction u; cbn [uint_chars nb_digits length]; congruence. Qed.

Lemma to_uint_length p q :
  (p < q)%positive -> (length (uint_chars (Pos.to_uint p)) <= Pos.size_nat q)%nat.
Proof.
  intros H. rewrite uint_chars_length. unfold Pos.to_uint.
  rewrite DecimalFacts.nb_digits_rev.
  etrans; [apply little_digits|]. by apply Pos.size_nat_monotone.
Qed.

(** [%d] prints at most 33 characters for an [int]. *)
Lemma print_int_length n : INT_MIN <= n <= INT_MAX -> zlen (print_int n) <= 33.
Proof.
  unfold INT_MIN, INT_MAX, zlen, print_int. intros Hn. destruct n as [|p|p]; cbn [Z.to_int].
  - cbn. lia.
  - pose proof (to_uint_length p (2 ^ 31)%positive) as H.
    change (Pos.size_nat (2 ^ 31)) with 32%nat in H. lia.
  - pose proof (to_uint_length p (2 ^ 31 + 1)%positive) as H.
    change (Pos.size_nat (2 ^ 31 + 1)) with 32%nat in H. cbn [length]. lia.
Qed.

Lemma c_str_clean_nil s : no_char NUL s = true -> c_str s = s.
Proof.
  induction s as [|c s IH]; intros Hs; cbn [c_str]; [done|].
  apply no_char_cons in Hs as [Hc Hs].
  replace (Ascii.eqb c NUL) with false by (symmetry; by apply Ascii.eqb_neq).
  by rewrite IH.
Qed.

Lemma json_get_string_at items n k v maxlen :
  items !! n = Some (k, JString v) -> proper_key k = true ->
  Forall (fun it => item_clean it = true /\ it.1 <> k) (take n items) ->
  no_char DQUOTE v = true -> zlen v < maxlen ->
  json_get_string (message_text items) k maxlen = Some v.
Proof.
  intros Hn Hk Hpre Hv Hlen. rewrite <- (take_drop_middle items n _ Hn).
  by apply json_get_string_hit.
Qed.

Lemma json_get_int_at items n k v :
  items !! n = Some (k, JInt v) -> proper_key k = true ->
  Forall (fun it => item_clean it = true /\ it.1 <> k) (take n items) ->
  INT_MIN <= v <= INT_MAX ->
  json_get_int (message_text items) k = v.
Proof.
  intros Hn Hk Hpre Hv. rewrite <- (take_drop_middle items n _ Hn).
  by apply json_get_int_hit.
Qed.

Lemma no_char_render c items : forall comma,
  c <> COMMA -> c <> DQUOTE -> c <> COLON ->
  Forall (fun it => no_char c it.1 = true /\ no_char c (value_text it.2) = true) items ->
  no_char c (render comma items) = true.
Proof.
  induction items as [|[k v] items IH]; intros comma H1 H2 H3 Hall; [done|].
  apply Forall_cons in Hall as [[Hk Hv] Hall]. cbn [render fst snd] in *.
  rewrite fmt_item_eq. rewrite !no_char_app. split; [split|].
  - destruct comma; [|done]. by apply no_char_cons.
  - apply no_char_cons. split; [done|]. apply no_char_app. split; [done|].
    apply no_char_cons. split; [done|]. by apply no_char_cons.
  - by apply IH.
Qed.

Section HeloText.
Variable g : discovery.
Variable now : Z.
Hypothesis Hfits : self_fits g.

Lemma helo_text_nul_free : no_char NUL (helo_text g now) = true.
Proof.
  destruct Hfits as (_ & _ & Hid & Hsvc & Hip & Hcaps & _).
  unfold helo_text. rewrite message_text_render.
  apply no_char_cons. split; [done|]. apply no_char_app. split; [|done].
  apply no_char_render; try done. unfold helo_items.
  assert (Hint : forall n, no_char NUL (print_int n) = true)
    by (intros n; by apply no_char_print_int).
  assert (Hs : forall s, no_char NUL s = true -> no_char NUL (DQUOTE :: s ++ [DQUOTE]) = true).
  { intros s H. apply no_char_cons. split; [done|]. apply no_char_app. by split. }
  repeat apply Forall_app_2;
    repeat match goal with
      | |- Forall _ (if ?b then _ else _) => destruct b
      | |- Forall _ [] => apply Forall_nil_2
      | |- Forall _ (_ :: _) => apply Forall_cons_2; [split; cbn [fst snd value_text]|]
      end; try done; by apply Hs.
Qed.

Lemma helo_text_length : zlen (helo_text g now) < PN_MAX_MSG_LEN.
Proof.
  destruct Hfits as ((Hid & Hsvc & _ & Hcaps) & Hip & _ & _ & _ & _ & Hport & Hdata).
  pose proof (print_int_length _ Hport) as Hp1.
  pose proof (print_int_length _ Hdata) as Hp2.
  pose proof (print_int_length _ (wrap_int_range now)) as Hp3.
  unfold helo_text. rewrite message_text_render. unfold helo_items.
  unfold PN_MAX_MSG_LEN, PN_MAX_ID_LEN, PN_MAX_SERVICE_LEN, PN_MAX_IP_LEN,
    PN_MAX_CAPS_LEN, zlen in *.
  destruct (data_port (my_service g) >? 0), (negb (streq (caps (my_service g)) []));
    cbn [app render]; rewrite !fmt_item_eq; cbn [value_text app];
    repeat (rewrite length_app || cbn [length]);
    change (length (print_int PN_VERSION)) with 1%nat;
    cbn [length str list_ascii_of_string PN_MAGIC]; lia.
Qed.
End HeloText.

(* ===================================================================== *)
(** ** Encoding and decoding a presence message *)
(* ===================================================================== *)

Ltac items_ok :=
  cbn [take];
  repeat first
    [ apply Forall_nil_2
    | apply Forall_cons_2;
      [ split; [cbn [item_clean fst snd]; by repeat (apply andb_true_intro; split) | discriminate ] | ] ].

(** With a buffer of [PN_MAX_MSG_LEN] cells the presence message of a
    well-formed self descriptor always fits, and the receiver is handed
    exactly its text. *)
Lemma build_helo_message_sent g now buf sender_ip t stack_caps :
  self_fits g -> zlen buf = PN_MAX_MSG_LEN ->
  exists buf' n,
    build_helo_message g now buf PN_MAX_MSG_LEN = Some (buf', n) /\ 0 < n /\
    dg_text (mk_datagram (sent_bytes buf' n) sender_ip t stack_caps) = helo_text g now.
Proof.
  intros Hfits Hlen.
  destruct (message_encodes (helo_items g now) buf PN_MAX_MSG_LEN)
    as (buf' & n & E & Hl & Hcase); [unfold helo_items; discriminate|by vm_compute|done|].
  rewrite <- build_helo_message_chain in E. fold (helo_text g now) in Hcase.
  pose proof (helo_text_length g now Hfits) as Hshort.
  destruct Hcase as [[_ Hbad]|(-> & _ & Htake & _)]; [lia|].
  exists buf', (zlen (helo_text g now)). split; [done|]. split.
  - unfold helo_text, message_text, zlen. cbn [length]. lia.
  - unfold dg_text, sent_bytes, dg_bytes, zlen. rewrite Nat2Z.id, Htake.
    rewrite take_ge by (unfold zlen, PN_MAX_MSG_LEN in *; lia).
    apply c_str_clean_nil. by apply helo_text_nul_free.
Qed.

(** The fields the decoder reads from the text of a presence message. *)
Lemma helo_text_fields g now sender_ip :
  self_fits g -> self_quote_free g ->
  let m := helo_text g now in
  msg_tag m = Some PN_MAGIC /\ msg_cmd m = Some (str "helo") /\
  msg_id m = Some (id (my_service g)) /\
  msg_svc m = Some (service (my_service g)) /\
  msg_ip m sender_ip = local_ip g /\
  msg_port m = ctrl_port (my_service g) /\
  msg_data m = (if data_port (my_service g) >? 0 then data_port (my_service g) else 0) /\
  msg_caps m = (if streq (caps (my_service g)) [] then None else Some (caps (my_service g))).
Proof.
  intros ((Hid & Hsvc & _ & Hcaps) & Hip & _ & _ & _ & _ & Hport & Hdata) (Qid & Qsvc & Qip & Qcaps).
  cbv zeta. unfold helo_text, helo_items, msg_tag, msg_cmd, msg_id, msg_svc, msg_ip,
    msg_port, msg_data, msg_caps.
  assert (Qts : INT_MIN <= wrap_int now <= INT_MAX) by apply wrap_int_range.
  destruct (data_port (my_service g) >? 0) eqn:Ed;
    destruct (streq (caps (my_service g)) []) eqn:Ec; cbn [negb app];
    repeat split.
  all: try (by (eapply (json_get_string_at _ 0); [reflexivity|reflexivity|items_ok|done|done])).
  all: try (by (eapply (json_get_string_at _ 2); [reflexivity|reflexivity|items_ok|done|done])).
  all: try (by (eapply (json_get_string_at _ 3); [reflexivity|reflexivity|items_ok|done|done])).
  all: try (by (eapply (json_get_string_at _ 4); [reflexivity|reflexivity|items_ok|done|done])).
  all: try (by (erewrite (json_get_string_at _ 5); [reflexivity|reflexivity|reflexivity|items_ok|done|done])).
  all: try (by (eapply (json_get_int_at _ 6); [reflexivity|reflexivity|items_ok|done])).
  all: try (by (eapply (json_get_int_at _ 7); [reflexivity|reflexivity|items_ok|done])).
  all: try (by (eapply (json_get_string_at _ 7); [reflexivity|reflexivity|items_ok|done|done])).
  all: try (by (eapply (json_get_string_at _ 8); [reflexivity|reflexivity|items_ok|done|done])).
  all: try (by (apply json_get_int_miss; [reflexivity|items_ok])).
  all: try (by (apply json_get_string_miss; [reflexivity|items_ok])).
Qed.

(** C4 (as the code has it). For every self descriptor whose strings hold
    no double quote, the presence message built into a buffer of
    [PN_MAX_MSG_LEN] cells and then received decodes to the identity,
    service type, address and control port supplied; to the data port
    when it is positive, and to 0 when it was left out; and to the
    capabilities when they are not empty, and to no capabilities field
    when they were left out. *)
Theorem helo_round_trip g now buf sender_ip t stack_caps :
  self_fits g -> self_quote_free g -> zlen buf = PN_MAX_MSG_LEN ->
  exists buf' n,
    build_helo_message g now buf PN_MAX_MSG_LEN = Some (buf', n) /\ 0 < n /\
    let m := dg_text (mk_datagram (sent_bytes buf' n) sender_ip t stack_caps) in
    msg_tag m = Some PN_MAGIC /\ msg_cmd m = Some (str "helo") /\
    msg_id m = Some (id (my_service g)) /\
    msg_svc m = Some (service (my_service g)) /\
    msg_ip m sender_ip = local_ip g /\
    msg_port m = ctrl_port (my_service g) /\
    msg_data m = (if data_port (my_service g) >? 0 then data_port (my_service g) else 0) /\
    msg_caps m = (if streq (caps (my_service g)) [] then None else Some (caps (my_service g))).
Proof.
  intros Hfits Hq Hlen.
  destruct (build_helo_message_sent g now buf sender_ip t stack_caps Hfits Hlen)
    as (buf' & n & E & Hn & Htext).
  exists buf', n. split; [done|]. split; [done|]. cbv zeta. rewrite Htext.
  by apply helo_text_fields.
Qed.

Lemma self_fits_sample_server : self_fits sample_server.
Proof. repeat split; try reflexivity; vm_compute; congruence. Qed.

Lemma helo_round_trip_witness :
  let g := sample_server in
  let buf := replicate (Z.to_nat PN_MAX_MSG_LEN) NUL in
  self_fits g /\ self_quote_free g /\ zlen buf = PN_MAX_MSG_LEN /\
  exists buf' n,
    build_helo_message g 1700000000 buf PN_MAX_MSG_LEN = Some (buf', n) /\ 0 < n /\
    let m := dg_text (mk_datagram (sent_bytes buf' n) (str "10.0.0.5") 1700000001 []) in
    msg_tag m = Some PN_MAGIC /\ msg_cmd m = Some (str "helo") /\
    msg_id m = Some (id (my_service g)) /\
    msg_svc m = Some (service (my_service g)) /\
    msg_ip m (str "10.0.0.5") = local_ip g /\
    msg_port m = ctrl_port (my_service g) /\
    msg_data m = (if data_port (my_service g) >? 0 then data_port (my_service g) else 0) /\
    msg_caps m = (if streq (caps (my_service g)) [] then None else Some (caps (my_service g))).
Proof.
  cbv zeta.
  assert (Hq : self_quote_free sample_server) by (repeat split; reflexivity).
  assert (Hl : zlen (replicate (Z.to_nat PN_MAX_MSG_LEN) NUL) = PN_MAX_MSG_LEN) by reflexivity.
  split; [exact self_fits_sample_server|]. split; [exact Hq|]. split; [exact Hl|].
  exact (helo_round_trip sample_server 1700000000 _ (str "10.0.0.5") 1700000001 []
           self_fits_sample_server Hq Hl).
Defined.

(** C4, counterexample to the claim as stated: an identity made of [a],
    a double quote and [b] is written without escaping, and the decoder
    reads the identity [a]. *)
Lemma quote_in_identity_breaks_round_trip :
  let g := quoted_sender in
  let buf := replicate (Z.to_nat PN_MAX_MSG_LEN) NUL in
  self_fits g /\
  exists buf' n,
    build_helo_message g 1700000000 buf PN_MAX_MSG_LEN = Some (buf', n) /\ 0 < n /\
    let m := dg_text (mk_datagram (sent_bytes buf' n) (str "10.0.0.5") 1700000001 []) in
    msg_id m = Some (str "a") /\ msg_id m <> Some (id (my_service g)).
Proof.
  cbv zeta. split; [repeat split; try reflexivity; vm_compute; congruence|].
  destruct (build_helo_message quoted_sender 1700000000
              (replicate (Z.to_nat PN_MAX_MSG_LEN) NUL) PN_MAX_MSG_LEN) as [[b n]|] eqn:E;
    vm_compute in E; [|discriminate].
  injection E as <- <-. eexists _, _. split; [reflexivity|].
  split; [reflexivity|]. split; [vm_compute; reflexivity|vm_compute; discriminate].
Qed.

(** What a receiver that does not know the sender reports for the
    message: the callback gets the fields sent, with 0 for a data port
    left out. For capabilities left out it gets whatever the array [caps]
    held on entry. *)
Lemma helo_text_delivered tx now rx t stack_caps sender_ip :
  self_fits tx -> self_quote_free tx ->
  is_self rx (id (my_service tx)) = false -> callback rx = true ->
  unknown_id rx (id (my_service tx)) ->
  (parse_message rx t stack_caps (helo_text tx now) sender_ip).2 =
    [Callback (id (my_service tx)) (service (my_service tx)) (local_ip tx)
       (ctrl_port (my_service tx))
       (if data_port (my_service tx) >? 0 then data_port (my_service tx) else 0)
       (if streq (caps (my_service tx)) [] then stack_caps else caps (my_service tx))
       false].
Proof.
  intros Hfits Hq Hself Hcb Hu.
  destruct (helo_text_fields tx now sender_ip Hfits Hq)
    as (Ht & Hc & Hi & Hs & Hip & Hp & Hd & Hcaps).
  rewrite (parse_message_presence _ _ _ _ _ _ _ Ht Hc Hi Hs Hself). cbv zeta.
  rewrite (find_active_unknown _ _ Hu), Hcb, Hip, Hp, Hd, Hcaps.
  by destruct (find_free (services rx)) as [[k s]|],
       (streq (caps (my_service tx)) []).
Qed.

(** The two scenarios of the specification, run on the model: an instance
    announces as ["A1"], a listener hears the presence message twice and
    then the departure message. The callback fires once for the
    appearance and once for the departure, and the peer is gone. *)
Example scenario_announce_then_leave :
  let msg := replicate (Z.to_nat PN_MAX_MSG_LEN) NUL in
  let helo := broadcast_of (build_helo_message sample_server 1700000000 msg PN_MAX_MSG_LEN) in
  let bye := broadcast_of (build_bye_message sample_server 1700000090 msg PN_MAX_MSG_LEN) in
  let rx := map (fun bytes => mk_datagram bytes (str "10.0.0.5") 1700000000 [])
              (helo ++ helo ++ bye) in
  (listen_run g_listening rx).2 =
    [ Callback (str "A1") (str "sdr_server") (str "10.0.0.5") 4535 4536 (str "rsp2pro,2mhz") false;
      Callback (str "A1") (str "sdr_server") (str "10.0.0.5") 4535 0 [] true ] /\
  pn_find_service_by_id (listen_run g_listening rx).1 (str "A1") = None /\
  pn_get_service_count (listen_run g_listening rx).1 = 0.
Proof. cbv zeta. repeat split; vm_compute; reflexivity. Qed.

(* ===================================================================== *)
(** ** The protocol tag *)
(* ===================================================================== *)

Lemma starts_with_app k y : starts_with k (k ++ y) = true.
Proof. induction k as [|a k IH]; [done|]. cbn [app starts_with]. by rewrite Ascii.eqb_refl. Qed.

(** [strstr] finds every needle that occurs. *)
Lemma strstr_occurs a needle b : is_Some (strstr (a ++ needle ++ b) needle).
Proof.
  induction a as [|c a IH].
  - cbn [app]. destruct (needle ++ b) as [|x t] eqn:E; cbn [strstr];
      rewrite <- E, starts_with_app; by eexists.
  - cbn [app strstr]. by destruct (starts_with needle (c :: a ++ needle ++ b)).
Qed.

Lemma occurs_nowhere_strstr hay needle :
  strstr hay needle = None -> occurs_nowhere needle hay.
Proof.
  intros H pre post ->. destruct (strstr_occurs pre needle post) as [s Hs]. congruence.
Qed.

(** [strstr] returns the first occurrence: the needle starts nowhere
    before it. *)
Lemma strstr_first needle post : forall pre,
  needle <> [] -> occurs_nowhere needle (pre ++ removelast needle) ->
  strstr (pre ++ needle ++ post) needle = Some (needle ++ post).
Proof.
  intros pre Hne. induction pre as [|c pre IH]; intros Hno.
  - cbn [app]. destruct (needle ++ post) as [|x t] eqn:E; cbn [strstr];
      by rewrite <- E, starts_with_app.
  - cbn [app strstr].
    destruct (starts_with needle (c :: pre ++ needle ++ post)) eqn:Hs.
    + exfalso. apply starts_with_split in Hs as [x Hx].
      assert (Hlen : (length needle <= length ((c :: pre) ++ removelast needle))%nat).
      { rewrite length_app. cbn [length].
        rewrite (app_removelast_last NUL Hne) at 1. rewrite length_app. cbn [length]. lia. }
      assert (Hhay : c :: pre ++ needle ++ post
                     = ((c :: pre) ++ removelast needle) ++ [List.last needle NUL] ++ post).
      { rewrite (app_removelast_last NUL Hne) at 1. cbn [app]. by rewrite <- !app_assoc. }
      assert (E : take (length needle) ((c :: pre) ++ removelast needle) = needle).
      { rewrite <- (take_app_le ((c :: pre) ++ removelast needle)
                      ([List.last needle NUL] ++ post)) by done.
        rewrite <- Hhay, Hx. apply take_app_length. }
      apply (Hno [] (drop (length needle) ((c :: pre) ++ removelast needle))).
      cbn [app]. rewrite <- (take_drop (length needle) (c :: pre ++ removelast needle)) at 1.
      cbn [app] in E. by rewrite E.
    + apply IH. intros a b E. apply (Hno (c :: a) b). cbn [app]. by rewrite E.
Qed.

Lemma strchr_none s c : no_char c s = true -> strchr s c = None.
Proof.
  induction s as [|a s IH]; intros Hs; cbn [strchr]; [done|].
  apply no_char_cons in Hs as [Ha Hs].
  replace (Ascii.eqb a c) with false by (symmetry; by apply Ascii.eqb_neq).
  by apply IH.
Qed.

(** What the decoder reads as the tag of a message with another tag. *)
Lemma msg_tag_differs buf : tag_differs buf -> msg_tag buf <> Some PN_MAGIC.
Proof.
  intros (pre & rest & -> & Hfirst & Hrest). unfold msg_tag, json_get_string. cbv zeta.
  change (DQUOTE :: str "m" ++ [DQUOTE; COLON; DQUOTE]) with tag_search.
  rewrite (strstr_first tag_search rest pre) by done. rewrite drop_app_length.
  destruct Hrest as [Hq|(v & post & -> & Hv & Hne)].
  - by rewrite strchr_none.
  - rewrite strchr_word by done. rewrite length_app. cbn [length].
    replace (length v + S (length post) - S (length post))%nat with (length v) by lia.
    intros [= E]. apply Hne.
    destruct (Z.geb_spec (Z.of_nat (length v)) 8).
    + apply (f_equal length) in E. rewrite length_take, length_app in E.
      cbn [length PN_MAGIC str list_ascii_of_string] in E. cbn in E. lia.
    + rewrite Nat2Z.id, take_app_length in E. done.
Qed.

(** C5 (as the code has it). A message in which the text the decoder
    searches for, the quoted key ["m"] with its colon and an opening
    quote, occurs nowhere, or in which the first occurrence of that text
    is followed by another value than [PNSD] or by no closing quote, is
    rejected: [parse_message] returns -1, the state is unchanged and the
    callback is not invoked, whatever else the message holds. *)
Theorem parse_message_rejects_bad_tag g now stack_caps buf sender_ip :
  tag_missing buf \/ tag_differs buf ->
  parse_message g now stack_caps buf sender_ip = (-1, g, []).
Proof.
  intros H.
  assert (Hne : msg_tag buf <> Some PN_MAGIC).
  { destruct H as [H|H]; [by rewrite (msg_tag_missing _ H)|by apply msg_tag_differs]. }
  unfold msg_tag in Hne. unfold parse_message.
  destruct (json_get_string buf (str "m") 8) as [magic|]; [|done].
  destruct (streq magic PN_MAGIC) eqn:E; [|done].
  apply streq_true in E. congruence.
Qed.

Lemma parse_message_rejects_bad_tag_witness :
  let m := sample_bye (str "XNSD") (str "A1") in
  let g := sample_state false [] one_peer_registry in
  (tag_missing m \/ tag_differs m) /\
  parse_message g 100 [] m (str "10.0.0.7") = (-1, g, []).
Proof.
  cbv zeta.
  assert (H : tag_missing (sample_bye (str "XNSD") (str "A1")) \/
              tag_differs (sample_bye (str "XNSD") (str "A1"))).
  { right. exists [LBRACE], (drop 6 (sample_bye (str "XNSD") (str "A1"))).
    split; [reflexivity|]. split.
    - apply occurs_nowhere_strstr. reflexivity.
    - right. exists (str "XNSD"), (drop 11 (sample_bye (str "XNSD") (str "A1"))).
      split; [reflexivity|]. split; [reflexivity|]. discriminate. }
  split; [exact H|].
  exact (parse_message_rejects_bad_tag (sample_state false [] one_peer_registry) 100 []
           (sample_bye (str "XNSD") (str "A1")) (str "10.0.0.7") H).
Defined.

(** C5, counterexample to the claim as stated: the tag key of this
    message carries the number 7, not [PNSD]. The decoder looks for the
    key followed by an opening quote, passes over the first field and
    reads the tag from the second field of that key: the message is
    accepted, the peer is stored and the callback is invoked. *)
Lemma tag_of_another_value_is_accepted :
  let m := message_text disguised_tag_items in
  let r := parse_message g_listening 100 [] m (str "10.0.0.9") in
  (exists rest, m = LBRACE :: DQUOTE :: str "m" ++ [DQUOTE; COLON] ++ str "7" ++ COMMA :: rest) /\
  r.1.1 = 0 /\
  r.2 = [Callback (str "Z9") (str "waterfall") (str "10.0.0.9") 0 0 [] false] /\
  is_Some (pn_find_service_by_id r.1.2 (str "Z9")) /\
  pn_get_service_count r.1.2 = pn_get_service_count g_listening + 1.
Proof.
  cbv zeta. split; [eexists; vm_compute; reflexivity|].
  split; [vm_compute; reflexivity|]. split; [vm_compute; reflexivity|].
  split; [vm_compute; by eexists|vm_compute; reflexivity].
Qed.

(* ===================================================================== *)
(** ** What one message can and cannot do *)
(* ===================================================================== *)

Lemma count_insert l k x y :
  l !! k = Some x ->
  (length (filter (fun s => active s = true) (<[k := y]> l)) + (if active x then 1 else 0)
   = length (filter (fun s => active s = true) l) + (if active y then 1 else 0))%nat.
Proof.
  intros Hk. rewrite insert_take_drop by by eapply lookup_lt_Some.
  rewrite <- (take_drop_middle l k x Hk) at 3.
  rewrite !filter_app, !length_app.
  destruct (active x) eqn:Hx, (active y) eqn:Hy;
    rewrite ?(filter_cons_True _ x), ?(filter_cons_True _ y),
      ?(filter_cons_False _ x), ?(filter_cons_False _ y) by congruence;
    cbn [length]; lia.
Qed.

Lemma service_count_insert g k x y :
  length (services g) = PN_MAX_SERVICES -> services g !! k = Some x ->
  pn_get_service_count (set_services g (<[k := y]> (services g)))
  + (if active x then 1 else 0)
  = pn_get_service_count g + (if active y then 1 else 0).
Proof.
  intros Hlen Hk. unfold pn_get_service_count. cbn [services set_services].
  rewrite !take_ge by (rewrite ?length_insert; lia).
  pose proof (count_insert _ k x y Hk) as H.
  destruct (active x), (active y); lia.
Qed.

(** X1. Whatever is received, [parse_message] returns 0 or -1 and invokes
    the callback at most once, and not at all when none is registered.
    When it returns -1 nothing has changed. It never touches the
    announcing flag, the self descriptor, the callback or the local
    address, keeps the number of slots, and changes at most one slot. *)
Theorem parse_message_contained g now stack_caps buf sender_ip :
  let r := parse_message g now stack_caps buf sender_ip in
  (r.1.1 = 0 \/ r.1.1 = -1) /\
  (r.1.1 = -1 -> r.1.2 = g /\ r.2 = []) /\
  (length r.2 <= 1)%nat /\ (callback g = false -> r.2 = []) /\
  announcing r.1.2 = announcing g /\ my_service r.1.2 = my_service g /\
  callback r.1.2 = callback g /\ local_ip r.1.2 = local_ip g /\
  length (services r.1.2) = length (services g) /\
  exists k, forall j, j <> k -> services r.1.2 !! j = services g !! j.
Proof.
  cbv zeta. unfold parse_message.
  repeat case_match; cbn [fst snd services set_services announcing my_service callback
    local_ip length];
    repeat split; try done; try lia; try (by left); try (by right);
    try (by rewrite length_insert); try (by exists 0%nat);
    try (eexists; intros j Hj; by rewrite list_lookup_insert_ne);
    try (by destruct (callback g)); try (intros ->; by rewrite ?andb_false_r).
Qed.

(** X2. A presence message of an identity that is not the instance's own
    announced identity and already has an active record only refreshes
    that record in place: 0 is returned, the callback is not invoked and
    the number of active records stays the same. *)
Theorem known_peer_heartbeat_is_silent g now stack_caps buf sender_ip i s0 :
  length (services g) = PN_MAX_SERVICES ->
  presence buf i -> is_self g i = false ->
  pn_find_service_by_id g i = Some s0 ->
  exists k svc,
    msg_svc buf = Some svc /\ services g !! k = Some s0 /\
    parse_message g now stack_caps buf sender_ip =
      (0, set_services g
            (<[k := stored_record now stack_caps buf sender_ip i svc]> (services g)), []) /\
    pn_get_service_count (parse_message g now stack_caps buf sender_ip).1.2
    = pn_get_service_count g.
Proof.
  intros Hlen (Ht & Hc & Hi & [svc Hs]) Hself Hfind.
  unfold pn_find_service_by_id in Hfind.
  destruct (find_active (services g) i) as [[k s]|] eqn:Hf; [|done].
  cbn in Hfind. injection Hfind as ->.
  destruct (find_active_Some _ _ _ _ Hf) as (Hk & Ha & _).
  exists k, svc. split; [done|]. split; [done|].
  rewrite (parse_message_presence _ _ _ _ _ i svc) by done. cbv zeta. rewrite Hf.
  split; [done|]. cbn [fst snd].
  pose proof (service_count_insert g k s0
                (stored_record now stack_caps buf sender_ip i svc) Hlen Hk) as H.
  rewrite Ha in H. cbn [active stored_record] in H. lia.
Qed.

Lemma known_peer_heartbeat_is_silent_witness :
  let g := sample_state false [] one_peer_registry in
  let buf := sample_helo (str "A1") (str "waterfall") in
  length (services g) = PN_MAX_SERVICES /\ presence buf (str "A1") /\
  is_self g (str "A1") = false /\
  pn_find_service_by_id g (str "A1") = Some (sample_peer (str "A1")) /\
  exists k svc,
    msg_svc buf = Some svc /\ services g !! k = Some (sample_peer (str "A1")) /\
    parse_message g 100 [] buf (str "10.0.0.7") =
      (0, set_services g
            (<[k := stored_record 100 [] buf (str "10.0.0.7") (str "A1") svc]> (services g)), []) /\
    pn_get_service_count (parse_message g 100 [] buf (str "10.0.0.7")).1.2
    = pn_get_service_count g.
Proof.
  cbv zeta.
  assert (Hp : presence (sample_helo (str "A1") (str "waterfall")) (str "A1")).
  { repeat split; try (vm_compute; reflexivity). by eexists. }
  split; [reflexivity|]. split; [exact Hp|]. split; [reflexivity|].
  split; [vm_compute; reflexivity|].
  exact (known_peer_heartbeat_is_silent (sample_state false [] one_peer_registry)
           100 [] _ (str "10.0.0.7") _ (sample_peer (str "A1")) eq_refl Hp eq_refl eq_refl).
Defined.

Lemma find_free_first g k : 
  length (services g) = PN_MAX_SERVICES -> first_free_slot g k ->
  exists s, find_free (services g) = Some (k, s) /\ services g !! k = Some s /\ active s = false.
Proof.
  intros Hlen [(s & Hk & Ha) Hbelow]. exists s. split; [|done].
  unfold find_free. rewrite take_ge by lia. apply list_find_Some.
  split; [done|]. split; [done|]. intros j y Hj Hlt Hy.
  specialize (Hbelow j y Hlt Hj). congruence.
Qed.

Lemma find_active_stored l k r i :
  (k < length l)%nat -> (length l <= PN_MAX_SERVICES)%nat ->
  active r = true -> id r = i ->
  (forall j s, (j < k)%nat -> l !! j = Some s -> active s = true -> id s <> i) ->
  find_active (<[k := r]> l) i = Some (k, r).
Proof.
  intros Hk Hlen Ha Hi Hbelow. unfold find_active.
  rewrite take_ge by (rewrite length_insert; lia). apply list_find_Some.
  split; [by apply list_lookup_insert_eq|]. split; [done|].
  intros j y Hj Hlt [Hya Hyi]. rewrite list_lookup_insert_ne in Hj by lia.
  by apply (Hbelow j y).
Qed.

(** X3. A presence message of an unknown identity, not the instance's own
    announced identity, is stored in the first slot that is not active.
    The callback, when registered, is invoked once with the identity, the
    service type, the address and the ports read from the message, and
    with the capabilities of the message or, when the message has no
    [caps] key, with whatever the local array [caps] held on entry. The
    new record is what a lookup by identity returns, and there is one
    more active record. *)
Theorem new_peer_takes_first_free_slot g now stack_caps buf sender_ip i svc k :
  length (services g) = PN_MAX_SERVICES ->
  presence buf i -> msg_svc buf = Some svc -> is_self g i = false ->
  unknown_id g i -> first_free_slot g k ->
  let r := stored_record now stack_caps buf sender_ip i svc in
  let g' := (parse_message g now stack_caps buf sender_ip).1.2 in
  parse_message g now stack_caps buf sender_ip =
    (0, set_services g (<[k := r]> (services g)),
     if callback g
     then [Callback i svc (msg_ip buf sender_ip) (msg_port buf) (msg_data buf)
             (default stack_caps (msg_caps buf)) false]
     else []) /\
  pn_find_service_by_id g' i = Some r /\
  pn_get_service_count g' = pn_get_service_count g + 1.
Proof.
  intros Hlen (Ht & Hc & Hi & _) Hs Hself Hu Hfree. cbv zeta.
  destruct (find_free_first g k Hlen Hfree) as (s & Hf & Hk & Ha).
  rewrite (parse_message_presence _ _ _ _ _ i svc) by done. cbv zeta.
  rewrite (find_active_unknown _ _ Hu), Hf. split; [done|]. cbn [fst snd]. split.
  - unfold pn_find_service_by_id. cbn [services set_services].
    rewrite (find_active_stored _ k _ i); [done|by eapply lookup_lt_Some|lia|done|done|].
    intros j y _ Hj. by apply (Hu j y).
  - pose proof (service_count_insert g k s
                  (stored_record now stack_caps buf sender_ip i svc) Hlen Hk) as H.
    rewrite Ha in H. cbn [active stored_record] in H. lia.
Qed.

Lemma new_peer_takes_first_free_slot_witness :
  let g := sample_state false [] one_peer_registry in
  let buf := sample_helo (str "B2") (str "waterfall") in
  let r := stored_record 100 [] buf (str "10.0.0.8") (str "B2") (str "waterfall") in
  let g' := (parse_message g 100 [] buf (str "10.0.0.8")).1.2 in
  length (services g) = PN_MAX_SERVICES /\ presence buf (str "B2") /\
  msg_svc buf = Some (str "waterfall") /\ is_self g (str "B2") = false /\
  unknown_id g (str "B2") /\ first_free_slot g 1 /\
  parse_message g 100 [] buf (str "10.0.0.8") =
    (0, set_services g (<[1%nat := r]> (services g)),
     if callback g
     then [Callback (str "B2") (str "waterfall") (msg_ip buf (str "10.0.0.8")) (msg_port buf)
             (msg_data buf) (default [] (msg_caps buf)) false]
     else []) /\
  pn_find_service_by_id g' (str "B2") = Some r /\
  pn_get_service_count g' = pn_get_service_count g + 1.
Proof.
  cbv zeta.
  assert (Hp : presence (sample_helo (str "B2") (str "waterfall")) (str "B2")).
  { repeat split; try (vm_compute; reflexivity). by eexists. }
  assert (Hs : msg_svc (sample_helo (str "B2") (str "waterfall")) = Some (str "waterfall"))
    by (vm_compute; reflexivity).
  assert (Hu : unknown_id (sample_state false [] one_peer_registry) (str "B2")).
  { refine (proj1 (find_active_None _ _ _) _); [vm_compute; lia | vm_compute; reflexivity]. }
  assert (Hf : first_free_slot (sample_state false [] one_peer_registry) 1).
  { split; [by exists zero_service|]. intros j s Hj Hl.
    assert (j = 0)%nat as -> by lia. by injection Hl as <-. }
  split; [reflexivity|]. split; [exact Hp|]. split; [exact Hs|]. split; [reflexivity|].
  split; [exact Hu|]. split; [exact Hf|].
  exact (new_peer_takes_first_free_slot (sample_state false [] one_peer_registry)
           100 [] _ (str "10.0.0.8") _ _ 1%nat eq_refl Hp Hs eq_refl Hu Hf).
Defined.

Lemma list_find_insert_other {A} (P : A -> Prop) `{!forall x, Decision (P x)} l k x y :
  l !! k = Some x -> ~ P x -> ~ P y -> list_find P (<[k := y]> l) = list_find P l.
Proof.
  intros Hk Hx Hy. apply option_eq. intros [j z]. rewrite !list_find_Some.
  split; intros (Hj & HP & Hleast).
  - apply list_lookup_insert_Some in Hj as [(-> & <- & _)|[Hjk Hj]]; [done|].
    split; [done|]. split; [done|]. intros m w Hm Hlt.
    destruct (decide (m = k)) as [->|Hmk]; [congruence|].
    apply (Hleast m w); [by rewrite list_lookup_insert_ne|done].
  - assert (j <> k) by (intros ->; congruence).
    split; [by rewrite list_lookup_insert_ne|]. split; [done|]. intros m w Hm Hlt.
    apply list_lookup_insert_Some in Hm as [(-> & <- & _)|[Hmk Hm]]; [done|].
    by apply (Hleast m w).
Qed.

Lemma find_active_insert_other l k x y j :
  l !! k = Some x ->
  ~ (active x = true /\ id x = j) -> ~ (active y = true /\ id y = j) ->
  find_active (<[k := y]> l) j = find_active l j.
Proof.
  intros Hk Hx Hy. unfold find_active.
  destruct (decide (k < PN_MAX_SERVICES)%nat) as [Hlt|Hge].
  - rewrite take_insert_lt by done. apply (list_find_insert_other _ _ k x); [|done..].
    by rewrite lookup_take_lt.
  - by rewrite take_insert_ge by lia.
Qed.

(** The one slot a message can change holds, before and after, no active
    record of any identity but the one the message carries. *)
Lemma parse_message_slot_change g now stack_caps buf sender_ip :
  let g' := (parse_message g now stack_caps buf sender_ip).1.2 in
  g' = g \/
  exists i k x y,
    msg_id buf = Some i /\ services g !! k = Some x /\
    g' = set_services g (<[k := y]> (services g)) /\
    (active x = true -> id x = i) /\ (active y = true -> id y = i).
Proof.
  cbv zeta. unfold msg_id, parse_message.
  destruct (json_get_string buf (str "m") 8) as [magic|]; [|by left].
  destruct (negb (streq magic PN_MAGIC)); [by left|].
  destruct (json_get_string buf (str "cmd") 16) as [cmd|]; [|by left].
  destruct (json_get_string buf (str "id") PN_MAX_ID_LEN) as [i|] eqn:Hi; [|by left].
  destruct (announcing g && streq i (id (my_service g))); [by left|].
  destruct (streq cmd (str "helo")).
  - destruct (json_get_string buf (str "svc") PN_MAX_SERVICE_LEN) as [svc|]; [|by left].
    assert (Hfit : strncpy i (Z.to_nat (PN_MAX_ID_LEN - 1)) = i).
    { apply strncpy_fits. by apply json_get_string_fits in Hi. }
    destruct (find_active (services g) i) as [[k s0]|] eqn:Hf; cbn [fst snd].
    + apply find_active_Some in Hf as (Hk & Ha & Hid & _).
      right. eexists i, k, s0, _. repeat split; [done| |]; cbn [id]; by rewrite ?Hfit.
    + destruct (find_free (services g)) as [[k s0]|] eqn:Hfree;
        cbn [fmap option_fmap option_map fst].
      * apply find_free_Some in Hfree as (Hk & Ha & _).
        right. eexists i, k, s0, _. repeat split; [done| |]; cbn [id];
          [congruence|by rewrite Hfit].
      * left. apply set_services_same.
  - destruct (streq cmd (str "bye")); [|by left].
    destruct (find_active (services g) i) as [[k s0]|] eqn:Hf; [|by left].
    apply find_active_Some in Hf as (Hk & Ha & Hid & _).
    right. eexists i, k, s0, _. by repeat split.
Qed.

(** X4. A message leaves the lookup of every identity other than the one
    it carries as it was: presence and departure of one peer never hide,
    reveal or alter another. *)
Theorem other_identities_undisturbed g now stack_caps buf sender_ip j :
  msg_id buf <> Some j ->
  pn_find_service_by_id (parse_message g now stack_caps buf sender_ip).1.2 j
  = pn_find_service_by_id g j.
Proof.
  intros Hne.
  destruct (parse_message_slot_change g now stack_caps buf sender_ip)
    as [->|(i & k & x & y & Hi & Hk & -> & Hx & Hy)]; [done|].
  unfold pn_find_service_by_id. cbn [services set_services].
  rewrite (find_active_insert_other _ k x y j); [done|done|..].
  - intros [Ha Hid]. apply Hne. rewrite Hi. f_equal. by rewrite <- Hx.
  - intros [Ha Hid]. apply Hne. rewrite Hi. f_equal. by rewrite <- Hy.
Qed.

Lemma other_identities_undisturbed_witness :
  let g := sample_state false [] one_peer_registry in
  let buf := sample_bye PN_MAGIC (str "B2") in
  msg_id buf <> Some (str "A1") /\
  pn_find_service_by_id (parse_message g 100 [] buf (str "10.0.0.8")).1.2 (str "A1")
  = pn_find_service_by_id g (str "A1").
Proof.
  cbv zeta.
  assert (H : msg_id (sample_bye PN_MAGIC (str "B2")) <> Some (str "A1"))
    by (vm_compute; discriminate).
  split; [exact H|].
  exact (other_identities_undisturbed (sample_state false [] one_peer_registry)
           100 [] _ (str "10.0.0.8") _ H).
Defined.

(** X5. In a registry whose active records have distinct identities,
    after the departure message of a peer with an active record, whose
    identity is not the instance's own announced identity, a lookup by
    that identity finds nothing and there is one active record fewer. *)
Theorem departed_peer_not_found g now stack_caps buf sender_ip i s :
  length (services g) = PN_MAX_SERVICES -> unique_ids (services g) ->
  departure buf i -> is_self g i = false ->
  pn_find_service_by_id g i = Some s ->
  let g' := (parse_message g now stack_caps buf sender_ip).1.2 in
  pn_find_service_by_id g' i = None /\
  pn_get_service_count g' = pn_get_service_count g - 1.
Proof.
  intros Hlen Hu Hd Hself Hfind. cbv zeta.
  unfold pn_find_service_by_id in Hfind.
  destruct (find_active (services g) i) as [[k s']|] eqn:Hf; [|done].
  cbn in Hfind. injection Hfind as ->.
  destruct (find_active_Some _ _ _ _ Hf) as (Hk & Ha & Hid & _).
  rewrite (parse_message_departure _ _ _ _ _ i) by done. rewrite Hf. cbn [fst snd]. split.
  - unfold pn_find_service_by_id. cbn [services set_services].
    replace (find_active (<[k := set_active s false]> (services g)) i) with
      (@None (nat * pn_service_t)); [done|].
    symmetry. apply find_active_None; [rewrite length_insert; lia|].
    intros j y Hj Hya Hyi.
    apply list_lookup_insert_Some in Hj as [(-> & <- & _)|[Hjk Hj]]; [done|].
    apply Hjk. symmetry. apply (Hu j k y s); congruence.
  - pose proof (service_count_insert g k s (set_active s false) Hlen Hk) as H.
    rewrite Ha in H. cbn [active set_active] in H. lia.
Qed.

Lemma departed_peer_not_found_witness :
  let g := sample_state false [] one_peer_registry in
  let buf := sample_bye PN_MAGIC (str "A1") in
  let g' := (parse_message g 100 [] buf (str "10.0.0.7")).1.2 in
  length (services g) = PN_MAX_SERVICES /\ unique_ids (services g) /\
  departure buf (str "A1") /\ is_self g (str "A1") = false /\
  pn_find_service_by_id g (str "A1") = Some (sample_peer (str "A1")) /\
  pn_find_service_by_id g' (str "A1") = None /\
  pn_get_service_count g' = pn_get_service_count g - 1.
Proof.
  cbv zeta.
  assert (Hu : unique_ids (services (sample_state false [] one_peer_registry)))
    by apply unique_ids_one_peer.
  assert (Hd : departure (sample_bye PN_MAGIC (str "A1")) (str "A1")).
  { repeat split; vm_compute; reflexivity. }
  split; [reflexivity|]. split; [exact Hu|]. split; [exact Hd|]. split; [reflexivity|].
  split; [vm_compute; reflexivity|].
  exact (departed_peer_not_found (sample_state false [] one_peer_registry)
           100 [] _ (str "10.0.0.7") _ (sample_peer (str "A1"))
           eq_refl Hu Hd eq_refl eq_refl).
Defined.

(** X6. A message with a valid tag and an identity whose command is
    neither [helo] nor [bye] is accepted and ignored: 0 is returned, the
    state is unchanged and the callback is not invoked. *)
Theorem unknown_command_ignored g now stack_caps buf sender_ip cmd i :
  msg_tag buf = Some PN_MAGIC -> msg_cmd buf = Some cmd -> msg_id buf = Some i ->
  cmd <> str "helo" -> cmd <> str "bye" ->
  parse_message g now stack_caps buf sender_ip = (0, g, []).
Proof.
  unfold msg_tag, msg_cmd, msg_id. intros Ht Hc Hi Hh Hb.
  unfold parse_message. rewrite Ht, Hc, Hi, streq_refl. cbn [negb].
  apply streq_false in Hh, Hb. rewrite Hh, Hb.
  by destruct (announcing g && streq i (id (my_service g))).
Qed.

(** X7. A message with a valid tag that lacks the command or the identity
    is rejected: -1 is returned, the state is unchanged and the callback
    is not invoked. *)
Theorem incomplete_message_rejected g now stack_caps buf sender_ip :
  msg_tag buf = Some PN_MAGIC -> msg_cmd buf = None \/ msg_id buf = None ->
  parse_message g now stack_caps buf sender_ip = (-1, g, []).
Proof.
  unfold msg_tag, msg_cmd, msg_id. intros Ht H.
  unfold parse_message. rewrite Ht, streq_refl. cbn [negb].
  destruct H as [-> | H]; [done|].
  rewrite H. by destruct (json_get_string buf (str "cmd") 16).
Qed.

Lemma unknown_command_ignored_witness :
  let g := sample_state false [] one_peer_registry in
  let buf := sample_command (str "ping") (str "A1") in
  msg_tag buf = Some PN_MAGIC /\ msg_cmd buf = Some (str "ping") /\
  msg_id buf = Some (str "A1") /\ str "ping" <> str "helo" /\ str "ping" <> str "bye" /\
  parse_message g 100 [] buf (str "10.0.0.7") = (0, g, []).
Proof.
  cbv zeta. do 3 (split; [vm_compute; reflexivity|]). do 2 (split; [discriminate|]).
  apply (unknown_command_ignored _ _ _ _ _ (str "ping") (str "A1"));
    try (vm_compute; reflexivity); discriminate.
Defined.

Lemma incomplete_message_rejected_witness :
  let g := sample_state false [] one_peer_registry in
  msg_tag sample_no_id = Some PN_MAGIC /\
  (msg_cmd sample_no_id = None \/ msg_id sample_no_id = None) /\
  parse_message g 100 [] sample_no_id (str "10.0.0.7") = (-1, g, []).
Proof.
  cbv zeta.
  assert (H : msg_cmd sample_no_id = None \/ msg_id sample_no_id = None)
    by (right; vm_compute; reflexivity).
  split; [vm_compute; reflexivity|]. split; [exact H|].
  apply incomplete_message_rejected; [vm_compute; reflexivity|exact H].
Defined.

(* ===================================================================== *)
(** ** The listener over several datagrams *)
(* ===================================================================== *)

Lemma known_by_slot g k r i :
  (length (services g) <= PN_MAX_SERVICES)%nat ->
  services g !! k = Some r -> active r = true -> id r = i ->
  is_Some (pn_find_service_by_id g i).
Proof.
  intros Hlen Hk Ha Hi. unfold pn_find_service_by_id.
  destruct (find_active (services g) i) as [[j s]|] eqn:Hf; [by eexists|].
  exfalso. by apply (proj1 (find_active_None _ _ Hlen) Hf k r).
Qed.

Lemma listen_step_frame g d i :
  presence (dg_text d) i ->
  length (services (listen_step g d).1) = length (services g) /\
  forall j, is_self (listen_step g d).1 j = is_self g j.
Proof.
  intros Hp. rewrite (listen_step_presence g d i Hp). cbn [fst]. split.
  - apply parse_message_length.
  - intros j. apply parse_message_is_self.
Qed.

(** A presence message of a known identity: no callback, still known. *)
Lemma listen_step_known g d i :
  length (services g) = PN_MAX_SERVICES -> is_self g i = false ->
  presence (dg_text d) i -> is_Some (pn_find_service_by_id g i) ->
  (listen_step g d).2 = [] /\ is_Some (pn_find_service_by_id (listen_step g d).1 i).
Proof.
  intros Hlen Hself Hp [s Hs]. unfold pn_find_service_by_id in Hs.
  destruct (find_active (services g) i) as [[k s']|] eqn:Hf; [|done]. split.
  - rewrite (listen_step_presence g d i Hp). cbn [snd].
    destruct Hp as (Ht & Hc & Hi & [svc Hsvc]).
    rewrite (parse_message_presence _ _ _ _ _ i svc) by done. cbv zeta. by rewrite Hf.
  - destruct (find_active_Some _ _ _ _ Hf) as (Hk & Ha & Hid & _).
    destruct (listen_step_presence_stored g d i Hlen Hself) as (k' & svc & _ & Hk'); [|done|].
    { exists k, s'. by split. }
    destruct (listen_step_frame g d i Hp) as [Hlen' _].
    eapply (known_by_slot _ k'); [lia|exact Hk'|done..].
Qed.

Lemma listen_run_known g ds i :
  length (services g) = PN_MAX_SERVICES -> is_self g i = false ->
  Forall (fun d => presence (dg_text d) i) ds -> is_Some (pn_find_service_by_id g i) ->
  (listen_run g ds).2 = [].
Proof.
  revert g. induction ds as [|d ds IH]; intros g Hlen Hself Hall Hknown; [done|].
  apply Forall_cons in Hall as [Hp Hall]. cbn [listen_run snd].
  destruct (listen_step_known g d i Hlen Hself Hp Hknown) as [-> Hknown'].
  destruct (listen_step_frame g d i Hp) as [Hlen' Hself'].
  rewrite IH; [done|lia|by rewrite Hself'|done..].
Qed.

(** At a full registry that does not hold the peer, every presence
    message of the peer invokes the callback and stores nothing. *)
Lemma listen_run_full g i : forall ds,
  registry_full g -> unknown_id g i -> is_self g i = false -> callback g = true ->
  Forall (fun d => presence (dg_text d) i) ds ->
  listen_run g ds = (g, map (fun d => presence_event d i) ds).
Proof.
  intros ds Hfull Hu Hself Hcb. induction ds as [|d ds IH]; intros Hall; [done|].
  apply Forall_cons in Hall as [Hp Hall]. cbn [listen_run map].
  rewrite (listen_step_presence g d i Hp). destruct Hp as (Ht & Hc & Hi & [svc Hs]).
  rewrite (parse_message_registry_full _ _ _ _ _ i svc) by done.
  cbn [fst snd]. rewrite (IH Hall), Hcb. cbn [fst snd app].
  unfold presence_event. by rewrite Hs.
Qed.

(** X8. Presence messages of one identity, not the instance's own,
    received one after the other with a callback registered. While the
    registry has a slot that is free or already holds the peer, the
    callback fires once for the appearance of the peer and never for the
    heartbeats that follow; for a peer already known it does not fire at
    all. At a full registry that does not hold the peer, every one of the
    messages invokes the callback and the registry stays as it is. *)
Theorem repeated_presence_one_callback g d ds i :
  length (services g) = PN_MAX_SERVICES -> is_self g i = false -> callback g = true ->
  Forall (fun d => presence (dg_text d) i) (d :: ds) ->
  (has_room g i ->
   (listen_run g (d :: ds)).2 =
     match pn_find_service_by_id g i with
     | Some _ => []
     | None => [presence_event d i]
     end) /\
  (registry_full g -> unknown_id g i ->
   listen_run g (d :: ds) = (g, map (fun d => presence_event d i) (d :: ds))).
Proof.
  intros Hlen Hself Hcb Hall. split; [intros Hroom|intros Hfull Hu; by apply listen_run_full].
  destruct (pn_find_service_by_id g i) as [s|] eqn:Hfind.
  - apply (listen_run_known g (d :: ds) i); [done..|]. rewrite Hfind. by eexists.
  - apply Forall_cons in Hall as [Hp Hall]. cbn [listen_run snd].
    destruct (listen_step_frame g d i Hp) as [Hlen' Hself'].
    destruct (listen_step_presence_stored g d i Hlen Hself Hroom Hp) as (k & svc & Hsvc & Hk).
    rewrite (listen_run_known _ ds i); [|lia|by rewrite Hself'|done|];
      [|eapply (known_by_slot _ k); [lia|exact Hk|done..]].
    rewrite app_nil_r, (listen_step_presence g d i Hp). cbn [snd].
    destruct Hp as (Ht & Hc & Hi & _).
    rewrite (parse_message_presence _ _ _ _ _ i svc) by done. cbv zeta.
    unfold pn_find_service_by_id in Hfind.
    destruct (find_active (services g) i) as [[k0 s0]|] eqn:Hf; [done|].
    unfold presence_event. rewrite Hsvc, Hcb. cbn [default].
    by destruct (find_free (services g)) as [[k1 s1]|].
Qed.

Lemma repeated_presence_one_callback_witness :
  let g := sample_state false [] one_peer_registry in
  let d := mk_datagram (sample_helo (str "B2") (str "waterfall")) (str "10.0.0.8") 100 [] in
  length (services g) = PN_MAX_SERVICES /\ is_self g (str "B2") = false /\
  callback g = true /\ has_room g (str "B2") /\
  Forall (fun d => presence (dg_text d) (str "B2")) (d :: [d; d]) /\
  (listen_run g (d :: [d; d])).2 =
    match pn_find_service_by_id g (str "B2") with
    | Some _ => []
    | None => [presence_event d (str "B2")]
    end.
Proof.
  cbv zeta.
  assert (Hr : has_room (sample_state false [] one_peer_registry) (str "B2")).
  { exists 1%nat, zero_service. by split. }
  assert (Hp : presence
    (dg_text (mk_datagram (sample_helo (str "B2") (str "waterfall")) (str "10.0.0.8") 100 []))
    (str "B2")).
  { repeat split; try (vm_compute; reflexivity). by eexists. }
  assert (Hall : Forall (fun d => presence (dg_text d) (str "B2"))
    (mk_datagram (sample_helo (str "B2") (str "waterfall")) (str "10.0.0.8") 100 []
     :: [mk_datagram (sample_helo (str "B2") (str "waterfall")) (str "10.0.0.8") 100 [];
         mk_datagram (sample_helo (str "B2") (str "waterfall")) (str "10.0.0.8") 100 []]))
    by (repeat (apply Forall_cons_2; [exact Hp|]); apply Forall_nil_2).
  split; [reflexivity|]. split; [reflexivity|]. split; [reflexivity|].
  split; [exact Hr|]. split; [exact Hall|].
  exact (proj1 (repeated_presence_one_callback (sample_state false [] one_peer_registry)
                  _ _ (str "B2") eq_refl eq_refl eq_refl Hall) Hr).
Defined.

Lemma c_str_app_nul a x : c_str (a ++ NUL :: x) = c_str a.
Proof.
  induction a as [|c a IH]; cbn [app c_str]; [by rewrite Ascii.eqb_refl|].
  destruct (Ascii.eqb c NUL); [done|]. by rewrite IH.
Qed.

(** X9. The listener reads a datagram as a string: whatever follows the
    first NUL byte has no effect on the state or on the callback. *)
Theorem bytes_after_nul_ignored g bytes junk sender t stack_caps :
  bytes <> [] -> zlen bytes < PN_MAX_MSG_LEN - 1 ->
  listen_step g (mk_datagram (bytes ++ NUL :: junk) sender t stack_caps)
  = listen_step g (mk_datagram bytes sender t stack_caps).
Proof.
  intros Hne Hlen. unfold listen_step, dg_text, zlen, PN_MAX_MSG_LEN in *.
  cbn [dg_bytes dg_time dg_stack_caps dg_sender].
  assert (0 < length bytes)%nat by (destruct bytes; [done|cbn; lia]).
  rewrite length_app. cbn [length].
  destruct (Z.ltb_spec 0 (Z.of_nat (length bytes + S (length junk)) `min` (1024 - 1))); [|lia].
  destruct (Z.ltb_spec 0 (Z.of_nat (length bytes) `min` (1024 - 1))); [|lia].
  rewrite take_app, (take_ge bytes) by lia.
  replace (Z.to_nat (1024 - 1) - length bytes)%nat
    with (S (Z.to_nat (1024 - 1) - length bytes - 1)) by lia.
  cbn [take]. by rewrite c_str_app_nul.
Qed.

Lemma bytes_after_nul_ignored_witness :
  let g := sample_state false [] one_peer_registry in
  let bytes := sample_bye PN_MAGIC (str "A1") in
  bytes <> [] /\ zlen bytes < PN_MAX_MSG_LEN - 1 /\
  listen_step g (mk_datagram (bytes ++ NUL :: sample_helo (str "B2") (str "x"))
                   (str "10.0.0.7") 100 [])
  = listen_step g (mk_datagram bytes (str "10.0.0.7") 100 []).
Proof.
  cbv zeta.
  assert (H1 : sample_bye PN_MAGIC (str "A1") <> []) by discriminate.
  assert (H2 : zlen (sample_bye PN_MAGIC (str "A1")) < PN_MAX_MSG_LEN - 1) by reflexivity.
  split; [exact H1|]. split; [exact H2|].
  exact (bytes_after_nul_ignored _ _ _ _ _ _ H1 H2).
Defined.

(* ===================================================================== *)
(** ** Queries *)
(* ===================================================================== *)

(** X10. [pn_get_services] returns as many entries as there are active
    records, capped at [max_count] (none for a negative [max_count]);
    there are never more than [PN_MAX_SERVICES] active records, so an
    array of that size receives them all. *)
Theorem snapshot_size g max_count :
  (pn_get_services g max_count).1
    = Z.max 0 (Z.min max_count (pn_get_service_count g)) /\
  0 <= pn_get_service_count g <= Z.of_nat PN_MAX_SERVICES /\
  (pn_get_services g (Z.of_nat PN_MAX_SERVICES)).2
    = filter (fun s => active s = true) (take PN_MAX_SERVICES (services g)).
Proof.
  unfold pn_get_services, pn_get_service_count. cbn [fst snd].
  rewrite !get_services_loop_spec. cbn [app length]. rewrite !Nat.sub_0_r.
  pose proof (length_filter (fun s => active s = true) (take PN_MAX_SERVICES (services g))) as H.
  rewrite length_take in H.
  split; [rewrite length_take; lia|]. split; [lia|].
  rewrite Nat2Z.id. apply take_ge. lia.
Qed.

(** X11. [pn_find_service] scans from slot 0: a newly registered peer is
    the one returned for its service type when no lower slot holds that
    type, whatever older records of the type sit in higher slots. *)
Theorem new_peer_found_by_type g now stack_caps buf sender_ip i svc k :
  length (services g) = PN_MAX_SERVICES ->
  presence buf i -> msg_svc buf = Some svc -> is_self g i = false ->
  unknown_id g i -> first_free_slot g k ->
  (forall j s, (j < k)%nat -> services g !! j = Some s -> service s <> svc) ->
  pn_find_service (parse_message g now stack_caps buf sender_ip).1.2 svc
  = Some (stored_record now stack_caps buf sender_ip i svc).
Proof.
  intros Hlen (Ht & Hc & Hi & _) Hs Hself Hu Hfree Hbelow.
  destruct (find_free_first g k Hlen Hfree) as (s & Hf & Hk & Ha).
  rewrite (parse_message_presence _ _ _ _ _ i svc) by done. cbv zeta.
  rewrite (find_active_unknown _ _ Hu), Hf. cbn [fst snd].
  unfold pn_find_service. cbn [services set_services].
  assert (Hlt : (k < length (services g))%nat) by by eapply lookup_lt_Some.
  rewrite take_ge by (rewrite length_insert; lia).
  replace (list_find _ _) with
    (Some (k, stored_record now stack_caps buf sender_ip i svc)); [done|].
  symmetry. apply list_find_Some.
  split; [by apply list_lookup_insert_eq|]. split; [done|].
  intros j y Hj Hjk [_ Hy]. rewrite list_lookup_insert_ne in Hj by lia.
  by apply (Hbelow j y).
Qed.

Lemma new_peer_found_by_type_witness :
  let g := sample_state false [] gap_registry in
  let buf := sample_helo (str "B2") (str "sdr_server") in
  length (services g) = PN_MAX_SERVICES /\ presence buf (str "B2") /\
  msg_svc buf = Some (str "sdr_server") /\ is_self g (str "B2") = false /\
  unknown_id g (str "B2") /\ first_free_slot g 0 /\
  (forall j s, (j < 0)%nat -> services g !! j = Some s -> service s <> str "sdr_server") /\
  pn_find_service (parse_message g 100 [] buf (str "10.0.0.8")).1.2 (str "sdr_server")
  = Some (stored_record 100 [] buf (str "10.0.0.8") (str "B2") (str "sdr_server")).
Proof.
  cbv zeta.
  assert (Hp : presence (sample_helo (str "B2") (str "sdr_server")) (str "B2")).
  { repeat split; try (vm_compute; reflexivity). by eexists. }
  assert (Hs : msg_svc (sample_helo (str "B2") (str "sdr_server")) = Some (str "sdr_server"))
    by (vm_compute; reflexivity).
  assert (Hu : unknown_id (sample_state false [] gap_registry) (str "B2")).
  { refine (proj1 (find_active_None _ _ _) _); [vm_compute; lia | vm_compute; reflexivity]. }
  assert (Hf : first_free_slot (sample_state false [] gap_registry) 0).
  { split; [by exists zero_service|]. intros j s Hj. lia. }
  assert (Hb : forall j s, (j < 0)%nat ->
            services (sample_state false [] gap_registry) !! j = Some s ->
            service s <> str "sdr_server") by (intros j s Hj; lia).
  split; [reflexivity|]. split; [exact Hp|]. split; [exact Hs|]. split; [reflexivity|].
  split; [exact Hu|]. split; [exact Hf|]. split; [exact Hb|].
  exact (new_peer_found_by_type (sample_state false [] gap_registry)
           100 [] _ (str "10.0.0.8") _ _ 0%nat eq_refl Hp Hs eq_refl Hu Hf Hb).
Defined.

(* ===================================================================== *)
(** ** The decoder on arbitrary and on rendered texts *)
(* ===================================================================== *)

Lemma strchr_Some s c e :
  strchr s c = Some e ->
  exists w e', s = w ++ c :: e' /\ e = c :: e' /\ no_char c w = true.
Proof.
  induction s as [|a s IH]; cbn [strchr]; [done|].
  destruct (Ascii.eqb_spec a c) as [->|Hne].
  - intros [= <-]. by exists [], s.
  - intros H. destruct (IH H) as (w & e' & -> & -> & Hw).
    exists (a :: w), e'. split; [done|]. split; [done|]. apply no_char_cons. by split.
Qed.

(** X12. Whatever text is received, a string [json_get_string] extracts
    fits the array it is written to: it has fewer than [maxlen]
    characters. It holds no double quote and is the start of the text
    that stands between an occurrence of the quoted key with its colon
    and the next double quote. *)
Theorem json_get_string_sound json key maxlen v :
  1 <= maxlen -> json_get_string json key maxlen = Some v ->
  zlen v < maxlen /\ no_char DQUOTE v = true /\
  exists pre w post,
    json = pre ++ (DQUOTE :: key ++ [DQUOTE; COLON; DQUOTE]) ++ w ++ DQUOTE :: post /\
    no_char DQUOTE w = true /\ v = take (Z.to_nat (maxlen - 1)) w.
Proof.
  intros Hmax H. split; [apply (json_get_string_fits json key); [lia|done]|].
  unfold json_get_string in H.
  destruct (strstr json _) as [start0|] eqn:Hs; [|done].
  destruct (strstr_Some _ _ _ Hs) as (pre & rest & -> & ->).
  rewrite drop_app_length in H.
  destruct (strchr rest DQUOTE) as [e|] eqn:Hc; [|done].
  destruct (strchr_Some _ _ _ Hc) as (w & post & -> & -> & Hw).
  injection H as <-. rewrite length_app. cbn [length].
  replace (length w + S (length post) - S (length post))%nat with (length w) by lia.
  assert (Hv : take (Z.to_nat (if Z.of_nat (length w) >=? maxlen
                               then maxlen - 1 else Z.of_nat (length w)))
                 (w ++ DQUOTE :: post) = take (Z.to_nat (maxlen - 1)) w).
  { destruct (Z.geb_spec (Z.of_nat (length w)) maxlen).
    - by rewrite take_app_le by lia.
    - rewrite Nat2Z.id, take_app_length. symmetry. apply take_ge. lia. }
  rewrite Hv. split.
  - rewrite <- (take_drop (Z.to_nat (maxlen - 1)) w) in Hw.
    by apply no_char_app in Hw as [? _].
  - by exists pre, w, post.
Qed.

Lemma json_get_string_sound_witness :
  1 <= PN_MAX_ID_LEN /\
  json_get_string (message_text sample_long_items) (str "id") PN_MAX_ID_LEN
    = Some (replicate 63 "x"%char) /\
  zlen (replicate 63 "x"%char) < PN_MAX_ID_LEN /\
  no_char DQUOTE (replicate 63 "x"%char) = true /\
  exists pre w post,
    message_text sample_long_items
      = pre ++ (DQUOTE :: str "id" ++ [DQUOTE; COLON; DQUOTE]) ++ w ++ DQUOTE :: post /\
    no_char DQUOTE w = true /\
    replicate 63 "x"%char = take (Z.to_nat (PN_MAX_ID_LEN - 1)) w.
Proof.
  assert (H1 : 1 <= PN_MAX_ID_LEN) by (unfold PN_MAX_ID_LEN; lia).
  assert (H2 : json_get_string (message_text sample_long_items) (str "id") PN_MAX_ID_LEN
               = Some (replicate 63 "x"%char)) by (vm_compute; reflexivity).
  split; [exact H1|]. split; [exact H2|].
  exact (json_get_string_sound _ _ _ _ H1 H2).
Defined.

Lemma json_get_string_first pre k v post maxlen :
  1 <= maxlen -> proper_key k = true ->
  Forall (fun it => item_clean it = true /\ it.1 <> k) pre ->
  no_char DQUOTE v = true ->
  json_get_string (message_text (pre ++ (k, JString v) :: post)) k maxlen
  = Some (take (Z.to_nat (maxlen - 1)) v).
Proof.
  intros Hmax Hk Hpre Hv. unfold json_get_string. rewrite message_text_render.
  rewrite strstr_skip1 by done.
  rewrite (strstr_render_hit k [DQUOTE] (JString v) post pre false Hk Hpre)
    by (cbn [value_text app starts_with]; by rewrite Ascii.eqb_refl).
  cbn [value_text].
  replace (DQUOTE :: k ++ DQUOTE :: COLON :: (DQUOTE :: v ++ [DQUOTE]) ++ render true post ++ [RBRACE])
    with ((DQUOTE :: k ++ [DQUOTE; COLON; DQUOTE]) ++ v ++ DQUOTE :: render true post ++ [RBRACE])
    by (cbn [app]; by rewrite <- !app_assoc).
  rewrite drop_app_length. rewrite strchr_word by done.
  rewrite length_app. cbn [length].
  replace (length v + S (length (render true post ++ [RBRACE]))
           - S (length (render true post ++ [RBRACE])))%nat with (length v) by lia.
  f_equal. destruct (Z.geb_spec (Z.of_nat (length v)) maxlen).
  - by rewrite take_app_le by lia.
  - rewrite Nat2Z.id, take_app_length. symmetry. apply take_ge. lia.
Qed.

(** X13. In a flat message the decoder returns the string of the first
    field that has the key, cut to the capacity of the array, wherever
    the field stands: fields of other keys may precede it in any number
    and order, and whatever follows it (a second field of the same key
    included) does not matter. *)
Theorem string_field_found_anywhere pre k v post maxlen :
  1 <= maxlen -> proper_key k = true ->
  Forall (fun it => item_clean it = true /\ it.1 <> k) pre ->
  no_char DQUOTE v = true ->
  json_get_string (message_text (pre ++ (k, JString v) :: post)) k maxlen
  = Some (if zlen v <? maxlen then v else take (Z.to_nat (maxlen - 1)) v).
Proof.
  intros Hmax Hk Hpre Hv. rewrite json_get_string_first by done.
  destruct (Z.ltb_spec (zlen v) maxlen) as [Hlt|]; [|done].
  f_equal. apply take_ge. unfold zlen in Hlt. lia.
Qed.

Lemma string_field_found_anywhere_witness :
  let pre := [(str "m", JString PN_MAGIC)] in
  let post := [(str "port", JString (str "4535")); (str "data", JInt 4536);
               (str "id", JString (str "second"))] in
  let v := replicate 70 "x"%char in
  1 <= PN_MAX_ID_LEN /\ proper_key (str "id") = true /\
  Forall (fun it => item_clean it = true /\ it.1 <> str "id") pre /\
  no_char DQUOTE v = true /\
  json_get_string (message_text (pre ++ (str "id", JString v) :: post)) (str "id") PN_MAX_ID_LEN
  = Some (if zlen v <? PN_MAX_ID_LEN then v else take (Z.to_nat (PN_MAX_ID_LEN - 1)) v).
Proof.
  cbv zeta.
  assert (H1 : 1 <= PN_MAX_ID_LEN) by (unfold PN_MAX_ID_LEN; lia).
  assert (H3 : Forall (fun it => item_clean it = true /\ it.1 <> str "id")
                 [(str "m", JString PN_MAGIC)]) by items_ok.
  split; [exact H1|]. split; [reflexivity|]. split; [exact H3|]. split; [reflexivity|].
  exact (string_field_found_anywhere _ (str "id") (replicate 70 "x"%char) _ _
           H1 eq_refl H3 eq_refl).
Defined.

(** X14. [json_add_int] and [json_get_int] are inverse on every [int]:
    in a flat message the decoder reads back the integer of the first
    field that has the key, wherever the field stands. *)
Theorem int_field_round_trip pre k n post :
  proper_key k = true ->
  Forall (fun it => item_clean it = true /\ it.1 <> k) pre ->
  INT_MIN <= n <= INT_MAX ->
  json_get_int (message_text (pre ++ (k, JInt n) :: post)) k = n.
Proof. intros Hk Hpre Hn. by apply json_get_int_hit. Qed.

Lemma int_field_round_trip_witness :
  let pre := [(str "m", JString PN_MAGIC); (str "id", JString (str "A1"))] in
  let post := [(str "data", JInt 4536)] in
  proper_key (str "port") = true /\
  Forall (fun it => item_clean it = true /\ it.1 <> str "port") pre /\
  INT_MIN <= -2147483648 <= INT_MAX /\
  json_get_int (message_text (pre ++ (str "port", JInt (-2147483648)) :: post)) (str "port")
  = -2147483648.
Proof.
  cbv zeta.
  assert (H2 : Forall (fun it => item_clean it = true /\ it.1 <> str "port")
                 [(str "m", JString PN_MAGIC); (str "id", JString (str "A1"))]) by items_ok.
  assert (H3 : INT_MIN <= -2147483648 <= INT_MAX) by (unfold INT_MIN, INT_MAX; lia).
  split; [reflexivity|]. split; [exact H2|]. split; [exact H3|].
  exact (int_field_round_trip _ (str "port") _ _ eq_refl H2 H3).
Defined.

(** X15. A numeric field decodes to 0, not to an error, both when no
    field of the message has the key and when the first field that has
    it carries a quoted string. *)
Theorem int_field_defaults_to_zero items k :
  proper_key k = true ->
  Forall (fun it => item_clean it = true /\ it.1 <> k) items ->
  json_get_int (message_text items) k = 0 /\
  forall v post, json_get_int (message_text (items ++ (k, JString v) :: post)) k = 0.
Proof.
  intros Hk Hall. split; [by apply json_get_int_miss|].
  intros v post. unfold json_get_int. rewrite message_text_render.
  rewrite strstr_skip1 by done.
  rewrite (strstr_render_hit k [] (JString v) post items false Hk Hall) by done.
  cbn [value_text].
  replace (DQUOTE :: k ++ DQUOTE :: COLON :: (DQUOTE :: v ++ [DQUOTE]) ++ render true post ++ [RBRACE])
    with ((DQUOTE :: k ++ [DQUOTE; COLON]) ++ DQUOTE :: v ++ DQUOTE :: render true post ++ [RBRACE])
    by (cbn [app]; by rewrite <- !app_assoc).
  by rewrite drop_app_length.
Qed.

Lemma int_field_defaults_to_zero_witness :
  let items := [(str "m", JString PN_MAGIC); (str "id", JString (str "A1"))] in
  proper_key (str "port") = true /\
  Forall (fun it => item_clean it = true /\ it.1 <> str "port") items /\
  json_get_int (message_text items) (str "port") = 0 /\
  forall v post,
    json_get_int (message_text (items ++ (str "port", JString v) :: post)) (str "port") = 0.
Proof.
  cbv zeta.
  assert (H2 : Forall (fun it => item_clean it = true /\ it.1 <> str "port")
                 [(str "m", JString PN_MAGIC); (str "id", JString (str "A1"))]) by items_ok.
  split; [reflexivity|]. split; [exact H2|].
  exact (int_field_defaults_to_zero _ (str "port") eq_refl H2).
Defined.

(* ===================================================================== *)
(** ** What the announcer broadcasts *)
(* ===================================================================== *)

Lemma broadcast_of_encodes r maxlen text :
  encodes r maxlen text -> text <> [] ->
  broadcast_of r = if zlen text <? maxlen then [text] else [].
Proof.
  intros (buf' & n & -> & Hl & Hcase) Hne. cbn [broadcast_of].
  assert (0 < zlen text) by (unfold zlen; destruct text; [done|cbn [length]; lia]).
  destruct Hcase as [[-> Hbig]|(-> & Hfit & Htake & _)].
  - cbn. destruct (Z.ltb_spec (zlen text) maxlen); [lia|done].
  - destruct (Z.ltb_spec 0 (zlen text)); [|lia].
    destruct (Z.ltb_spec (zlen text) maxlen); [|lia].
    unfold sent_bytes, zlen. by rewrite Nat2Z.id, Htake.
Qed.

(** X16. What the announcer hands to [broadcast_message] is the complete
    presence or departure message, or nothing when the message does not
    fit the buffer: never a truncated message, and never a byte of what
    the buffer held before. *)
Theorem broadcast_whole_message_or_nothing g now buf maxlen :
  1 <= maxlen <= INT_MAX -> zlen buf = maxlen ->
  broadcast_of (build_helo_message g now buf maxlen)
    = (if zlen (helo_text g now) <? maxlen then [helo_text g now] else []) /\
  broadcast_of (build_bye_message g now buf maxlen)
    = (if zlen (bye_text g now) <? maxlen then [bye_text g now] else []).
Proof.
  intros Hmax Hlen. split.
  - apply broadcast_of_encodes; [|done]. rewrite build_helo_message_chain.
    apply message_encodes; [|done..]. unfold helo_items. discriminate.
  - apply broadcast_of_encodes; [|done]. rewrite build_bye_message_chain.
    apply message_encodes; [|done..]. unfold bye_items. discriminate.
Qed.

Lemma broadcast_whole_message_or_nothing_witness :
  let g := sample_server in
  let buf := replicate 100 "x"%char in
  1 <= 100 <= INT_MAX /\ zlen buf = 100 /\
  broadcast_of (build_helo_message g 1700000000 buf 100)
    = (if zlen (helo_text g 1700000000) <? 100 then [helo_text g 1700000000] else []) /\
  broadcast_of (build_bye_message g 1700000000 buf 100)
    = (if zlen (bye_text g 1700000000) <? 100 then [bye_text g 1700000000] else []).
Proof.
  cbv zeta.
  assert (H1 : 1 <= 100 <= INT_MAX) by (unfold INT_MAX; lia).
  split; [exact H1|]. split; [reflexivity|].
  exact (broadcast_whole_message_or_nothing sample_server 1700000000
           (replicate 100 "x"%char) 100 H1 eq_refl).
Defined.

Lemma bye_text_nul_free g now :
  no_char NUL (id (my_service g)) = true -> no_char NUL (bye_text g now) = true.
Proof.
  intros Hid. unfold bye_text. rewrite message_text_render.
  apply no_char_cons. split; [done|]. apply no_char_app. split; [|done].
  apply no_char_render; try done. unfold bye_items.
  assert (Hint : forall n, no_char NUL (print_int n) = true)
    by (intros n; by apply no_char_print_int).
  repeat (apply Forall_cons_2; [split; cbn [fst snd value_text]; try done|]);
    [|apply Forall_nil_2].
  apply no_char_cons. split; [done|]. apply no_char_app. by split.
Qed.

Lemma bye_text_length g now :
  zlen (id (my_service g)) < PN_MAX_ID_LEN -> zlen (bye_text g now) < PN_MAX_MSG_LEN.
Proof.
  intros Hid.
  pose proof (print_int_length _ (wrap_int_range now)) as Hp.
  unfold bye_text. rewrite message_text_render. unfold bye_items.
  unfold PN_MAX_MSG_LEN, PN_MAX_ID_LEN, zlen in *.
  cbn [app render]; rewrite !fmt_item_eq; cbn [value_text app];
    repeat (rewrite length_app || cbn [length]);
    change (length (print_int PN_VERSION)) with 1%nat;
    cbn [length str list_ascii_of_string PN_MAGIC]; lia.
Qed.

Lemma bye_text_departure g now :
  zlen (id (my_service g)) < PN_MAX_ID_LEN ->
  no_char DQUOTE (id (my_service g)) = true ->
  departure (bye_text g now) (id (my_service g)).
Proof.
  intros Hid Hq. unfold departure, bye_text, bye_items, msg_tag, msg_cmd, msg_id.
  repeat split.
  - by eapply (json_get_string_at _ 0); [reflexivity|reflexivity|items_ok|done|done].
  - by eapply (json_get_string_at _ 2); [reflexivity|reflexivity|items_ok|done|done].
  - by eapply (json_get_string_at _ 3); [reflexivity|reflexivity|items_ok|done|done].
Qed.

Lemma build_bye_message_sent g now buf :
  zlen (id (my_service g)) < PN_MAX_ID_LEN -> zlen buf = PN_MAX_MSG_LEN ->
  exists buf' n,
    build_bye_message g now buf PN_MAX_MSG_LEN = Some (buf', n) /\ 0 < n /\
    sent_bytes buf' n = bye_text g now.
Proof.
  intros Hid Hlen.
  destruct (message_encodes (bye_items g now) buf PN_MAX_MSG_LEN)
    as (buf' & n & E & Hl & Hcase); [unfold bye_items; discriminate|by vm_compute|done|].
  rewrite <- build_bye_message_chain in E. fold (bye_text g now) in Hcase.
  pose proof (bye_text_length g now Hid) as Hshort.
  destruct Hcase as [[_ Hbad]|(-> & _ & Htake & _)]; [lia|].
  exists buf', (zlen (bye_text g now)). split; [done|]. split.
  - unfold bye_text, message_text, zlen. cbn [length]. lia.
  - unfold sent_bytes, zlen. by rewrite Nat2Z.id.
Qed.

Lemma dg_text_clean bytes sender t stack_caps :
  no_char NUL bytes = true -> zlen bytes < PN_MAX_MSG_LEN ->
  dg_text (mk_datagram bytes sender t stack_caps) = bytes.
Proof.
  intros Hn Hl. unfold dg_text. cbn [dg_bytes].
  rewrite take_ge by (unfold zlen, PN_MAX_MSG_LEN in *; lia).
  by apply c_str_clean_nil.
Qed.

(** X17. For a self descriptor whose identity fits its array and holds
    no NUL and no double quote, the departure message always fits a
    buffer of [PN_MAX_MSG_LEN] cells, and a receiver reads it as a
    departure message of that identity. *)
Theorem bye_round_trip g now buf sender_ip t stack_caps :
  zlen (id (my_service g)) < PN_MAX_ID_LEN ->
  no_char NUL (id (my_service g)) = true -> no_char DQUOTE (id (my_service g)) = true ->
  zlen buf = PN_MAX_MSG_LEN ->
  exists buf' n,
    build_bye_message g now buf PN_MAX_MSG_LEN = Some (buf', n) /\ 0 < n /\
    departure (dg_text (mk_datagram (sent_bytes buf' n) sender_ip t stack_caps))
      (id (my_service g)).
Proof.
  intros Hid Hn Hq Hlen.
  destruct (build_bye_message_sent g now buf Hid Hlen) as (buf' & n & E & Hpos & Hsent).
  exists buf', n. split; [done|]. split; [done|]. rewrite Hsent.
  rewrite dg_text_clean; [by apply bye_text_departure|by apply bye_text_nul_free|].
  by apply bye_text_length.
Qed.

Lemma bye_round_trip_witness :
  let g := sample_server in
  let buf := replicate (Z.to_nat PN_MAX_MSG_LEN) NUL in
  zlen (id (my_service g)) < PN_MAX_ID_LEN /\
  no_char NUL (id (my_service g)) = true /\ no_char DQUOTE (id (my_service g)) = true /\
  zlen buf = PN_MAX_MSG_LEN /\
  exists buf' n,
    build_bye_message g 1700000090 buf PN_MAX_MSG_LEN = Some (buf', n) /\ 0 < n /\
    departure (dg_text (mk_datagram (sent_bytes buf' n) (str "10.0.0.5") 1700000091 []))
      (id (my_service g)).
Proof.
  cbv zeta. split; [reflexivity|]. split; [reflexivity|]. split; [reflexivity|].
  split; [reflexivity|].
  exact (bye_round_trip sample_server 1700000090 (replicate (Z.to_nat PN_MAX_MSG_LEN) NUL)
           (str "10.0.0.5") 1700000091 [] eq_refl eq_refl eq_refl eq_refl).
Defined.

(* ===================================================================== *)
(** ** The announce interval *)
(* ===================================================================== *)

(** X18. For every value [rand] can return, the announce interval lies
    between [PN_ANNOUNCE_MIN_SEC] and [PN_ANNOUNCE_MAX_SEC], both
    included, and every number of seconds in that range is the interval
    for some value of [rand]. *)
Theorem get_random_interval_range r :
  0 <= r ->
  PN_ANNOUNCE_MIN_SEC <= get_random_interval r <= PN_ANNOUNCE_MAX_SEC /\
  forall v, PN_ANNOUNCE_MIN_SEC <= v <= PN_ANNOUNCE_MAX_SEC ->
            get_random_interval (v - PN_ANNOUNCE_MIN_SEC) = v.
Proof.
  unfold get_random_interval, PN_ANNOUNCE_MIN_SEC, PN_ANNOUNCE_MAX_SEC. intros Hr. split.
  - rewrite Z.rem_mod_nonneg by lia. pose proof (Z.mod_pos_bound r (60 - 30 + 1)). lia.
  - intros v Hv. rewrite Z.rem_small by lia. lia.
Qed.

Lemma get_random_interval_range_witness :
  0 <= 2147483647 /\
  PN_ANNOUNCE_MIN_SEC <= get_random_interval 2147483647 <= PN_ANNOUNCE_MAX_SEC /\
  forall v, PN_ANNOUNCE_MIN_SEC <= v <= PN_ANNOUNCE_MAX_SEC ->
            get_random_interval (v - PN_ANNOUNCE_MIN_SEC) = v.
Proof.
  assert (H : 0 <= 2147483647) by lia.
  split; [exact H|]. exact (get_random_interval_range 2147483647 H).
Defined.

(* ===================================================================== *)
(** ** Broadcast addresses and [broadcast_message] *)
(* ===================================================================== *)

Lemma subnet_mask_value p :
  1 <= p <= 32 -> subnet_mask p = 2 ^ 32 - 2 ^ (32 - p).
Proof.
  intros Hp. unfold subnet_mask, wrap_u32. rewrite Z.shiftl_mul_pow2 by lia.
  assert (Hs : 0 < 2 ^ (32 - p) <= 2 ^ 31).
  { split; [apply Z.pow_pos_nonneg; lia|]. apply Z.pow_le_mono_r; lia. }
  replace (0xFFFFFFFF * 2 ^ (32 - p))
    with ((2 ^ 32 - 2 ^ (32 - p)) + (2 ^ (32 - p) - 1) * 2 ^ 32) by lia.
  rewrite Z.mod_add by lia. apply Z.mod_small. lia.
Qed.

Lemma host_ones p :
  1 <= p <= 32 -> wrap_u32 (Z.lnot (subnet_mask p)) = Z.ones (32 - p).
Proof.
  intros Hp. rewrite subnet_mask_value by done. unfold wrap_u32, Z.lnot.
  rewrite Z.ones_equiv.
  assert (Hs : 0 < 2 ^ (32 - p) <= 2 ^ 31).
  { split; [apply Z.pow_pos_nonneg; lia|]. apply Z.pow_le_mono_r; lia. }
  replace (Z.pred (- (2 ^ 32 - 2 ^ (32 - p))))
    with (Z.pred (2 ^ (32 - p)) + (-1) * 2 ^ 32) by lia.
  rewrite Z.mod_add by lia. apply Z.mod_small. lia.
Qed.

Lemma lor_ones a s :
  0 <= s -> Z.lor a (Z.ones s) = a - a mod 2 ^ s + (2 ^ s - 1).
Proof.
  intros Hs.
  assert (H1 : Z.lor a (Z.ones s) = Z.lor (Z.ldiff a (Z.ones s)) (Z.ones s)).
  { apply Z.bits_inj'. intros n Hn.
    rewrite !Z.lor_spec, Z.ldiff_spec. by destruct (Z.testbit a n), (Z.testbit (Z.ones s) n). }
  assert (H2 : Z.land (Z.ldiff a (Z.ones s)) (Z.ones s) = 0).
  { apply Z.bits_inj'. intros n Hn.
    rewrite Z.land_spec, Z.ldiff_spec, Z.bits_0.
    by destruct (Z.testbit a n), (Z.testbit (Z.ones s) n). }
  rewrite H1, <- Z.lxor_lor, <- Z.add_nocarry_lxor by done.
  rewrite Z.ldiff_ones_r by done.
  rewrite Z.shiftl_mul_pow2, Z.shiftr_div_pow2 by done.
  rewrite Z.ones_equiv.
  pose proof (Z.div_mod a (2 ^ s)) as Hd.
  assert (2 ^ s <> 0) by (apply Z.pow_nonzero; lia). lia.
Qed.

(** X19. For an address and a prefix length from 1 to 32, the
    destination computed as [ip | ~mask] is the broadcast address of the
    subnet: the network part of the address with every host bit set. It
    is a 32-bit value not below the address, and two addresses of one
    subnet give the same destination. *)
Theorem subnet_broadcast_spec ip p :
  0 <= ip < 2 ^ 32 -> 1 <= p <= 32 ->
  let host := 2 ^ (32 - p) in
  subnet_broadcast ip p = ip / host * host + (host - 1) /\
  ip <= subnet_broadcast ip p < 2 ^ 32 /\
  forall ip', 0 <= ip' < 2 ^ 32 -> ip' / host = ip / host ->
              subnet_broadcast ip' p = subnet_broadcast ip p.
Proof.
  intros Hip Hp. cbv zeta.
  assert (Hs : 0 < 2 ^ (32 - p) <= 2 ^ 31).
  { split; [apply Z.pow_pos_nonneg; lia|]. apply Z.pow_le_mono_r; lia. }
  assert (Hform : forall a, subnet_broadcast a p
                            = a / 2 ^ (32 - p) * 2 ^ (32 - p) + (2 ^ (32 - p) - 1)).
  { intros a. unfold subnet_broadcast. rewrite host_ones, lor_ones by lia.
    pose proof (Z.div_mod a (2 ^ (32 - p))). lia. }
  split; [apply Hform|]. split.
  - rewrite Hform.
    pose proof (Z.div_mod ip (2 ^ (32 - p))) as Hd.
    pose proof (Z.mod_pos_bound ip (2 ^ (32 - p))) as Hm.
    assert (Hq : ip / 2 ^ (32 - p) < 2 ^ p).
    { apply Z.div_lt_upper_bound; [lia|].
      rewrite <- Z.pow_add_r by lia. replace (32 - p + p) with 32 by lia. lia. }
    assert (Hpow : 2 ^ (32 - p) * 2 ^ p = 2 ^ 32).
    { rewrite <- Z.pow_add_r by lia. f_equal. lia. }
    nia.
  - intros ip' _ Heq. by rewrite !Hform, Heq.
Qed.

Lemma subnet_broadcast_spec_witness :
  let ip := 0xC0A80105 in
  let host := 2 ^ (32 - 24) in
  0 <= ip < 2 ^ 32 /\ 1 <= 24 <= 32 /\
  subnet_broadcast ip 24 = ip / host * host + (host - 1) /\
  ip <= subnet_broadcast ip 24 < 2 ^ 32 /\
  forall ip', 0 <= ip' < 2 ^ 32 -> ip' / host = ip / host ->
              subnet_broadcast ip' 24 = subnet_broadcast ip 24.
Proof.
  cbv zeta.
  assert (H1 : 0 <= 0xC0A80105 < 2 ^ 32) by lia.
  assert (H2 : 1 <= 24 <= 32) by lia.
  split; [exact H1|]. split; [exact H2|].
  exact (subnet_broadcast_spec 0xC0A80105 24 H1 H2).
Defined.

Lemma send_unicasts_spec port bytes us :
  forallb (fun u => negb (ua_inet u) || prefix_defined u) us = true ->
  exists sends, send_unicasts port bytes us = Some sends /\
    forall s, s ∈ sends <->
      exists u, u ∈ us /\ ua_inet u = true /\
        s = SendTo (subnet_broadcast (wrap_u32 (ua_addr u)) (ua_prefix u)) (htons port) bytes.
Proof.
  induction us as [|u us IH]; cbn [send_unicasts forallb].
  - intros _. exists []. split; [done|]. intros s.
    split; [by intros ?%elem_of_nil|]. by intros (u & ?%elem_of_nil & _).
  - intros [Hu Hus]%andb_true_iff. destruct (IH Hus) as (l & -> & Hl).
    destruct (ua_inet u) eqn:Ei; cbn [negb orb] in Hu.
    + rewrite Hu. eexists. split; [done|]. intros s. rewrite elem_of_cons, Hl. split.
      * intros [->|(u' & Hu' & Hi & ->)]; [exists u|exists u']; (split; [|done]);
          [by left|by right].
      * intros (u' & [->|Hu']%elem_of_cons & Hi & ->); [by left|right; by exists u'].
    + exists l. split; [done|]. intros s. rewrite Hl. split.
      * intros (u' & Hu' & Hi & ->). exists u'. split; [by right|done].
      * intros (u' & [->|Hu']%elem_of_cons & Hi & ->); [congruence|by exists u'].
Qed.

Lemma send_adapters_spec port bytes l :
  shifts_defined (Some l) = true ->
  exists sends, send_adapters port bytes l = Some sends /\
    forall s, s ∈ sends <->
      exists a u, a ∈ l /\ oper_up a = true /\ u ∈ unicast a /\ ua_inet u = true /\
        s = SendTo (subnet_broadcast (wrap_u32 (ua_addr u)) (ua_prefix u)) (htons port) bytes.
Proof.
  unfold shifts_defined.
  induction l as [|a l IH]; cbn [send_adapters forallb].
  - intros _. exists []. split; [done|]. intros s.
    split; [by intros ?%elem_of_nil|]. by intros (a & u & ?%elem_of_nil & _).
  - intros [Ha Hl]%andb_true_iff. destruct (IH Hl) as (l2 & -> & Hl2).
    destruct (oper_up a) eqn:Eu; cbn [negb orb] in Ha.
    + destruct (send_unicasts_spec port bytes _ Ha) as (l1 & -> & Hl1).
      exists (l1 ++ l2). split; [done|]. intros s. rewrite elem_of_app, Hl1, Hl2. split.
      * intros [(u & Hu & Hi & ->)|(a' & u & Ha' & Hrest)].
        -- exists a, u. split; [by left|done].
        -- exists a', u. split; [by right|done].
      * intros (a' & u & [->|Ha']%elem_of_cons & Hup & Hu & Hi & ->).
        -- left. by exists u.
        -- right. by exists a', u.
    + exists l2. split; [done|]. intros s. rewrite Hl2. split.
      * intros (a' & u & Ha' & Hrest). exists a', u. split; [by right|done].
      * intros (a' & u & [->|Ha']%elem_of_cons & Hup & Hrest); [congruence|].
        by exists a', u.
Qed.

(** X20. On Windows, when every prefix length is one C defines the mask
    for, [broadcast_message] always ends with one datagram to
    255.255.255.255, also when the adapters cannot be listed. Before it,
    the subnet broadcast address of every IPv4 address of every adapter
    that is up receives the message, and nothing else does. Every
    datagram carries the same bytes to the same port. Only a failed
    allocation sends nothing. *)
Theorem broadcast_message_win32_spec port adapters msg len :
  shifts_defined adapters = true ->
  let global := SendTo INADDR_BROADCAST (htons port) (sent_bytes msg len) in
  exists sends,
    broadcast_message_win32 port true adapters msg len = Some sends /\
    last sends = Some global /\
    Forall (fun s => to_port s = htons port /\ to_bytes s = sent_bytes msg len) sends /\
    (adapters = None -> sends = [global]) /\
    (forall l s, adapters = Some l ->
       (s ∈ sends <->
        s = global \/
        exists a u, a ∈ l /\ oper_up a = true /\ u ∈ unicast a /\ ua_inet u = true /\
          s = SendTo (subnet_broadcast (wrap_u32 (ua_addr u)) (ua_prefix u))
                (htons port) (sent_bytes msg len))) /\
    broadcast_message_win32 port false adapters msg len = Some [].
Proof.
  intros Hdef. cbv zeta. unfold broadcast_message_win32. cbn [negb].
  destruct adapters as [l|].
  - destruct (send_adapters_spec port (sent_bytes msg len) l Hdef) as (l1 & -> & Hl1).
    eexists. split; [done|]. split; [apply last_snoc|].
    split; [|split; [done|split; [|done]]].
    + apply Forall_app. split; [|by repeat constructor].
      apply Forall_forall. intros s Hs.
      by apply Hl1 in Hs as (a & u & _ & _ & _ & _ & ->).
    + intros l' s [= <-]. rewrite elem_of_app, list_elem_of_singleton, Hl1. tauto.
  - eexists. split; [done|]. split; [done|].
    split; [by repeat constructor|]. split; [done|]. split; [done|done].
Qed.

Lemma broadcast_message_win32_spec_witness :
  let port := 5400 in
  let msg := str "{}" in
  let global := SendTo INADDR_BROADCAST (htons port) (sent_bytes msg 2) in
  shifts_defined (Some sample_adapters) = true /\
  exists sends,
    broadcast_message_win32 port true (Some sample_adapters) msg 2 = Some sends /\
    last sends = Some global /\
    Forall (fun s => to_port s = htons port /\ to_bytes s = sent_bytes msg 2) sends /\
    (Some sample_adapters = None -> sends = [global]) /\
    (forall l s, Some sample_adapters = Some l ->
       (s ∈ sends <->
        s = global \/
        exists a u, a ∈ l /\ oper_up a = true /\ u ∈ unicast a /\ ua_inet u = true /\
          s = SendTo (subnet_broadcast (wrap_u32 (ua_addr u)) (ua_prefix u))
                (htons port) (sent_bytes msg 2))) /\
    broadcast_message_win32 port false (Some sample_adapters) msg 2 = Some [].
Proof.
  cbv zeta. split; [reflexivity|].
  exact (broadcast_message_win32_spec 5400 (Some sample_adapters) (str "{}") 2 eq_refl).
Defined.

Lemma send_interfaces_spec port bytes l s :
  s ∈ send_interfaces port bytes l <->
  exists ifa a b, ifa ∈ l /\ ifa_addr ifa = Some (true, a) /\ ifa_flag_broadcast ifa = true /\
                  ifa_broadaddr ifa = Some b /\ s = SendTo b (htons port) bytes.
Proof.
  induction l as [|ifa l IH]; cbn [send_interfaces].
  - split; [by intros ?%elem_of_nil|]. by intros (i & a & b & ?%elem_of_nil & _).
  - assert (Hskip : s ∈ send_interfaces port bytes l ->
              exists ifa0 a b, ifa0 ∈ ifa :: l /\ ifa_addr ifa0 = Some (true, a) /\
                ifa_flag_broadcast ifa0 = true /\ ifa_broadaddr ifa0 = Some b /\
                s = SendTo b (htons port) bytes).
    { intros (i & a & b & Hi & Hrest)%IH. exists i, a, b. split; [by right|done]. }
    split.
    + destruct (ifa_addr ifa) as [[[] a]|] eqn:Ea; cbn [negb]; try done.
      destruct (ifa_flag_broadcast ifa) eqn:Ef; cbn [negb]; try done.
      destruct (ifa_broadaddr ifa) as [b|] eqn:Eb; try done.
      intros [->|H]%elem_of_cons; [|by apply Hskip].
      exists ifa, a, b. split; [by left|done].
    + intros (i & a & b & Hi & Ha & Hf & Hb & ->).
      apply elem_of_cons in Hi as [->|Hi].
      * rewrite Ha, Hf, Hb. cbn [negb]. by left.
      * assert (Hin : SendTo b (htons port) bytes ∈ send_interfaces port bytes l).
        { apply IH. by exists i, a, b. }
        destruct (ifa_addr ifa) as [[[] a0]|]; cbn [negb]; try done.
        destruct (ifa_flag_broadcast ifa); cbn [negb]; try done.
        destruct (ifa_broadaddr ifa); [by right|done].
Qed.

Lemma send_interfaces_length port bytes l :
  (length (send_interfaces port bytes l) <= length l)%nat.
Proof.
  induction l as [|ifa l IH]; cbn [send_interfaces length]; [done|].
  destruct (ifa_addr ifa) as [[[] a]|]; cbn [negb]; try lia.
  destruct (ifa_flag_broadcast ifa); cbn [negb]; try lia.
  destruct (ifa_broadaddr ifa); cbn [length]; lia.
Qed.

(** X21. On Linux [broadcast_message] sends to 255.255.255.255 only when
    the interfaces cannot be listed, and then nothing else. Otherwise the
    message goes to the broadcast address of exactly the interfaces that
    have an IPv4 address, the broadcast flag and a broadcast address, at
    most one datagram per interface; with no such interface nothing is
    sent at all. *)
Theorem broadcast_message_posix_spec port ifs msg len :
  let sends := broadcast_message_posix port ifs msg len in
  (ifs = None -> sends = [SendTo INADDR_BROADCAST (htons port) (sent_bytes msg len)]) /\
  (forall l, ifs = Some l ->
     (length sends <= length l)%nat /\
     forall s, s ∈ sends <->
       exists ifa a b, ifa ∈ l /\ ifa_addr ifa = Some (true, a) /\
         ifa_flag_broadcast ifa = true /\ ifa_broadaddr ifa = Some b /\
         s = SendTo b (htons port) (sent_bytes msg len)) /\
  (ifs = Some [] -> sends = []).
Proof.
  cbv zeta. unfold broadcast_message_posix.
  split; [by intros ->|]. split; [|by intros ->].
  intros l ->. split; [apply send_interfaces_length|].
  intros s. apply send_interfaces_spec.
Qed.

Lemma byte_text_short b : 0 <= b < 256 -> 1 <= zlen (print_int b) <= 3.
Proof.
  intros Hb.
  assert (H : forallb (fun n => (1 <=? zlen (print_int (Z.of_nat n)))
                                && (zlen (print_int (Z.of_nat n)) <=? 3))
                (seq 0 256) = true) by (vm_compute; reflexivity).
  rewrite List.forallb_forall in H. specialize (H (Z.to_nat b)).
  rewrite Z2Nat.id in H by lia.
  assert (Hin : In (Z.to_nat b) (seq 0 256)) by (apply in_seq; lia).
  apply H, andb_true_iff in Hin as [?%Z.leb_le ?%Z.leb_le]. lia.
Qed.

Lemma dotted_quad_length a : 7 <= zlen (dotted_quad a) <= 15.
Proof.
  unfold dotted_quad, zlen.
  rewrite !length_app; cbn [length]; rewrite !length_app; cbn [length];
    rewrite !length_app; cbn [length].
  pose proof (byte_text_short (a / 2 ^ 24 mod 256) ltac:(apply Z.mod_pos_bound; lia)).
  pose proof (byte_text_short (a / 2 ^ 16 mod 256) ltac:(apply Z.mod_pos_bound; lia)).
  pose proof (byte_text_short (a / 2 ^ 8 mod 256) ltac:(apply Z.mod_pos_bound; lia)).
  pose proof (byte_text_short (a mod 256) ltac:(apply Z.mod_pos_bound; lia)).
  unfold zlen in *. lia.
Qed.

Lemma dotted_quad_clean c a :
  is_digit c = false -> c <> MINUS -> c <> DOT -> no_char c (dotted_quad a) = true.
Proof.
  intros Hd Hm Hdot. unfold dotted_quad.
  repeat (apply no_char_app; split; [by apply no_char_print_int|];
          apply no_char_cons; split; [done|]).
  by apply no_char_print_int.
Qed.

Lemma inet_ntop_fits a out size :
  zlen (dotted_quad a) < size <= zlen out -> size < 2 ^ 32 ->
  exists out', inet_ntop a out size = Some (true, out') /\
               zlen out' = zlen out /\ c_str out' = dotted_quad a.
Proof.
  intros Hs Hw. unfold inet_ntop, wrap_u32.
  pose proof (dotted_quad_length a) as Hl.
  rewrite Z.mod_small by lia.
  destruct (Z.leb_spec size (zlen (dotted_quad a))); [lia|].
  rewrite store_bytes_ok by (unfold zlen in *; rewrite ?length_app; cbn [length]; lia).
  eexists. split; [done|]. split.
  - unfold zlen in *. f_equal. apply stored_length. rewrite length_app. cbn [length]. lia.
  - change (Z.to_nat 0) with 0%nat. rewrite take_0. cbn [app].
    rewrite <- app_assoc. cbn [app].
    rewrite c_str_app_nul. apply c_str_clean_nil. by apply dotted_quad_clean.
Qed.

Lemma strncpy_mem_short out src n :
  no_char NUL src = true -> zlen src < n <= zlen out -> n < 2 ^ 64 ->
  exists out', strncpy_mem out src n = Some out' /\
               zlen out' = zlen out /\ c_str out' = src.
Proof.
  intros Hsrc Hn Hw. unfold strncpy_mem, to_size_t. cbv zeta.
  assert (0 <= zlen src) by (unfold zlen; lia).
  rewrite Z.mod_small by lia.
  destruct (Z.leb_spec n (zlen out)); [|lia].
  rewrite take_ge by (unfold zlen in *; lia).
  assert (Hlen : length (src ++ replicate (Z.to_nat n - length src) NUL) = Z.to_nat n).
  { rewrite length_app, length_replicate. unfold zlen in *. lia. }
  rewrite store_bytes_ok by (unfold zlen in *; rewrite ?Hlen; lia).
  eexists. split; [done|]. split.
  - unfold zlen in *. f_equal. apply stored_length. rewrite Hlen. lia.
  - change (Z.to_nat 0) with 0%nat. rewrite take_0. cbn [app].
    destruct (Z.to_nat n - length src)%nat as [|k] eqn:Ek; [unfold zlen in *; lia|].
    cbn [replicate]. rewrite <- app_assoc. cbn [app].
    rewrite c_str_app_nul. by apply c_str_clean_nil.
Qed.

Lemma resolved_ip_dotted ifs : exists a, resolved_ip ifs = dotted_quad a.
Proof.
  unfold resolved_ip. destruct ifs as [l|]; [destruct (first_local_addr l) as [a|]|];
    [by exists a|by exists INADDR_LOOPBACK..].
Qed.

Lemma pn_get_local_ip_total ifs out maxlen :
  16 <= maxlen <= INT_MAX -> zlen out = maxlen ->
  exists out',
    pn_get_local_ip ifs out maxlen
      = Some (match ifs with Some _ => 0 | None => -1 end, out') /\
    zlen out' = maxlen /\ c_str out' = resolved_ip ifs.
Proof.
  intros Hm Hout. unfold INT_MAX in Hm.
  assert (Hlo : exists out', strncpy_mem out (str "127.0.0.1") (maxlen - 1) = Some out' /\
                  zlen out' = zlen out /\ c_str out' = str "127.0.0.1").
  { apply strncpy_mem_short; [done| |lia]. change (zlen (str "127.0.0.1")) with 9. lia. }
  destruct Hlo as (o1 & Hcpy & Hlen1 & Hstr1).
  unfold pn_get_local_ip, resolved_ip. destruct ifs as [l|].
  - destruct (first_local_addr l) as [a|].
    + pose proof (dotted_quad_length a) as Hl.
      destruct (inet_ntop_fits a out maxlen) as (o2 & -> & Hlen2 & Hstr2); [lia|lia|].
      exists o2. split; [done|]. split; [lia|done].
    + rewrite Hcpy. exists o1. split; [done|]. split; [lia|done].
  - rewrite Hcpy. exists o1. split; [done|]. split; [lia|done].
Qed.

Lemma first_local_addr_none l : Forall passed_over l -> first_local_addr l = None.
Proof.
  induction l as [|ifa l IH]; intros H; [done|]. apply Forall_cons in H as [Hi Hl].
  cbn [first_local_addr]. unfold passed_over in Hi.
  destruct (ifa_addr ifa) as [[inet a]|]; [|by apply IH].
  destruct Hi as [->| ->]; cbn [negb]; [by apply IH|].
  rewrite Z.eqb_refl. destruct inet; cbn [negb]; by apply IH.
Qed.

Lemma first_local_addr_first pre ifa post a :
  Forall passed_over pre -> ifa_addr ifa = Some (true, a) -> a <> INADDR_LOOPBACK ->
  first_local_addr (pre ++ ifa :: post) = Some a.
Proof.
  intros Hpre Ha Hne. induction pre as [|x pre IH]; cbn [app first_local_addr].
  - rewrite Ha. cbn [negb]. by destruct (Z.eqb_spec a INADDR_LOOPBACK).
  - apply Forall_cons in Hpre as [Hx Hpre]. unfold passed_over in Hx.
    destruct (ifa_addr x) as [[inet b]|]; [|by apply IH].
    destruct Hx as [->| ->]; cbn [negb]; [by apply IH|].
    rewrite Z.eqb_refl. destruct inet; cbn [negb]; by apply IH.
Qed.

(** X22. With a buffer of at least 16 bytes, [pn_get_local_ip] (the
    branch for Linux) stays in the buffer and leaves a terminated string
    in it, of 7 to 15 characters and without a double quote. When the
    interfaces cannot be listed it returns -1 and the string is
    127.0.0.1. Otherwise it returns 0, and the string is the dotted form
    of the address of the first entry, in the order of the list, that has
    an [AF_INET] address other than 127.0.0.1: every entry before it has
    no address, another family or the address 127.0.0.1. When the list
    has no such entry the string is 127.0.0.1. *)
Theorem pn_get_local_ip_spec ifs out maxlen :
  16 <= maxlen <= INT_MAX -> zlen out = maxlen ->
  exists out',
    pn_get_local_ip ifs out maxlen
      = Some (match ifs with Some _ => 0 | None => -1 end, out') /\
    zlen out' = maxlen /\
    7 <= zlen (c_str out') <= 15 /\
    no_char DQUOTE (c_str out') = true /\
    (ifs = None -> c_str out' = str "127.0.0.1") /\
    (forall l, ifs = Some l -> Forall passed_over l -> c_str out' = str "127.0.0.1") /\
    (forall pre ifa post a,
       ifs = Some (pre ++ ifa :: post) -> Forall passed_over pre ->
       ifa_addr ifa = Some (true, a) -> a <> INADDR_LOOPBACK ->
       c_str out' = dotted_quad a).
Proof.
  intros Hm Hout.
  destruct (pn_get_local_ip_total ifs out maxlen Hm Hout) as (out' & E & Hl & Hs).
  exists out'. split; [done|]. split; [done|]. rewrite Hs.
  split; [|split]; [| |split; [|split]].
  - destruct (resolved_ip_dotted ifs) as (a & ->). apply dotted_quad_length.
  - destruct (resolved_ip_dotted ifs) as (a & ->).
    apply dotted_quad_clean; [done|by vm_compute|by vm_compute].
  - by intros ->.
  - intros l -> Hall. unfold resolved_ip. by rewrite first_local_addr_none.
  - intros pre ifa post a -> Hpre Ha Hne. unfold resolved_ip.
    by rewrite (first_local_addr_first pre ifa post a).
Qed.

Lemma pn_get_local_ip_spec_witness :
  let ifs := Some [mk_ifaddr None false None;
                   mk_ifaddr (Some (true, INADDR_LOOPBACK)) false None;
                   mk_ifaddr (Some (true, 0xC0A80105)) true (Some 0xC0A801FF);
                   mk_ifaddr (Some (true, 0x0A000001)) true (Some 0x0AFFFFFF)] in
  let out := replicate 16 DQUOTE in
  16 <= 16 <= INT_MAX /\ zlen out = 16 /\
  dotted_quad 0xC0A80105 = str "192.168.1.5" /\
  exists out',
    pn_get_local_ip ifs out 16 = Some (0, out') /\
    zlen out' = 16 /\
    7 <= zlen (c_str out') <= 15 /\
    no_char DQUOTE (c_str out') = true /\
    (ifs = None -> c_str out' = str "127.0.0.1") /\
    (forall l, ifs = Some l -> Forall passed_over l -> c_str out' = str "127.0.0.1") /\
    (forall pre ifa post a,
       ifs = Some (pre ++ ifa :: post) -> Forall passed_over pre ->
       ifa_addr ifa = Some (true, a) -> a <> INADDR_LOOPBACK ->
       c_str out' = dotted_quad a).
Proof.
  cbv zeta.
  assert (H1 : 16 <= 16 <= INT_MAX) by (by vm_compute).
  assert (H2 : zlen (replicate 16 DQUOTE) = 16) by reflexivity.
  split; [exact H1|]. split; [exact H2|]. split; [reflexivity|].
  exact (pn_get_local_ip_spec
           (Some [mk_ifaddr None false None;
                  mk_ifaddr (Some (true, INADDR_LOOPBACK)) false None;
                  mk_ifaddr (Some (true, 0xC0A80105)) true (Some 0xC0A801FF);
                  mk_ifaddr (Some (true, 0x0A000001)) true (Some 0x0AFFFFFF)])
           (replicate 16 DQUOTE) 16 H1 H2).
Defined.

(** X23. The fallback of [pn_get_local_ip] copies with
    [strncpy(out, ..., maxlen - 1)]: with a size from 1 to 10 it stores
    the first [maxlen - 1] characters of 127.0.0.1 and no terminator, the
    last byte of the buffer keeps what it held; with a size of 0 or less
    the length wraps and the copy leaves the buffer. *)
Theorem pn_get_local_ip_small_buffer ifs out maxlen :
  match ifs with Some l => first_local_addr l = None | None => True end ->
  zlen out = Z.max maxlen 0 -> - 2 ^ 31 < maxlen <= 10 ->
  if 1 <=? maxlen
  then exists last_byte,
         out !! Z.to_nat (maxlen - 1) = Some last_byte /\
         option_map snd (pn_get_local_ip ifs out maxlen)
           = Some (take (Z.to_nat (maxlen - 1)) (str "127.0.0.1") ++ [last_byte])
  else pn_get_local_ip ifs out maxlen = None.
Proof.
  intros Hifs Hout Hm.
  assert (Hcpy :
    if 1 <=? maxlen
    then exists last_byte,
         out !! Z.to_nat (maxlen - 1) = Some last_byte /\
         strncpy_mem out (str "127.0.0.1") (maxlen - 1)
           = Some (take (Z.to_nat (maxlen - 1)) (str "127.0.0.1") ++ [last_byte])
    else strncpy_mem out (str "127.0.0.1") (maxlen - 1) = None).
  { unfold strncpy_mem, to_size_t. cbv zeta. destruct (Z.leb_spec 1 maxlen) as [H1|H1].
    - rewrite Z.mod_small by lia.
      destruct (Z.leb_spec (maxlen - 1) (zlen out)); [|lia].
      replace (Z.to_nat (maxlen - 1) - length (str "127.0.0.1"))%nat with 0%nat
        by (change (length (str "127.0.0.1")) with 9%nat; lia).
      cbn [replicate]. rewrite app_nil_r.
      assert (Hl : length (take (Z.to_nat (maxlen - 1)) (str "127.0.0.1"))
                   = Z.to_nat (maxlen - 1)).
      { rewrite length_take. change (length (str "127.0.0.1")) with 9%nat. lia. }
      destruct (lookup_lt_is_Some_2 out (Z.to_nat (maxlen - 1))) as [b Hb];
        [unfold zlen in *; lia|].
      exists b. split; [done|].
      rewrite store_bytes_ok by (unfold zlen in *; rewrite ?Hl; lia).
      change (Z.to_nat 0) with 0%nat. rewrite take_0. cbn [app Nat.add].
      rewrite Hl. do 2 f_equal.
      rewrite (drop_S _ _ _ Hb), drop_ge by (unfold zlen in *; lia). done.
    - assert (Hmod : (maxlen - 1) mod 2 ^ 64 = maxlen - 1 + 2 ^ 64).
      { symmetry. apply (Z.mod_unique _ _ (-1)); lia. }
      rewrite Hmod. destruct (Z.leb_spec (maxlen - 1 + 2 ^ 64) (zlen out)); [lia|done]. }
  unfold pn_get_local_ip. destruct ifs as [l|]; [rewrite Hifs|].
  - destruct (1 <=? maxlen).
    + destruct Hcpy as (b & Hb & ->). by exists b.
    + by rewrite Hcpy.
  - destruct (1 <=? maxlen).
    + destruct Hcpy as (b & Hb & ->). by exists b.
    + by rewrite Hcpy.
Qed.

Lemma pn_get_local_ip_small_buffer_witness :
  let out := replicate 8 DQUOTE in
  True /\ zlen out = Z.max 8 0 /\ - 2 ^ 31 < 8 <= 10 /\
  exists last_byte,
    out !! Z.to_nat (8 - 1) = Some last_byte /\
    option_map snd (pn_get_local_ip None out 8)
      = Some (take (Z.to_nat (8 - 1)) (str "127.0.0.1") ++ [last_byte]).
Proof.
  cbv zeta.
  assert (H1 : zlen (replicate 8 DQUOTE) = Z.max 8 0) by reflexivity.
  assert (H2 : - 2 ^ 31 < 8 <= 10) by (by vm_compute).
  split; [exact I|]. split; [exact H1|]. split; [exact H2|].
  exact (pn_get_local_ip_small_buffer None (replicate 8 DQUOTE) 8 I H1 H2).
Defined.

(* ===================================================================== *)
(** ** Start, stop and shutdown *)
(* ===================================================================== *)

Lemma pn_discovery_init_cases st env port :
  initialized st = false ->
  let port' := if port >? 0 then port else PN_DISCOVERY_UDP_PORT in
  (env_socket env <> INVALID_SOCK /\ env_broadcast_ok env = true /\ env_bind_ok env = true /\
   pn_discovery_init st env port
     = Some (0, mk_instance true port' (env_socket env) false false false
                  (mk_discovery false zero_service false
                     (replicate PN_MAX_SERVICES zero_service)
                     (resolved_ip (env_ifaddrs env)))))
  \/
  ((env_socket env = INVALID_SOCK \/ env_broadcast_ok env = false \/ env_bind_ok env = false) /\
   pn_discovery_init st env port
     = Some (-1, mk_instance false port' (env_socket env) false false false g_zero)).
Proof.
  intros Hi. cbv zeta. unfold pn_discovery_init. rewrite Hi.
  destruct (Z.eqb_spec (env_socket env) INVALID_SOCK) as [Hs|Hs]; [right; by split; [left|]|].
  destruct (env_broadcast_ok env) eqn:Hb; cbn [negb]; [|right; by split; [right; left|]].
  destruct (env_bind_ok env) eqn:Hd; cbn [negb]; [|right; by split; [right; right|]].
  left. split; [done|]. split; [done|]. split; [done|].
  destruct (pn_get_local_ip_total (env_ifaddrs env)
              (replicate (Z.to_nat PN_MAX_IP_LEN) NUL) PN_MAX_IP_LEN)
    as (out & -> & _ & ->); [by vm_compute|by vm_compute|done].
Qed.

Lemma self_fits_fresh ifs :
  self_fits (mk_discovery false zero_service false
               (replicate PN_MAX_SERVICES zero_service) (resolved_ip ifs)).
Proof.
  destruct (resolved_ip_dotted ifs) as (a & ->).
  pose proof (dotted_quad_length a) as Hl.
  unfold self_fits, service_fits. cbn [my_service local_ip zero_service id service ip caps
    ctrl_port data_port].
  split; [by vm_compute|]. split; [unfold PN_MAX_IP_LEN; lia|].
  split; [reflexivity|]. split; [reflexivity|].
  split; [by apply dotted_quad_clean|]. split; [reflexivity|].
  split; by vm_compute.
Qed.

Lemma self_fits_zero : self_fits g_zero.
Proof. unfold self_fits, service_fits. repeat split; by vm_compute. Qed.

(** X24. A first [pn_discovery_init] never stores outside [local_ip]. It
    succeeds exactly when the socket is created, made a broadcast socket
    and bound; the port is the argument when that is positive and 5400
    otherwise; the registry is empty, nothing is announced or listened
    for, and on success the local address is the resolved one. Once it
    has succeeded, a further call returns 0 and changes nothing, also
    not the port. *)
Theorem pn_discovery_init_spec st env port :
  initialized st = false ->
  exists r st',
    pn_discovery_init st env port = Some (r, st') /\
    (r = 0 /\ initialized st' = true /\
       env_socket env <> INVALID_SOCK /\ env_broadcast_ok env = true /\
       env_bind_ok env = true /\ local_ip (core st') = resolved_ip (env_ifaddrs env)
     \/
     r = -1 /\ initialized st' = false /\
       (env_socket env = INVALID_SOCK \/ env_broadcast_ok env = false \/
        env_bind_ok env = false)) /\
    udp_port st' = (if port >? 0 then port else PN_DISCOVERY_UDP_PORT) /\
    pn_get_service_count (core st') = 0 /\
    announcing (core st') = false /\ listening st' = false /\
    callback (core st') = false /\ self_fits (core st') /\
    (r = 0 -> forall env' port', pn_discovery_init st' env' port' = Some (0, st')).
Proof.
  intros Hi.
  destruct (pn_discovery_init_cases st env port Hi) as [(Hs & Hb & Hd & E)|(Hbad & E)];
    rewrite E; eexists _, _; (split; [reflexivity|]).
  - split; [left; by repeat split|]. split; [done|]. split; [by vm_compute|].
    split; [done|]. split; [done|]. split; [done|].
    split; [apply self_fits_fresh|]. done.
  - split; [right; by repeat split|]. split; [done|]. split; [by vm_compute|].
    split; [done|]. split; [done|]. split; [done|].
    split; [apply self_fits_zero|]. intros [=].
Qed.

Lemma pn_discovery_init_spec_witness :
  initialized instance_zero = false /\
  exists r st',
    pn_discovery_init instance_zero sample_env 0 = Some (r, st') /\
    (r = 0 /\ initialized st' = true /\
       env_socket sample_env <> INVALID_SOCK /\ env_broadcast_ok sample_env = true /\
       env_bind_ok sample_env = true /\
       local_ip (core st') = resolved_ip (env_ifaddrs sample_env)
     \/
     r = -1 /\ initialized st' = false /\
       (env_socket sample_env = INVALID_SOCK \/ env_broadcast_ok sample_env = false \/
        env_bind_ok sample_env = false)) /\
    udp_port st' = (if 0 >? 0 then 0 else PN_DISCOVERY_UDP_PORT) /\
    pn_get_service_count (core st') = 0 /\
    announcing (core st') = false /\ listening st' = false /\
    callback (core st') = false /\ self_fits (core st') /\
    (r = 0 -> forall env' port', pn_discovery_init st' env' port' = Some (0, st')).
Proof.
  split; [reflexivity|].
  exact (pn_discovery_init_spec instance_zero sample_env 0 eq_refl).
Defined.

Lemma parse_message_silent g now stack_caps buf sender_ip :
  callback g = false ->
  (parse_message g now stack_caps buf sender_ip).2 = [] /\
  callback (parse_message g now stack_caps buf sender_ip).1.2 = false.
Proof.
  intros Hcb. unfold parse_message.
  repeat case_match; cbn [fst snd callback set_services]; try done;
    rewrite ?Hcb, ?andb_false_r in *; done.
Qed.

Lemma listen_run_silent ds : forall g,
  callback g = false -> (listen_run g ds).2 = [].
Proof.
  induction ds as [|d ds IH]; intros g Hcb; [done|]. cbn [listen_run snd fst].
  unfold listen_step at 1 2.
  destruct (0 <? Z.min (zlen (dg_bytes d)) (PN_MAX_MSG_LEN - 1)); cbn [fst snd].
  - destruct (parse_message_silent g (dg_time d) (dg_stack_caps d) (dg_text d)
                (dg_sender d) Hcb) as [-> Hcb'].
    by rewrite IH.
  - by rewrite IH.
Qed.

(** X25. The first successful [pn_listen] fixes the callback: every
    later call returns 0 and changes nothing, so the callback cannot be
    replaced while listening. The call leaves the registry and the self
    descriptor alone. A NULL callback is accepted, and then no datagram
    ever produces a callback. When the thread cannot be created the call
    returns -1 and does not listen, but the callback stays replaced. *)
Theorem pn_listen_first_callback_wins st cb :
  initialized st = true -> listening st = false ->
  let st1 := (pn_listen st true cb).2 in
  let st2 := (pn_listen st false cb).2 in
  (pn_listen st true cb).1 = 0 /\
  listening st1 = true /\ callback (core st1) = cb /\
  services (core st1) = services (core st) /\
  my_service (core st1) = my_service (core st) /\
  (forall thread_ok cb', pn_listen st1 thread_ok cb' = (0, st1)) /\
  (cb = false -> forall ds, (listen_run (core st1) ds).2 = []) /\
  (pn_listen st false cb).1 = -1 /\
  listening st2 = false /\ callback (core st2) = cb.
Proof.
  intros Hi Hl. cbv zeta. unfold pn_listen. rewrite Hi, Hl. cbn [negb fst snd].
  repeat split; try done.
  intros -> ds. by apply listen_run_silent.
Qed.

Lemma pn_listen_first_callback_wins_witness :
  let st := mk_instance true 5400 3 false false false g_zero in
  let st1 := (pn_listen st true true).2 in
  let st2 := (pn_listen st false true).2 in
  initialized st = true /\ listening st = false /\
  (pn_listen st true true).1 = 0 /\
  listening st1 = true /\ callback (core st1) = true /\
  services (core st1) = services (core st) /\
  my_service (core st1) = my_service (core st) /\
  (forall thread_ok cb', pn_listen st1 thread_ok cb' = (0, st1)) /\
  (true = false -> forall ds, (listen_run (core st1) ds).2 = []) /\
  (pn_listen st false true).1 = -1 /\
  listening st2 = false /\ callback (core st2) = true.
Proof.
  cbv zeta. split; [reflexivity|]. split; [reflexivity|].
  exact (pn_listen_first_callback_wins (mk_instance true 5400 3 false false false g_zero)
           true eq_refl eq_refl).
Defined.

Lemma strncpy_short s n : 1 <= n -> zlen (strncpy s (Z.to_nat (n - 1))) < n.
Proof. intros Hn. unfold strncpy, zlen. rewrite length_take. lia. Qed.

Lemma no_char_take c n s : no_char c s = true -> no_char c (take n s) = true.
Proof.
  intros H. rewrite <- (take_drop n s) in H. by apply no_char_app in H as [H _].
Qed.

(** What [pn_announce] leaves of an initialised state. *)
Lemma pn_announce_core st now stack_msg thread_ok id_ service_ ctrl_port_ data_port_ caps_ :
  initialized st = true ->
  let r := pn_announce st now stack_msg thread_ok id_ service_ ctrl_port_ data_port_ caps_ in
  let g := core st in
  r.1.1 = (if thread_ok then 0 else -1) /\
  initialized r.1.2 = true /\ announce_running r.1.2 = thread_ok /\
  listening r.1.2 = listening st /\ listen_running r.1.2 = listen_running st /\
  core r.1.2 =
    mk_discovery thread_ok
      (mk_service (strncpy id_ (Z.to_nat (PN_MAX_ID_LEN - 1)))
         (strncpy service_ (Z.to_nat (PN_MAX_SERVICE_LEN - 1)))
         (strncpy (local_ip g) (Z.to_nat (PN_MAX_IP_LEN - 1)))
         ctrl_port_ data_port_
         (match caps_ with
          | Some c => strncpy c (Z.to_nat (PN_MAX_CAPS_LEN - 1))
          | None => caps (my_service g)
          end)
         (last_seen (my_service g)) (active (my_service g)))
      (callback g) (services g) (local_ip g) /\
  r.2 = (if announcing g
         then broadcast_of (build_bye_message g now stack_msg PN_MAX_MSG_LEN) else []).
Proof.
  intros Hi. cbv zeta. unfold pn_announce, pn_announce_stop. rewrite Hi. cbn [negb].
  by destruct (announcing (core st)), thread_ok.
Qed.

Lemma announced_self_fits g run cb sv id_ service_ ctrl_port_ data_port_ caps_ :
  self_fits g ->
  no_char NUL id_ = true -> no_char NUL service_ = true ->
  no_char NUL (default [] caps_) = true ->
  INT_MIN <= ctrl_port_ <= INT_MAX -> INT_MIN <= data_port_ <= INT_MAX ->
  self_fits
    (mk_discovery run
       (mk_service (strncpy id_ (Z.to_nat (PN_MAX_ID_LEN - 1)))
          (strncpy service_ (Z.to_nat (PN_MAX_SERVICE_LEN - 1)))
          (strncpy (local_ip g) (Z.to_nat (PN_MAX_IP_LEN - 1)))
          ctrl_port_ data_port_
          (match caps_ with
           | Some c => strncpy c (Z.to_nat (PN_MAX_CAPS_LEN - 1))
           | None => caps (my_service g)
           end)
          (last_seen (my_service g)) (active (my_service g)))
       cb sv (local_ip g)).
Proof.
  intros ((_ & _ & _ & Hcaps) & Hip & _ & _ & Hipn & Hcapsn & _ & _) Hid Hsvc Hc Hp Hd.
  unfold self_fits, service_fits.
  cbn [my_service local_ip id service ip caps ctrl_port data_port].
  split; [split; [by apply strncpy_short|split; [by apply strncpy_short|
          split; [by apply strncpy_short|]]]|].
  - destruct caps_; [by apply strncpy_short|done].
  - split; [done|]. split; [by apply no_char_take|]. split; [by apply no_char_take|].
    split; [done|]. split; [|done].
    destruct caps_; [by apply no_char_take|done].
Qed.

Lemma listen_step_hears rx d text :
  dg_text d = text -> text <> [] ->
  listen_step rx d
  = ((parse_message rx (dg_time d) (dg_stack_caps d) text (dg_sender d)).1.2,
     (parse_message rx (dg_time d) (dg_stack_caps d) text (dg_sender d)).2).
Proof.
  intros Ht Hne. unfold listen_step.
  assert (Hb : dg_bytes d <> []).
  { intros E. apply Hne. rewrite <- Ht. unfold dg_text. rewrite E. by rewrite take_nil. }
  assert (0 < zlen (dg_bytes d)).
  { unfold zlen. destruct (dg_bytes d); [done|cbn [length]; lia]. }
  destruct (Z.ltb_spec 0 (Z.min (zlen (dg_bytes d)) (PN_MAX_MSG_LEN - 1)));
    [by rewrite Ht|unfold PN_MAX_MSG_LEN in *; lia].
Qed.

(** X26. [pn_announce] on an initialised instance, with strings and
    [int] ports as arguments, stores the identity, the service type and
    the capabilities cut to the size of their arrays, and leaves a
    descriptor whose presence message always fits the buffer of the
    announce thread. When no string holds a double quote, a listener with
    a callback that does not announce this identity itself and has no
    active record of it reports: the cut identity and service type, the
    local address of the announcer, the control port, 0 for a data port
    that is not positive, and the cut capabilities when they are not
    empty. For empty capabilities the message has no [caps] key and the
    listener reports whatever its local array [caps] held on entry. *)
Theorem announce_reaches_listener
    st now stack_msg id_ service_ ctrl_port_ data_port_ caps_
    rx t buf sender_ip t' stack_caps :
  let i := strncpy id_ (Z.to_nat (PN_MAX_ID_LEN - 1)) in
  let svc := strncpy service_ (Z.to_nat (PN_MAX_SERVICE_LEN - 1)) in
  let c := match caps_ with
           | Some c => strncpy c (Z.to_nat (PN_MAX_CAPS_LEN - 1))
           | None => caps (my_service (core st))
           end in
  initialized st = true -> self_fits (core st) ->
  no_char NUL id_ = true -> no_char NUL service_ = true ->
  no_char NUL (default [] caps_) = true ->
  INT_MIN <= ctrl_port_ <= INT_MAX -> INT_MIN <= data_port_ <= INT_MAX ->
  no_char DQUOTE i = true -> no_char DQUOTE svc = true -> no_char DQUOTE c = true ->
  no_char DQUOTE (local_ip (core st)) = true ->
  zlen buf = PN_MAX_MSG_LEN ->
  callback rx = true -> is_self rx i = false -> unknown_id rx i ->
  let r := pn_announce st now stack_msg true id_ service_ ctrl_port_ data_port_ caps_ in
  r.1.1 = 0 /\ announcing (core r.1.2) = true /\ self_fits (core r.1.2) /\
  services (core r.1.2) = services (core st) /\
  exists buf' n,
    build_helo_message (core r.1.2) t buf PN_MAX_MSG_LEN = Some (buf', n) /\ 0 < n /\
    (listen_step rx (mk_datagram (sent_bytes buf' n) sender_ip t' stack_caps)).2 =
      [Callback i svc (local_ip (core st)) ctrl_port_
         (if data_port_ >? 0 then data_port_ else 0)
         (if streq c [] then stack_caps else c) false].
Proof.
  cbv zeta. intros Hi Hfits Hid Hsvc Hc Hp Hd Qi Qs Qc Qip Hbuf Hcb Hself Hu.
  destruct (pn_announce_core st now stack_msg true id_ service_ ctrl_port_ data_port_
              caps_ Hi) as (Hr & _ & _ & _ & _ & Hcore & _).
  pose proof (announced_self_fits (core st) true (callback (core st)) (services (core st))
                id_ service_ ctrl_port_ data_port_ caps_ Hfits Hid Hsvc Hc Hp Hd) as Hfits'.
  rewrite <- Hcore in Hfits'.
  split; [done|]. split; [by rewrite Hcore|]. split; [done|]. split; [by rewrite Hcore|].
  destruct (build_helo_message_sent _ t buf sender_ip t' stack_caps Hfits' Hbuf)
    as (buf' & n & E & Hn & Htext).
  exists buf', n. split; [done|]. split; [done|].
  rewrite (listen_step_hears rx _ _ Htext) by done. cbn [snd dg_time dg_stack_caps dg_sender].
  assert (Hq : self_quote_free
                 (core (pn_announce st now stack_msg true id_ service_ ctrl_port_
                          data_port_ caps_).1.2)).
  { rewrite Hcore. unfold self_quote_free. by cbn [my_service local_ip id service caps]. }
  rewrite (helo_text_delivered _ t rx t' stack_caps sender_ip Hfits' Hq);
    rewrite ?Hcore; cbn [my_service local_ip id service caps ctrl_port data_port]; done.
Qed.

Lemma announce_reaches_listener_witness :
  let st := mk_instance true 5400 3 false false false
              (mk_discovery false zero_service false
                 (replicate PN_MAX_SERVICES zero_service) (str "192.168.1.5")) in
  let buf := replicate (Z.to_nat PN_MAX_MSG_LEN) NUL in
  let r := pn_announce st 1700000000 [] true (str "A1") (str "sdr_server") 4535 0
             (Some (str "rsp2pro")) in
  exists buf' n,
    build_helo_message (core r.1.2) 1700000001 buf PN_MAX_MSG_LEN = Some (buf', n) /\ 0 < n /\
    (listen_step g_listening (mk_datagram (sent_bytes buf' n) (str "192.168.1.9")
                                1700000002 [])).2 =
      [Callback (str "A1") (str "sdr_server") (str "192.168.1.5") 4535 0
         (str "rsp2pro") false].
Proof.
  cbv zeta.
  assert (Hu : unknown_id g_listening (str "A1")).
  { intros k s Hk Ha. apply lookup_replicate in Hk as [-> _]. done. }
  assert (Hf : self_fits (mk_discovery false zero_service false
                            (replicate PN_MAX_SERVICES zero_service) (str "192.168.1.5"))).
  { unfold self_fits, service_fits. repeat split; by vm_compute. }
  assert (Hp : INT_MIN <= 4535 <= INT_MAX) by (by vm_compute).
  assert (Hd : INT_MIN <= 0 <= INT_MAX) by (by vm_compute).
  exact (proj2 (proj2 (proj2 (proj2
    (announce_reaches_listener
       (mk_instance true 5400 3 false false false
          (mk_discovery false zero_service false
             (replicate PN_MAX_SERVICES zero_service) (str "192.168.1.5")))
       1700000000 [] (str "A1") (str "sdr_server") 4535 0 (Some (str "rsp2pro"))
       g_listening 1700000001 (replicate (Z.to_nat PN_MAX_MSG_LEN) NUL)
       (str "192.168.1.9") 1700000002 []
       eq_refl Hf eq_refl eq_refl eq_refl Hp Hd
       eq_refl eq_refl eq_refl eq_refl eq_refl eq_refl eq_refl Hu))))).
Defined.

Lemma bye_broadcast g now stack_msg :
  zlen (id (my_service g)) < PN_MAX_ID_LEN -> zlen stack_msg = PN_MAX_MSG_LEN ->
  broadcast_of (build_bye_message g now stack_msg PN_MAX_MSG_LEN) = [bye_text g now].
Proof.
  intros Hid Hlen.
  destruct (build_bye_message_sent g now stack_msg Hid Hlen) as (buf' & n & -> & Hn & Hs).
  unfold broadcast_of. destruct (Z.ltb_spec 0 n); [by rewrite Hs|lia].
Qed.

Lemma pn_announce_stop_running st now stack_msg :
  announcing (core st) = true ->
  pn_announce_stop st now stack_msg
  = (mk_instance (initialized st) (udp_port st) (sock st) false (listening st)
       (listen_running st)
       (mk_discovery false (my_service (core st)) (callback (core st))
          (services (core st)) (local_ip (core st))),
     broadcast_of (build_bye_message (core st) now stack_msg PN_MAX_MSG_LEN)).
Proof. intros Ha. unfold pn_announce_stop. by rewrite Ha. Qed.

(** X27. While an instance announces, [pn_announce_stop] and a new
    [pn_announce] both broadcast exactly one departure message, that of
    the identity announced so far, before anything else changes. After
    [pn_announce_stop] no identity counts as the instance's own, the
    descriptor is kept, and a second stop does nothing. A new
    [pn_announce] with NULL capabilities keeps the capabilities of the
    previous announcement; and when its thread cannot be created it
    returns -1 with the old identity gone, the new one stored and
    nothing announced. *)
Theorem reannounce_says_goodbye_first
    st now stack_msg thread_ok id_ service_ ctrl_port_ data_port_ caps_ :
  initialized st = true -> announcing (core st) = true ->
  zlen (id (my_service (core st))) < PN_MAX_ID_LEN -> zlen stack_msg = PN_MAX_MSG_LEN ->
  let r := pn_announce st now stack_msg thread_ok id_ service_ ctrl_port_ data_port_ caps_ in
  let s := pn_announce_stop st now stack_msg in
  r.2 = [bye_text (core st) now] /\ s.2 = [bye_text (core st) now] /\
  announcing (core s.1) = false /\ announce_running s.1 = false /\
  my_service (core s.1) = my_service (core st) /\
  services (core s.1) = services (core st) /\
  (forall j, is_self (core s.1) j = false) /\
  (forall now' stack_msg', pn_announce_stop s.1 now' stack_msg' = (s.1, [])) /\
  (caps_ = None -> caps (my_service (core r.1.2)) = caps (my_service (core st))) /\
  (thread_ok = false ->
     r.1.1 = -1 /\ announcing (core r.1.2) = false /\
     id (my_service (core r.1.2)) = strncpy id_ (Z.to_nat (PN_MAX_ID_LEN - 1))).
Proof.
  intros Hi Ha Hid Hlen. cbv zeta.
  destruct (pn_announce_core st now stack_msg thread_ok id_ service_ ctrl_port_ data_port_
              caps_ Hi) as (Hr & _ & _ & _ & _ & Hcore & Hsent).
  rewrite Ha, (bye_broadcast _ _ _ Hid Hlen) in Hsent.
  split; [done|].
  rewrite (pn_announce_stop_running st now stack_msg Ha), (bye_broadcast _ _ _ Hid Hlen).
  cbn [fst snd core announcing announce_running my_service services].
  split; [done|]. split; [done|]. split; [done|]. split; [done|]. split; [done|].
  split; [by intros j|]. split; [by intros now' stack_msg'|].
  split; [by intros ->; rewrite Hcore|].
  intros ->. rewrite Hr, Hcore. done.
Qed.

Lemma reannounce_says_goodbye_first_witness :
  let st := mk_instance true 5400 3 true false false sample_server in
  let r := pn_announce st 1700000090 sample_stack_msg false (str "A2") (str "sdr_server")
             4535 0 None in
  let s := pn_announce_stop st 1700000090 sample_stack_msg in
  initialized st = true /\ announcing (core st) = true /\
  zlen (id (my_service (core st))) < PN_MAX_ID_LEN /\
  zlen sample_stack_msg = PN_MAX_MSG_LEN /\
  r.2 = [bye_text (core st) 1700000090] /\ s.2 = [bye_text (core st) 1700000090] /\
  announcing (core s.1) = false /\ announce_running s.1 = false /\
  my_service (core s.1) = my_service (core st) /\
  services (core s.1) = services (core st) /\
  (forall j, is_self (core s.1) j = false) /\
  (forall now' stack_msg', pn_announce_stop s.1 now' stack_msg' = (s.1, [])) /\
  (@None (list ascii) = None ->
     caps (my_service (core r.1.2)) = caps (my_service (core st))) /\
  (false = false ->
     r.1.1 = -1 /\ announcing (core r.1.2) = false /\
     id (my_service (core r.1.2)) = strncpy (str "A2") (Z.to_nat (PN_MAX_ID_LEN - 1))).
Proof.
  cbv zeta. split; [reflexivity|]. split; [reflexivity|]. split; [reflexivity|].
  split; [reflexivity|].
  exact (reannounce_says_goodbye_first
           (mk_instance true 5400 3 true false false sample_server)
           1700000090 sample_stack_msg false (str "A2") (str "sdr_server") 4535 0 None
           eq_refl eq_refl eq_refl eq_refl).
Defined.

Lemma pn_discovery_shutdown_core st now stack_msg :
  initialized st = true ->
  let r := pn_discovery_shutdown st now stack_msg in
  initialized r.1 = false /\ sock r.1 = INVALID_SOCK /\
  announcing (core r.1) = false /\
  announce_running r.1 = (announce_running st && negb (announcing (core st))) /\
  listening r.1 = false /\
  listen_running r.1 = (listen_running st && negb (listening st)) /\
  my_service (core r.1) = my_service (core st) /\
  services (core r.1) = services (core st) /\
  local_ip (core r.1) = local_ip (core st) /\
  r.2 = (if announcing (core st)
         then broadcast_of (build_bye_message (core st) now stack_msg PN_MAX_MSG_LEN)
         else []).
Proof.
  destruct st as [ini port sk ar li lr [an me cb sv lip]]. cbn. intros ->.
  unfold pn_discovery_shutdown, pn_announce_stop. cbn.
  destruct an, li, ar, lr; cbn; done.
Qed.

(** X28. [pn_discovery_shutdown] of an initialised instance leaves it
    uninitialised, with the socket invalid and neither announcing nor
    listening. It broadcasts the departure message exactly when the
    instance was announcing. The registry is not cleared by it: the
    records stay until the next [pn_discovery_init], which empties them.
    After shutdown a second shutdown does nothing, and [pn_announce] and
    [pn_listen] return -1 and change nothing. *)
Theorem pn_discovery_shutdown_spec st now stack_msg :
  initialized st = true ->
  zlen (id (my_service (core st))) < PN_MAX_ID_LEN -> zlen stack_msg = PN_MAX_MSG_LEN ->
  let r := pn_discovery_shutdown st now stack_msg in
  initialized r.1 = false /\ sock r.1 = INVALID_SOCK /\
  announcing (core r.1) = false /\ listening r.1 = false /\
  r.2 = (if announcing (core st) then [bye_text (core st) now] else []) /\
  services (core r.1) = services (core st) /\
  (forall now' stack_msg', pn_discovery_shutdown r.1 now' stack_msg' = (r.1, [])) /\
  (forall now' stack_msg' thread_ok id_ service_ ctrl_port_ data_port_ caps_,
     pn_announce r.1 now' stack_msg' thread_ok id_ service_ ctrl_port_ data_port_ caps_
     = (-1, r.1, [])) /\
  (forall thread_ok cb, pn_listen r.1 thread_ok cb = (-1, r.1)) /\
  (forall env port, exists ret st',
     pn_discovery_init r.1 env port = Some (ret, st') /\
     pn_get_service_count (core st') = 0).
Proof.
  intros Hi Hid Hlen. cbv zeta.
  destruct (pn_discovery_shutdown_core st now stack_msg Hi)
    as (Hdown & Hsock & Han & _ & Hl & _ & _ & Hsv & _ & Hsent).
  split; [done|]. split; [done|]. split; [done|]. split; [done|].
  split; [rewrite Hsent; destruct (announcing (core st)); [by apply bye_broadcast|done]|].
  split; [done|].
  split; [intros now' m'; unfold pn_discovery_shutdown at 1; by rewrite Hdown|].
  split; [intros; unfold pn_announce; by rewrite Hdown|].
  split; [intros; unfold pn_listen; by rewrite Hdown|].
  intros env port.
  destruct (pn_discovery_init_cases _ env port Hdown) as [(_ & _ & _ & ->)|(_ & ->)];
    eexists _, _; (split; [reflexivity|by vm_compute]).
Qed.

Lemma pn_discovery_shutdown_spec_witness :
  let st := mk_instance true 5400 3 true true true
              (sample_state true (str "A1") one_peer_registry) in
  let r := pn_discovery_shutdown st 1700000090 sample_stack_msg in
  initialized st = true /\
  zlen (id (my_service (core st))) < PN_MAX_ID_LEN /\
  zlen sample_stack_msg = PN_MAX_MSG_LEN /\
  initialized r.1 = false /\ sock r.1 = INVALID_SOCK /\
  announcing (core r.1) = false /\ listening r.1 = false /\
  r.2 = (if announcing (core st) then [bye_text (core st) 1700000090] else []) /\
  services (core r.1) = services (core st) /\
  (forall now' stack_msg', pn_discovery_shutdown r.1 now' stack_msg' = (r.1, [])) /\
  (forall now' stack_msg' thread_ok id_ service_ ctrl_port_ data_port_ caps_,
     pn_announce r.1 now' stack_msg' thread_ok id_ service_ ctrl_port_ data_port_ caps_
     = (-1, r.1, [])) /\
  (forall thread_ok cb, pn_listen r.1 thread_ok cb = (-1, r.1)) /\
  (forall env port, exists ret st',
     pn_discovery_init r.1 env port = Some (ret, st') /\
     pn_get_service_count (core st') = 0).
Proof.
  cbv zeta. split; [reflexivity|]. split; [reflexivity|]. split; [reflexivity|].
  exact (pn_discovery_shutdown_spec
           (mk_instance true 5400 3 true true true
              (sample_state true (str "A1") one_peer_registry))
           1700000090 sample_stack_msg eq_refl eq_refl eq_refl).
Defined.

(* ===================================================================== *)
(** ** The interface as a whole *)
(* ===================================================================== *)

Lemma self_fits_ext g g' :
  my_service g' = my_service g -> local_ip g' = local_ip g -> self_fits g -> self_fits g'.
Proof. unfold self_fits. by intros -> ->. Qed.

Lemma listen_step_fields g d :
  announcing (listen_step g d).1 = announcing g /\
  my_service (listen_step g d).1 = my_service g /\
  local_ip (listen_step g d).1 = local_ip g.
Proof.
  unfold listen_step.
  destruct (0 <? Z.min (zlen (dg_bytes d)) (PN_MAX_MSG_LEN - 1)); cbn [fst]; [|done].
  destruct (parse_message_effect g (dg_time d) (dg_stack_caps d) (dg_text d) (dg_sender d))
    as [->|[(i & svc & k & s0 & _ & _ & _ & _ & _ & ->)|(i & k & s0 & _ & ->)]]; done.
Qed.

Lemma stop_inv st now stack_msg :
  lifecycle_inv st -> zlen stack_msg = PN_MAX_MSG_LEN ->
  lifecycle_inv (pn_announce_stop st now stack_msg).1 /\
  Forall departure_text (pn_announce_stop st now stack_msg).2.
Proof.
  intros (Hf & Hlen & Hu & Har & Hlr & Hini) Hm. unfold pn_announce_stop.
  destruct (announcing (core st)) eqn:Ha; cbn [negb fst snd].
  - split.
    + unfold lifecycle_inv. cbn [core services announcing announce_running listen_running
        listening initialized].
      split; [by apply (self_fits_ext (core st))|].
      repeat split; try done; by apply Hini.
    + rewrite bye_broadcast; [|apply Hf|done].
      apply Forall_cons_2; [|apply Forall_nil_2]. by exists (core st), now.
  - split; [|apply Forall_nil_2]. unfold lifecycle_inv. by rewrite Ha.
Qed.

Lemma api_step_inv st c :
  lifecycle_inv st -> call_ok c ->
  exists st' sent, api_step st c = Some (st', sent) /\ lifecycle_inv st' /\ Forall departure_text sent.
Proof.
  intros Hinv Hok. pose proof Hinv as (Hf & Hlen & Hu & Har & Hlr & Hini).
  destruct c as [env port|now m ok i s cp dp c|now m|ok cb|d|now m]; cbn [api_step call_ok] in *.
  - (* pn_discovery_init *)
    destruct (initialized st) eqn:Hi.
    + unfold pn_discovery_init. rewrite Hi. by exists st, [].
    + destruct (pn_discovery_init_cases st env port Hi) as [(_ & _ & _ & ->)|(_ & ->)];
        eexists _, []; (split; [reflexivity|]); (split; [|apply Forall_nil_2]).
      * unfold lifecycle_inv. cbn [core services announcing announce_running listen_running
          listening initialized].
        split; [apply self_fits_fresh|]. split; [apply length_replicate|].
        split; [apply unique_ids_zero|]. done.
      * unfold lifecycle_inv. cbn [core services announcing announce_running listen_running
          listening initialized g_zero].
        split; [apply self_fits_zero|]. split; [apply length_replicate|].
        split; [apply unique_ids_zero|]. done.
  - (* pn_announce *)
    destruct Hok as (Hm & Hi_ & Hs_ & Hc_ & Hcp & Hdp).
    eexists _, _. split; [reflexivity|].
    destruct (initialized st) eqn:Hi.
    + destruct (pn_announce_core st now m ok i s cp dp c Hi)
        as (_ & Hi' & Har' & Hl' & Hlr' & Hcore & Hsent).
      split.
      * unfold lifecycle_inv. rewrite Hcore, Hi', Har', Hl', Hlr'.
        cbn [services announcing].
        split; [by apply announced_self_fits|]. repeat split; try done.
      * rewrite Hsent. destruct (announcing (core st)); [|apply Forall_nil_2].
        rewrite bye_broadcast; [|apply Hf|done].
        apply Forall_cons_2; [|apply Forall_nil_2]. by exists (core st), now.
    + unfold pn_announce. rewrite Hi. cbn [negb fst snd]. split; [done|apply Forall_nil_2].
  - (* pn_announce_stop *)
    destruct (stop_inv st now m Hinv Hok) as [H1 H2].
    exists (pn_announce_stop st now m).1, (pn_announce_stop st now m).2.
    split; [by destruct (pn_announce_stop st now m)|done].
  - (* pn_listen *)
    eexists _, []. split; [reflexivity|]. split; [|apply Forall_nil_2].
    unfold pn_listen. destruct (initialized st) eqn:Hi; cbn [negb snd]; [|done].
    destruct (listening st) eqn:Hl; cbn [snd]; [done|].
    destruct ok; unfold lifecycle_inv;
      cbn [core services announcing announce_running listen_running listening initialized
           my_service local_ip];
      (split; [by apply (self_fits_ext (core st))|]); repeat split; try done.
  - (* a datagram *)
    destruct (listen_running st) eqn:Hrun; [|by exists st, []].
    eexists _, []. split; [reflexivity|]. split; [|apply Forall_nil_2].
    destruct (listen_step_inv (core st) d Hlen Hu) as (Hlen' & Hu' & _).
    destruct (listen_step_fields (core st) d) as (Ha' & Hme' & Hip').
    unfold lifecycle_inv, set_core.
    cbn [core announce_running listen_running listening initialized].
    split; [by apply (self_fits_ext (core st))|]. rewrite Ha'.
    split; [done|]. split; [done|]. split; [done|]. split; [by rewrite Hrun|done].
  - (* pn_discovery_shutdown *)
    destruct (initialized st) eqn:Hi.
    + destruct (pn_discovery_shutdown_core st now m Hi)
        as (Hdown & _ & Han & Har' & Hl' & Hlr' & Hme & Hsv & Hip & Hsent).
      exists (pn_discovery_shutdown st now m).1, (pn_discovery_shutdown st now m).2.
      split; [by destruct (pn_discovery_shutdown st now m)|]. split.
      * unfold lifecycle_inv. rewrite Han, Har', Hl', Hlr', Hsv, Har, Hlr.
        split; [by apply (self_fits_ext (core st))|]. repeat split; try done.
        -- by destruct (announcing (core st)).
        -- by destruct (listening st).
      * rewrite Hsent. destruct (announcing (core st)); [|apply Forall_nil_2].
        rewrite bye_broadcast; [|apply Hf|done].
        apply Forall_cons_2; [|apply Forall_nil_2]. by exists (core st), now.
    + unfold pn_discovery_shutdown. rewrite Hi. cbn [negb].
      exists st, []. split; [done|]. split; [done|apply Forall_nil_2].
Qed.

Lemma api_run_inv calls : forall st,
  lifecycle_inv st -> Forall call_ok calls ->
  exists st' sent, api_run st calls = Some (st', sent) /\ lifecycle_inv st' /\
                   Forall departure_text sent.
Proof.
  induction calls as [|c calls IH]; intros st Hinv Hok.
  - exists st, []. split; [done|]. split; [done|apply Forall_nil_2].
  - apply Forall_cons in Hok as [Hc Hok]. cbn [api_run].
    destruct (api_step_inv st c Hinv Hc) as (st1 & sent1 & -> & Hinv1 & Hs1).
    destruct (IH st1 Hinv1 Hok) as (st2 & sent2 & -> & Hinv2 & Hs2).
    exists st2, (sent1 ++ sent2). split; [done|]. split; [done|by apply Forall_app_2].
Qed.

Lemma lifecycle_inv_zero : lifecycle_inv instance_zero.
Proof.
  unfold lifecycle_inv. split; [apply self_fits_zero|].
  split; [apply length_replicate|]. split; [apply unique_ids_zero|]. done.
Qed.

(** X29. Whatever the application calls, in whatever order, with strings
    and [int] ports as arguments, and whatever datagrams the listen
    thread receives in between: no call stores outside an array; the
    self descriptor always fits its arrays, so that its presence and
    departure messages fit the message buffer; the registry keeps its 32
    slots with at most one active record per identity; an instance that
    is not initialised neither announces nor listens; and every message
    a call of the interface broadcasts is a departure message. *)
Theorem api_run_invariant calls :
  Forall call_ok calls ->
  exists st sent,
    api_run instance_zero calls = Some (st, sent) /\
    self_fits (core st) /\
    length (services (core st)) = PN_MAX_SERVICES /\
    unique_ids (services (core st)) /\
    (initialized st = false -> announcing (core st) = false /\ listening st = false) /\
    (forall now buf, zlen buf = PN_MAX_MSG_LEN ->
       broadcast_of (build_helo_message (core st) now buf PN_MAX_MSG_LEN)
         = [helo_text (core st) now] /\
       broadcast_of (build_bye_message (core st) now buf PN_MAX_MSG_LEN)
         = [bye_text (core st) now]) /\
    Forall (fun m => exists g now, self_fits g /\ m = bye_text g now) sent.
Proof.
  intros Hok.
  destruct (api_run_inv calls instance_zero lifecycle_inv_zero Hok)
    as (st & sent & E & (Hf & Hlen & Hu & _ & _ & Hini) & Hsent).
  exists st, sent. split; [done|]. split; [done|]. split; [done|]. split; [done|].
  split; [done|]. split; [|done].
  intros now buf Hbuf. split; [|apply bye_broadcast; [apply Hf|done]].
  destruct (message_encodes (helo_items (core st) now) buf PN_MAX_MSG_LEN)
    as (buf' & n & E' & Hl & Hcase); [unfold helo_items; discriminate|by vm_compute|done|].
  rewrite <- build_helo_message_chain in E'. fold (helo_text (core st) now) in Hcase.
  pose proof (helo_text_length (core st) now Hf) as Hshort.
  destruct Hcase as [[_ Hbad]|(-> & _ & Htake & _)]; [lia|].
  rewrite E'. unfold broadcast_of, sent_bytes.
  assert (0 < zlen (helo_text (core st) now))
    by (unfold helo_text, message_text, zlen; cbn [length]; lia).
  destruct (Z.ltb_spec 0 (zlen (helo_text (core st) now))); [|lia].
  unfold zlen. by rewrite Nat2Z.id, Htake.
Qed.

Lemma api_run_invariant_witness :
  Forall call_ok sample_session /\
  exists st sent,
    api_run instance_zero sample_session = Some (st, sent) /\
    self_fits (core st) /\
    length (services (core st)) = PN_MAX_SERVICES /\
    unique_ids (services (core st)) /\
    (initialized st = false -> announcing (core st) = false /\ listening st = false) /\
    (forall now buf, zlen buf = PN_MAX_MSG_LEN ->
       broadcast_of (build_helo_message (core st) now buf PN_MAX_MSG_LEN)
         = [helo_text (core st) now] /\
       broadcast_of (build_bye_message (core st) now buf PN_MAX_MSG_LEN)
         = [bye_text (core st) now]) /\
    Forall (fun m => exists g now, self_fits g /\ m = bye_text g now) sent.
Proof.
  assert (Hok : Forall call_ok sample_session).
  { unfold sample_session.
    repeat (apply Forall_cons_2; [cbn [call_ok]|]); try apply Forall_nil_2;
      try exact I; repeat split; try reflexivity; by vm_compute. }
  split; [exact Hok|]. exact (api_run_invariant sample_session Hok).
Defined.

(* ===================================================================== *)
(** ** The announce thread *)
(* ===================================================================== *)

Lemma helo_broadcast g now buf :
  self_fits g -> zlen buf = PN_MAX_MSG_LEN ->
  exists buf' n,
    build_helo_message g now buf PN_MAX_MSG_LEN = Some (buf', n) /\
    zlen buf' = PN_MAX_MSG_LEN /\ (0 <? n) = true /\ sent_bytes buf' n = helo_text g now.
Proof.
  intros Hf Hbuf.
  destruct (message_encodes (helo_items g now) buf PN_MAX_MSG_LEN)
    as (buf' & n & E' & Hl & Hcase); [unfold helo_items; discriminate|by vm_compute|done|].
  rewrite <- build_helo_message_chain in E'. fold (helo_text g now) in Hcase.
  pose proof (helo_text_length g now Hf) as Hshort.
  destruct Hcase as [[_ Hbad]|(-> & _ & Htake & _)]; [lia|].
  exists buf', (zlen (helo_text g now)). split; [done|]. split; [done|]. split.
  - apply Z.ltb_lt. unfold helo_text, message_text, zlen. cbn [length]. lia.
  - unfold sent_bytes, zlen. by rewrite Nat2Z.id.
Qed.

Lemma interval_bounds r :
  0 <= r -> (30 <= Z.to_nat (get_random_interval r) <= 60)%nat.
Proof.
  intros Hr. unfold get_random_interval, PN_ANNOUNCE_MIN_SEC, PN_ANNOUNCE_MAX_SEC.
  rewrite Z.rem_mod_nonneg by lia. pose proof (Z.mod_pos_bound r (60 - 30 + 1)). lia.
Qed.

(** The pause when the flag reads true [p] times and then false. *)
Lemma sleep_loop_true n : forall p post,
  sleep_loop n (replicate p true ++ post) =
    if (n <=? p)%nat then (n, Some (replicate (p - n) true ++ post))
    else match post with
         | [] => (p, None)
         | f :: post' => if f then sleep_loop n (replicate p true ++ post)
                         else (p, Some post')
         end.
Proof.
  induction n as [|n IH]; intros p post.
  - cbn [sleep_loop]. by rewrite Nat.sub_0_r.
  - destruct p as [|p].
    + cbn [replicate app sleep_loop Nat.leb]. by destruct post as [|[] post'].
    + cbn [replicate app sleep_loop]. rewrite IH. cbn [Nat.leb Nat.sub].
      destruct (n <=? p)%nat; [done|]. by destruct post as [|[] post'].
Qed.

Lemma sleep_loop_rest n : forall flags rest,
  (sleep_loop n flags).2 = Some rest -> (length rest <= length flags)%nat.
Proof.
  induction n as [|n IH]; intros flags rest; cbn [sleep_loop].
  - by intros [= ->].
  - destruct flags as [|[] flags]; cbn [snd length]; [done| |].
    + intros H%IH. lia.
    + intros [= ->]. lia.
Qed.

(** The loop needs no more fuel than there are reads. *)
Lemma announce_loop_fuel g rand time : forall fuel1 fuel2 k msg flags,
  (length flags <= fuel1)%nat -> (length flags <= fuel2)%nat ->
  announce_loop fuel1 g rand time k msg flags = announce_loop fuel2 g rand time k msg flags.
Proof.
  induction fuel1 as [|fuel1 IH]; intros fuel2 k msg flags H1 H2.
  - destruct flags; [|cbn [length] in H1; lia]. by destruct fuel2.
  - destruct fuel2 as [|fuel2]; [destruct flags; [done|cbn [length] in H2; lia]|].
    cbn [announce_loop]. destruct flags as [|f flags1]; [done|].
    destruct f; cbn [negb]; [|done]. f_equal.
    destruct (sleep_loop (Z.to_nat (get_random_interval (rand k))) flags1) as [s [rest|]] eqn:Es;
      cbn [snd]; [|done].
    destruct rest as [|f2 flags2]; [done|]. destruct f2; cbn [negb]; [|done].
    destruct (build_helo_message g (time (S k)) msg PN_MAX_MSG_LEN) as [[msg' len]|]; [|done].
    f_equal.
    pose proof (sleep_loop_rest (Z.to_nat (get_random_interval (rand k))) flags1
                  (true :: flags2)) as Hr.
    rewrite Es in Hr. specialize (Hr eq_refl). cbn [length] in *.
    apply IH; lia.
Qed.

(** Once the flag reads false nothing more is done. *)
Lemma announce_loop_stop g rand time : forall fuel k msg p q,
  announce_loop fuel g rand time k msg (replicate p true ++ replicate q false)
  = announce_loop fuel g rand time k msg (replicate p true).
Proof.
  induction fuel as [|fuel IH]; intros k msg p q; [done|]. cbn [announce_loop].
  destruct p as [|p].
  - cbn [replicate app]. by destruct q.
  - cbn [replicate app negb].
    rewrite (sleep_loop_true _ p (replicate q false)).
    pose proof (sleep_loop_true (Z.to_nat (get_random_interval (rand k))) p []) as Hp.
    rewrite app_nil_r in Hp. rewrite Hp.
    destruct (Z.to_nat (get_random_interval (rand k)) <=? p)%nat; cbn [fst snd].
    + rewrite app_nil_r. f_equal.
      destruct (p - Z.to_nat (get_random_interval (rand k)))%nat as [|m].
      * cbn [replicate app]. by destruct q.
      * cbn [replicate app negb].
        destruct (build_helo_message g (time (S k)) msg PN_MAX_MSG_LEN) as [[msg' len]|];
          [|done].
        f_equal. apply IH.
    + destruct q as [|q]; cbn [replicate fst snd]; [done|]. f_equal. by destruct q.
Qed.

(** With the flag reading true, the trace is made of the rounds the
    reads allow. *)
Lemma announce_loop_rounds g rand time :
  self_fits g ->
  forall fuel k msg p, (p <= fuel)%nat -> zlen msg = PN_MAX_MSG_LEN ->
    rounds_ok g rand time k p (announce_loop fuel g rand time k msg (replicate p true)).
Proof.
  intros Hf. induction fuel as [|fuel IH]; intros k msg p Hp Hmsg.
  - replace p with O by lia. apply (rounds_end g rand time k 0). lia.
  - cbn [announce_loop]. destruct p as [|p]; [apply (rounds_end g rand time k 0); lia|].
    cbn [replicate negb].
    assert (Hend : forall m, m = (S p - 1)%nat ->
              (S p <= Z.to_nat (get_random_interval (rand k)) + 1)%nat ->
              rounds_ok g rand time k (S p) (replicate m Sleep)).
    { intros m -> H. by apply rounds_end. }
    pose proof (sleep_loop_true (Z.to_nat (get_random_interval (rand k))) p []) as Hs.
    rewrite app_nil_r in Hs. rewrite Hs.
    destruct (Nat.leb_spec (Z.to_nat (get_random_interval (rand k))) p) as [Hle|Hgt];
      cbn [fst snd].
    + rewrite app_nil_r.
      destruct (p - Z.to_nat (get_random_interval (rand k)))%nat as [|m] eqn:Em.
      * cbn [replicate]. rewrite app_nil_r. apply Hend; lia.
      * cbn [replicate negb].
        destruct (helo_broadcast g (time (S k)) msg Hf Hmsg) as (msg' & len & -> & Hl & -> & ->).
        cbn [app]. apply rounds_more; [lia|].
        replace (S p - Z.to_nat (get_random_interval (rand k)) - 2)%nat with m by lia.
        apply IH; [lia|done].
    + rewrite app_nil_r. apply Hend; lia.
Qed.

Lemma broadcasts_sleeps n tr : broadcasts (replicate n Sleep ++ tr) = broadcasts tr.
Proof. induction n as [|n IH]; [done|]. by cbn [replicate app broadcasts]. Qed.

(** The number of messages the rounds of [p] reads broadcast. *)
Lemma rounds_ok_count g rand time k p tr :
  (forall j, 0 <= rand j) -> rounds_ok g rand time k p tr ->
  (p < 62 * (1 + broadcasts tr))%nat /\ (32 * broadcasts tr <= p)%nat.
Proof.
  intros Hrand H. induction H as [k p Hp|k p tr Hp H IH].
  - pose proof (interval_bounds (rand k) (Hrand k)).
    pose proof (broadcasts_sleeps (p - 1) []) as E. rewrite app_nil_r in E. rewrite E.
    cbn [broadcasts]. lia.
  - pose proof (interval_bounds (rand k) (Hrand k)).
    rewrite broadcasts_sleeps. cbn [broadcasts]. lia.
Qed.

(** X30. The announce thread of a well-formed descriptor first
    broadcasts the presence message. While the flag [announce_running]
    reads true it then goes round: it sleeps for the interval drawn for
    the round, 30 to 60 sleeps of one second, and broadcasts the presence
    message with the time of that moment; a pause is cut short only where
    the reads of the flag end. So after [p] reads of the flag the thread
    has broadcast more than [p / 62] and at most [1 + p / 32] messages.
    Once the flag reads false it sleeps no more and broadcasts nothing
    more. *)
Theorem announce_thread_schedule g rand time stack_msg p q :
  self_fits g -> zlen stack_msg = PN_MAX_MSG_LEN -> (forall k, 0 <= rand k) ->
  let run := announce_thread_func g rand time stack_msg in
  run (replicate p true ++ replicate q false) = run (replicate p true) /\
  (forall k, (30 <= Z.to_nat (get_random_interval (rand k)) <= 60)%nat) /\
  exists tr,
    run (replicate p true) = Broadcast (helo_text g (time O)) :: tr /\
    rounds_ok g rand time O p tr /\
    (p < 62 * broadcasts (run (replicate p true)))%nat /\
    (32 * broadcasts (run (replicate p true)) <= p + 32)%nat.
Proof.
  intros Hf Hmsg Hrand. cbv zeta. unfold announce_thread_func.
  destruct (helo_broadcast g (time O) stack_msg Hf Hmsg) as (msg' & len & -> & Hl & -> & ->).
  cbn [app]. split; [|split].
  - f_equal. rewrite announce_loop_stop.
    apply announce_loop_fuel; rewrite ?length_app, !length_replicate; lia.
  - intros k. by apply interval_bounds.
  - eexists. split; [reflexivity|].
    pose proof (announce_loop_rounds g rand time Hf (length (replicate p true)) O msg' p) as Hr.
    rewrite length_replicate in Hr. specialize (Hr (Nat.le_refl p) Hl).
    match goal with |- context [announce_loop ?f _ _ _ _ _ _] =>
      replace f with p by (by rewrite length_replicate) end.
    split; [done|]. cbn [broadcasts].
    destruct (rounds_ok_count g rand time O p _ Hrand Hr). lia.
Qed.

Lemma announce_thread_schedule_witness :
  let rand := fun _ : nat => 7 in
  let time := fun k : nat => 1700000000 + 37 * Z.of_nat k in
  let run := announce_thread_func sample_server rand time sample_stack_msg in
  self_fits sample_server /\ zlen sample_stack_msg = PN_MAX_MSG_LEN /\
  (forall k : nat, 0 <= rand k) /\
  run (replicate 80 true ++ replicate 2 false) = run (replicate 80 true) /\
  (forall k, (30 <= Z.to_nat (get_random_interval (rand k)) <= 60)%nat) /\
  exists tr,
    run (replicate 80 true) = Broadcast (helo_text sample_server (time O)) :: tr /\
    rounds_ok sample_server rand time O 80 tr /\
    (80 < 62 * broadcasts (run (replicate 80 true)))%nat /\
    (32 * broadcasts (run (replicate 80 true)) <= 80 + 32)%nat.
Proof.
  cbv zeta.
  assert (H1 : zlen sample_stack_msg = PN_MAX_MSG_LEN) by reflexivity.
  assert (H2 : forall k : nat, 0 <= 7) by (intros _; lia).
  split; [exact self_fits_sample_server|]. split; [exact H1|]. split; [exact H2|].
  exact (announce_thread_schedule sample_server (fun _ => 7)
           (fun k => 1700000000 + 37 * Z.of_nat k) sample_stack_msg 80 2
           self_fits_sample_server H1 H2).
Defined.
